(** * sunergy-calc: solar position, panel power and energy estimates

    A shallow embedding of [src/index.ts].  The three exported functions
    ([computeSolarPotential], [computePanelPower], [estimateEnergyProduced])
    and their helpers are written once, over an interface [Number] of the
    operations the source applies to JavaScript numbers.

    The statements about the program are made at [Float64 M]: IEEE-754
    binary64, the numbers of the language, as Rocq's primitive floats, with
    [Math.sin], [Math.cos] and [Math.asin] (which ECMAScript leaves
    "implementation-approximated") taken from a host library [M].  They
    hold for every host library, or, where the statement depends on the
    values of the three functions, for every host library within
    [HostSpec] (ranges and signs) or accurate at the arguments of the call
    ([accurateForAltitude]).

    A second instance, [Exact] (reals extended with NaN, no rounding), is
    used for the calendar arithmetic of [getDayOfYear] only: there every
    operand is an integer below 2^53 and the two readings agree.

    Dates follow ECMAScript's time values: an integral number of
    milliseconds since the epoch, or [NaN]. *)

From Stdlib Require Import ZArith QArith Bool String List Lia.
From Stdlib Require Import Floats.
From Stdlib Require Import Reals Lra.

Set Warnings "-inexact-float".

(* ================================================================= *)
(** ** Results of fallible calls *)

(** A call either returns a value or throws [new Error(message)]. *)
Inductive Result (A : Type) : Type :=
| Return (value : A)
| Throw (message : string).
Arguments Return {A} value.
Arguments Throw {A} message.

Definition throws {A : Type} (r : Result A) : bool :=
  match r with
  | Throw _ => true
  | Return _ => false
  end.

(* ================================================================= *)
(** ** ECMAScript time values and the [Date] methods the source calls *)

Module ESDate.
Local Open Scope Z_scope.

(** The [[DateValue]] of a Date object: [None] is NaN ("Invalid Date"). *)
Definition TimeValue := option Z.

Definition msPerDay : Z := 86400000.
Definition msPerHour : Z := 3600000.
Definition msPerMinute : Z := 60000.
Definition msPerSecond : Z := 1000.

(** The largest magnitude [TimeClip] lets through: 100,000,000 days. *)
Definition maxTime : Z := 8640000000000000.

Definition Day (t : Z) : Z := t / msPerDay.

Definition DayFromYear (y : Z) : Z :=
  365 * (y - 1970) + (y - 1969) / 4 - (y - 1901) / 100 + (y - 1601) / 400.

Definition TimeFromYear (y : Z) : Z := msPerDay * DayFromYear y.

(** [YearFromTime t] is the largest [y] with [TimeFromYear y <= t]: an
    estimate from the 400-year cycle of 146097 days, corrected by one. *)
Definition YearFromTime (t : Z) : Z :=
  let d := Day t in
  let y := 1970 + (400 * d) / 146097 in
  if d <? DayFromYear y then y - 1
  else if DayFromYear (y + 1) <=? d then y + 1
  else y.

Definition InLeapYear (y : Z) : bool :=
  (DayFromYear (y + 1) - DayFromYear y) =? 366.

Definition HourFromTime (t : Z) : Z := (t / msPerHour) mod 24.
Definition MinFromTime (t : Z) : Z := (t / msPerMinute) mod 60.
Definition SecFromTime (t : Z) : Z := (t / msPerSecond) mod 60.

(** Days of the year before month [m] (0 = January). *)
Definition DaysBeforeMonth (leap : bool) (m : Z) : Z :=
  let l := if leap then 1 else 0 in
  match m with
  | 0 => 0 | 1 => 31 | 2 => 59 + l | 3 => 90 + l | 4 => 120 + l
  | 5 => 151 + l | 6 => 181 + l | 7 => 212 + l | 8 => 243 + l
  | 9 => 273 + l | 10 => 304 + l | _ => 334 + l
  end.

(** [MakeDay(year, month, date)]: the day number of the first of the month,
    plus [date - 1]; month 0 with date 0 is the 31st of December before. *)
Definition MakeDay (year month date : Z) : Z :=
  let ym := year + month / 12 in
  let mn := month mod 12 in
  DayFromYear ym + DaysBeforeMonth (InLeapYear ym) mn + date - 1.

Definition MakeDate (day time : Z) : Z := day * msPerDay + time.

Definition TimeClip (t : Z) : TimeValue :=
  if maxTime <? Z.abs t then None else Some t.

(** Years 0..99 mean 1900..1999 in [Date.UTC]. *)
Definition MakeFullYear (y : Z) : Z :=
  if (0 <=? y) && (y <=? 99) then 1900 + y else y.

(** [Date.UTC(year, month, date)], the remaining fields left at 0; a NaN
    year gives NaN. *)
Definition Date_UTC (year : option Z) (month date : Z) : TimeValue :=
  match year with
  | None => None
  | Some y => TimeClip (MakeDate (MakeDay (MakeFullYear y) month date) 0)
  end.

Definition getUTCFullYear (d : TimeValue) : option Z := option_map YearFromTime d.
Definition getUTCHours (d : TimeValue) : option Z := option_map HourFromTime d.
Definition getUTCMinutes (d : TimeValue) : option Z := option_map MinFromTime d.
Definition getUTCSeconds (d : TimeValue) : option Z := option_map SecFromTime d.

End ESDate.
Export ESDate.

(** What a caller may pass where a [Date] is expected: the source checks
    [date instanceof Date] before it reads the time value. *)
Inductive DateArg : Type :=
| NotADate
| DateObj (t : TimeValue).

Definition instanceofDate (d : DateArg) : bool :=
  match d with
  | NotADate => false
  | DateObj _ => true
  end.

Definition timeValueOf (d : DateArg) : TimeValue :=
  match d with
  | NotADate => None
  | DateObj t => t
  end.

(* ================================================================= *)
(** ** The operations the source applies to numbers *)

(** [lit] reads a numeric literal of the source and [int] is the number of
    an integer (what a [Date] getter returns); [nlt], [nle] and [neq] are
    [<], [<=] and [===]; [nrem] is [%]. *)
Class Number (num : Type) : Type := {
  lit : Q -> num;
  int : Z -> num;
  NaN : num;
  nadd : num -> num -> num;
  nsub : num -> num -> num;
  nmul : num -> num -> num;
  ndiv : num -> num -> num;
  nrem : num -> num -> num;
  nlt : num -> num -> bool;
  nle : num -> num -> bool;
  neq : num -> num -> bool;
  Number_isNaN : num -> bool;
  Number_isFinite : num -> bool;
  Math_PI : num;
  Math_sin : num -> num;
  Math_cos : num -> num;
  Math_asin : num -> num;
  Math_floor : num -> num;
  Math_round : num -> num;
  Math_max : num -> num -> num;
  Math_min : num -> num -> num
}.
Arguments lit {num _} q%_Q.

Declare Scope num_scope.
Delimit Scope num_scope with num.
Notation "x + y" := (nadd x y) : num_scope.
Notation "x - y" := (nsub x y) : num_scope.
Notation "x * y" := (nmul x y) : num_scope.
Notation "x / y" := (ndiv x y) : num_scope.
Notation "x 'mod' y" := (nrem x y) : num_scope.
Notation "x <? y" := (nlt x y) : num_scope.
Notation "x >? y" := (nlt y x) : num_scope.
Notation "x <=? y" := (nle x y) : num_scope.
Notation "x === y" := (neq x y) (at level 70, no associativity) : num_scope.

(** The number a [Date] getter returns: an integer, or NaN. *)
Definition ofInt {num : Type} {N : Number num} (z : option Z) : num :=
  match z with
  | Some z => int z
  | None => NaN
  end.

(* ================================================================= *)
(** ** The program *)

(** All angles are in degrees; [irradiance] is in W/m2. *)
Record SolarPosition (num : Type) : Type := mkSolarPosition {
  declination : num;
  hourAngle : num;
  altitude : num;
  azimuth : num;
  zenith : num;
  irradiance : num
}.
Arguments mkSolarPosition {num}.
Arguments declination {num}.
Arguments hourAngle {num}.
Arguments altitude {num}.
Arguments azimuth {num}.
Arguments zenith {num}.
Arguments irradiance {num}.

Section Program.
Context {num : Type} {N : Number num}.
Local Open Scope num_scope.

Definition toRadians (deg : num) : num := (deg * Math_PI) / lit 180.
Definition toDegrees (rad : num) : num := (rad * lit 180) / Math_PI.

(** Clamp value between min and max. *)
Definition clamp (value min max : num) : num :=
  Math_max min (Math_min max value).

Definition getTime (date : TimeValue) : num := ofInt date.

(** Day of year from UTC date. *)
Definition getDayOfYear (date : TimeValue) : num :=
  let start := Date_UTC (getUTCFullYear date) 0 0 in
  let diff := getTime date - getTime start in
  let oneDay := lit 24 * lit 60 * lit 60 * lit 1000 in
  Math_floor (diff / oneDay).

Definition computeSolarPotential (lat lon : num) (date : DateArg)
  : Result (SolarPosition num) :=
  if Number_isNaN lat || (lat <? lit (-90)) || (lat >? lit 90) then
    Throw "Latitude must be in [-90, 90]."
  else if Number_isNaN lon || (lon <? lit (-180)) || (lon >? lit 180) then
    Throw "Longitude must be in [-180, 180]."
  else if negb (instanceofDate date) || Number_isNaN (getTime (timeValueOf date)) then
    Throw "Invalid Date object."
  else
    let date := timeValueOf date in
    (* Solar constant, W/m2 *)
    let I0 := lit 1367 in
    let n := getDayOfYear date in
    (* Solar declination (degrees) *)
    let decl := lit 23.45 * Math_sin (toRadians ((lit 360 / lit 365) * (n - lit 81))) in
    (* Solar time *)
    let hours :=
      ofInt (getUTCHours date) +
      ofInt (getUTCMinutes date) / lit 60 +
      ofInt (getUTCSeconds date) / lit 3600 in
    (* Nearest standard meridian *)
    let lstm := lit 15 * Math_round (lon / lit 15) in
    (* Approx eq of time *)
    let eqTime := lit 7.5 * Math_sin (toRadians ((lit 360 / lit 365) * (n - lit 81))) in
    let timeOffset := eqTime + lit 4 * (lon - lstm) in
    let solarTime := hours + timeOffset / lit 60 in
    let hourAngle := lit 15 * (solarTime - lit 12) in
    (* Angles in radians *)
    let latRad := toRadians lat in
    let declRad := toRadians decl in
    let haRad := toRadians hourAngle in
    let sinAlt :=
      clamp
        (Math_sin latRad * Math_sin declRad +
         Math_cos latRad * Math_cos declRad * Math_cos haRad)
        (lit (-1))
        (lit 1) in
    let altitude := toDegrees (Math_asin sinAlt) in
    let zenith := lit 90 - altitude in
    let '(azimuth, groundIrradiance) :=
      if altitude >? lit 0 then
        let den := Math_cos (toRadians altitude) in
        let sinAz :=
          if den === lit 0 then lit 0
          else (Math_cos declRad * Math_sin haRad) / den in
        let sinAz := clamp sinAz (lit (-1)) (lit 1) in
        let azimuth := toDegrees (Math_asin sinAz) in
        let azimuth :=
          if hourAngle >? lit 0 then lit 180 - azimuth else lit 180 + azimuth in
        let azimuth := (azimuth + lit 360) mod lit 360 in
        (azimuth, Math_max (lit 0) (I0 * sinAlt))
      else (NaN, lit 0) in
    Return {|
      declination := decl;
      hourAngle := hourAngle;
      altitude := altitude;
      azimuth := azimuth;
      zenith := zenith;
      irradiance := groundIrradiance
    |}.

(** Power = Area * Efficiency * Irradiance. *)
Definition computePanelPower (area efficiency irradiance : num) : Result num :=
  if (area <? lit 0) || negb (Number_isFinite area) then
    Throw "Area must be >= 0."
  else if (efficiency <? lit 0) || (efficiency >? lit 1) then
    Throw "Efficiency in range 0–1."
  else if irradiance <? lit 0 then
    Return (lit 0)
  else
    Return (area * efficiency * irradiance).

(** E(kWh) = Area * Efficiency * H * PR; [performanceRatio] defaults to
    0.75 when the argument is left out. *)
Definition estimateEnergyProduced
  (area efficiency averageIrradiance periodHours : num)
  (performanceRatio : option num) : Result num :=
  let performanceRatio :=
    match performanceRatio with
    | Some pr => pr
    | None => lit 0.75
    end in
  if (area <? lit 0) || negb (Number_isFinite area) then
    Throw "Panel area must be >= 0."
  else if (efficiency <? lit 0) || (efficiency >? lit 1) then
    Throw "Efficiency in range 0–1."
  else if averageIrradiance <? lit 0 then
    Throw "Irradiance must be >= 0"
  else if (performanceRatio <? lit 0) || (performanceRatio >? lit 1) then
    Throw "Performance ratio in 0–1"
  else if periodHours <=? lit 0 then
    Throw "Period hours must be > 0"
  else
    (* Total energy in kWh *)
    let energyKWh :=
      area *
      efficiency *
      ((averageIrradiance * periodHours) / lit 1000) *
      performanceRatio in
    Return energyKWh.

End Program.

(* ================================================================= *)
(** ** Numbers as IEEE-754 binary64 *)

Module F64.
Local Open Scope float_scope.

(** An integer as a number; exact below 2^53 in magnitude. *)
Definition ofZ (z : Z) : float :=
  SF2Prim (binary_normalize prec emax z 0 false).

(** A literal [n/d] of the source, correctly rounded. *)
Definition literal (q : Q) : float :=
  ofZ (Qnum q) / ofZ (Zpos (Qden q)).

Definition PI : float := 0x1.921fb54442d18p+1.

(** [Math.floor]: NaN, the infinities, the zeros and integers return
    themselves. *)
Definition floor (x : float) : float :=
  match Prim2SF x with
  | S754_finite s m e =>
      if (0 <=? e)%Z then x
      else
        let q := (cond_Zopp s (Zpos m) / 2 ^ (- e))%Z in
        if (q =? 0)%Z then zero else ofZ q
  | _ => x
  end.

(** [Math.round]: the nearest integer, ties towards +infinity; a result of
    zero keeps the sign of the argument. *)
Definition round (x : float) : float :=
  match Prim2SF x with
  | S754_finite s m e =>
      if (0 <=? e)%Z then x
      else
        let d := (2 ^ (- e))%Z in
        let q := ((2 * cond_Zopp s (Zpos m) + d) / (2 * d))%Z in
        if (q =? 0)%Z then (if s then neg_zero else zero) else ofZ q
  | _ => x
  end.

(** [Math.max] and [Math.min]: NaN if either argument is NaN; +0 is larger
    than -0. *)
Definition max (a b : float) : float :=
  if is_nan a || is_nan b then nan
  else if a <? b then b
  else if b <? a then a
  else if get_sign a then b else a.

Definition min (a b : float) : float :=
  if is_nan a || is_nan b then nan
  else if a <? b then a
  else if b <? a then b
  else if get_sign a then a else b.

(** [n % d]: the remainder of the truncating division, with the sign of the
    dividend; it is computed exactly. *)
Definition remainder (n d : float) : float :=
  match Prim2SF n, Prim2SF d with
  | S754_nan, _ | _, S754_nan => nan
  | S754_infinity _, _ => nan
  | _, S754_zero _ => nan
  | _, S754_infinity _ => n
  | S754_zero _, _ => n
  | S754_finite sn mn en, S754_finite _ md ed =>
      let e := Z.min en ed in
      let N := (Zpos mn * 2 ^ (en - e))%Z in
      let D := (Zpos md * 2 ^ (ed - e))%Z in
      SF2Prim (binary_normalize prec emax (cond_Zopp sn (N mod D)) e sn)
  end.

End F64.

(** The three functions of [Math] whose values the language does not fix. *)
Record HostMath : Type := {
  host_sin : float -> float;
  host_cos : float -> float;
  host_asin : float -> float
}.

#[export] Instance Float64 (M : HostMath) : Number float := {
  lit := F64.literal;
  int := F64.ofZ;
  NaN := nan;
  nadd := PrimFloat.add;
  nsub := PrimFloat.sub;
  nmul := PrimFloat.mul;
  ndiv := PrimFloat.div;
  nrem := F64.remainder;
  nlt := PrimFloat.ltb;
  nle := PrimFloat.leb;
  neq := PrimFloat.eqb;
  Number_isNaN := PrimFloat.is_nan;
  Number_isFinite := PrimFloat.is_finite;
  Math_PI := F64.PI;
  Math_sin := host_sin M;
  Math_cos := host_cos M;
  Math_asin := host_asin M;
  Math_floor := F64.floor;
  Math_round := F64.round;
  Math_max := F64.max;
  Math_min := F64.min
}.

(* ================================================================= *)
(** ** A reference host library

    ECMAScript fixes the special cases of [Math.sin], [Math.cos] and
    [Math.asin] and leaves their accuracy to the implementation.
    [RefMath] is one such implementation, by argument reduction and
    Taylor polynomials; it is used to run the program on concrete inputs.
    The theorems below hold for every host library, or for every host
    library that meets a stated specification. *)

Module Ref.
Local Open Scope float_scope.

(** The integer a finite float truncates to (0 otherwise). *)
Definition truncZ (x : float) : Z :=
  match Prim2SF x with
  | S754_finite s m e =>
      cond_Zopp s (if (0 <=? e)%Z then Zpos m * 2 ^ e else Zpos m / 2 ^ (- e))%Z
  | _ => 0%Z
  end.

(** pi/2 in three parts, for the reduction [x - k * pi/2]. *)
Definition pio2_1 : float := 0x1.921fb544p+0.
Definition pio2_2 : float := 0x1.0b4611a6p-34.
Definition pio2_3 : float := 0x1.3198a2e037073p-69.

(** sin and cos on [-pi/4, pi/4]. *)
Definition sin_poly (r : float) : float :=
  let z := r * r in
  r * (1 + z * (-1/6 + z * (1/120 + z * (-1/5040 + z * (1/362880 +
       z * (-1/39916800 + z * (1/6227020800 + z * (-1/1307674368000)))))))).

Definition cos_poly (r : float) : float :=
  let z := r * r in
  1 + z * (-1/2 + z * (1/24 + z * (-1/720 + z * (1/40320 +
      z * (-1/3628800 + z * (1/479001600 + z * (-1/87178291200 +
      z * (1/20922789888000)))))))).

(** The quadrant [k mod 4] and the reduced argument. *)
Definition reduce (x : float) : Z * float :=
  let k := F64.round (x / F64.PI * 2) in
  let r := ((x - k * pio2_1) - k * pio2_2) - k * pio2_3 in
  ((truncZ k mod 4)%Z, r).

Definition sin (x : float) : float :=
  if negb (is_finite x) then nan
  else if is_zero x then x
  else
    let '(q, r) := reduce x in
    match q with
    | 0%Z => sin_poly r
    | 1%Z => cos_poly r
    | 2%Z => - sin_poly r
    | _ => - cos_poly r
    end.

Definition cos (x : float) : float :=
  if negb (is_finite x) then nan
  else
    let '(q, r) := reduce x in
    match q with
    | 0%Z => cos_poly r
    | 1%Z => - sin_poly r
    | 2%Z => - cos_poly r
    | _ => sin_poly r
    end.

(** The series of asin, [n] terms from the [k]-th on:
    [c_(k+1) = c_k * (2k+1)^2 / ((2k+2)(2k+3))]. *)
Fixpoint asin_series (n : nat) (k c p z : float) : float :=
  match n with
  | O => 0
  | S n' =>
      c * p +
      asin_series n' (k + 1)
        (c * ((2 * k + 1) * (2 * k + 1)) / ((2 * k + 2) * (2 * k + 3)))
        (p * z) z
  end.

Definition asin_small (x : float) : float :=
  asin_series 40 0 1 x (x * x).

Definition asin (x : float) : float :=
  if is_nan x || (1 <? PrimFloat.abs x) then nan
  else if PrimFloat.abs x <? 0x1p-27 then x
  else if PrimFloat.abs x <=? 0.5 then asin_small x
  else
    let a := F64.PI / 2 - 2 * asin_small (PrimFloat.sqrt ((1 - PrimFloat.abs x) / 2)) in
    if x <? 0 then - a else a.

End Ref.

Definition RefMath : HostMath := {|
  host_sin := Ref.sin;
  host_cos := Ref.cos;
  host_asin := Ref.asin
|}.

(* ================================================================= *)
(** ** Numbers as reals with NaN

    The reading of [getDayOfYear]'s integer arithmetic.  [None] is NaN: it
    absorbs every operation and fails every comparison.  Finite values are
    reals and arithmetic on them is exact.  There are no infinities and no
    signed zeros: a quotient by zero is NaN here. *)

Module XR.
Local Open Scope R_scope.

Abbreviation xreal := (option R).

Definition lift1 (f : R -> R) (x : xreal) : xreal :=
  match x with
  | Some a => Some (f a)
  | None => None
  end.

Definition lift2 (f : R -> R -> R) (x y : xreal) : xreal :=
  match x, y with
  | Some a, Some b => Some (f a b)
  | _, _ => None
  end.

Definition div (x y : xreal) : xreal :=
  match x, y with
  | Some a, Some b => if Req_dec_T b 0 then None else Some (a / b)
  | _, _ => None
  end.

Definition floor (a : R) : R := IZR (Int_part a).

(** The integer part towards zero. *)
Definition trunc (a : R) : R :=
  if Rle_dec 0 a then floor a else - floor (- a).

Definition remainder (x y : xreal) : xreal :=
  match x, y with
  | Some a, Some b =>
      if Req_dec_T b 0 then None else Some (a - b * trunc (a / b))
  | _, _ => None
  end.

Definition ltb (x y : xreal) : bool :=
  match x, y with
  | Some a, Some b => if Rlt_dec a b then true else false
  | _, _ => false
  end.

Definition leb (x y : xreal) : bool :=
  match x, y with
  | Some a, Some b => if Rle_dec a b then true else false
  | _, _ => false
  end.

Definition eqb (x y : xreal) : bool :=
  match x, y with
  | Some a, Some b => if Req_dec_T a b then true else false
  | _, _ => false
  end.

Definition isNaN (x : xreal) : bool :=
  match x with
  | Some _ => false
  | None => true
  end.

Definition asin (x : xreal) : xreal :=
  match x with
  | Some a =>
      if Rle_dec (-1) a then
        if Rle_dec a 1 then Some (Ratan.asin a) else None
      else None
  | None => None
  end.

End XR.

#[export] Instance Exact : Number XR.xreal := {
  lit := fun q => Some (Q2R q);
  int := fun z => Some (IZR z);
  NaN := None;
  nadd := XR.lift2 Rplus;
  nsub := XR.lift2 Rminus;
  nmul := XR.lift2 Rmult;
  ndiv := XR.div;
  nrem := XR.remainder;
  nlt := XR.ltb;
  nle := XR.leb;
  neq := XR.eqb;
  Number_isNaN := XR.isNaN;
  Number_isFinite := fun x => negb (XR.isNaN x);
  Math_PI := Some Rtrigo1.PI;
  Math_sin := XR.lift1 Rtrigo_def.sin;
  Math_cos := XR.lift1 Rtrigo_def.cos;
  Math_asin := XR.asin;
  Math_floor := XR.lift1 XR.floor;
  Math_round := XR.lift1 (fun a => XR.floor (a + / 2));
  Math_max := XR.lift2 Rmax;
  Math_min := XR.lift2 Rmin
}.

(* ================================================================= *)
(** ** Vocabulary of the statements *)

(** [lo <= x <= hi] on binary64; it fails for NaN. *)
Definition inRange (lo hi x : float) : Prop :=
  (lo <=? x)%float = true /\ (x <=? hi)%float = true.

(** The constraint on a panel area: finite and [>= 0]. *)
Definition validArea (area : float) : Prop :=
  is_finite area = true /\ (0 <=? area)%float = true.

(** What ECMAScript requires of every host: NaN in, NaN out. *)
Definition propagatesNaN (M : HostMath) : Prop :=
  host_sin M nan = nan /\ host_cos M nan = nan /\ host_asin M nan = nan.

(** A [Date] object that holds a time value. *)
Definition validInstant (d : DateArg) : Prop :=
  exists t : Z, d = DateObj (Some t).

(** The three guards of [computeSolarPotential], in source order. *)
Definition latitudeGuard {num : Type} {N : Number num} (lat : num) : bool :=
  Number_isNaN lat || (lat <? lit (-90))%num || (lat >? lit 90)%num.

Definition longitudeGuard {num : Type} {N : Number num} (lon : num) : bool :=
  Number_isNaN lon || (lon <? lit (-180))%num || (lon >? lit 180)%num.

Definition dateGuard {num : Type} {N : Number num} (date : DateArg) : bool :=
  negb (instanceofDate date) || Number_isNaN (getTime (timeValueOf date) : num).

(** Names for the intermediate values of [computeSolarPotential]: the
    declination from the day of the year, the hour angle, the clamped sine
    of the altitude, and the azimuth and irradiance of the day branch.
    [computeSolarPotential_unfold] below shows that the function is these,
    put together. *)
Section Intermediate.
Context {num : Type} {N : Number num}.
Local Open Scope num_scope.

Definition declinationOf (n : num) : num :=
  lit 23.45 * Math_sin (toRadians ((lit 360 / lit 365) * (n - lit 81))).

Definition hourAngleOf (lon : num) (date : TimeValue) (n : num) : num :=
  let hours :=
    ofInt (getUTCHours date) +
    ofInt (getUTCMinutes date) / lit 60 +
    ofInt (getUTCSeconds date) / lit 3600 in
  let lstm := lit 15 * Math_round (lon / lit 15) in
  let eqTime := lit 7.5 * Math_sin (toRadians ((lit 360 / lit 365) * (n - lit 81))) in
  let timeOffset := eqTime + lit 4 * (lon - lstm) in
  let solarTime := hours + timeOffset / lit 60 in
  lit 15 * (solarTime - lit 12).

Definition sinAltOf (lat decl ha : num) : num :=
  clamp
    (Math_sin (toRadians lat) * Math_sin (toRadians decl) +
     Math_cos (toRadians lat) * Math_cos (toRadians decl) * Math_cos (toRadians ha))
    (lit (-1))
    (lit 1).

Definition azimuthOf (decl ha altitude : num) : num :=
  let den := Math_cos (toRadians altitude) in
  let sinAz :=
    if den === lit 0 then lit 0
    else (Math_cos (toRadians decl) * Math_sin (toRadians ha)) / den in
  let sinAz := clamp sinAz (lit (-1)) (lit 1) in
  let azimuth := toDegrees (Math_asin sinAz) in
  let azimuth :=
    if ha >? lit 0 then lit 180 - azimuth else lit 180 + azimuth in
  (azimuth + lit 360) mod lit 360.

Definition positionOf (lat lon : num) (date : TimeValue) : SolarPosition num :=
  let n := getDayOfYear date in
  let decl := declinationOf n in
  let ha := hourAngleOf lon date n in
  let sinAlt := sinAltOf lat decl ha in
  let alt := toDegrees (Math_asin sinAlt) in
  {| declination := decl;
     hourAngle := ha;
     altitude := alt;
     azimuth := if alt >? lit 0 then azimuthOf decl ha alt else NaN;
     zenith := lit 90 - alt;
     irradiance :=
       if alt >? lit 0 then Math_max (lit 0) (lit 1367 * sinAlt) else lit 0 |}.

End Intermediate.

(** The instants of the test suite, as time values:
    2025-03-21T12:00:00Z and 2025-03-21T00:00:00Z. *)
Definition equinoxNoon : DateArg := DateObj (Some 1742558400000%Z).
Definition equinoxMidnight : DateArg := DateObj (Some 1742515200000%Z).

(** The earliest instant a [Date] can hold: [new Date(-8.64e15)], in the
    year -271821. *)
Definition earliestInstant : DateArg := DateObj (Some (- maxTime)%Z).

(* ================================================================= *)
(** ** Binary64 numbers as real numbers

    The vocabulary of the statements about rounding: the real number of a
    finite float, and what it means for a float to be the rounding of a
    real number.  The operations themselves are Rocq's primitive floats,
    specified by [SpecFloat]. *)

Module Dyadic.
Local Open Scope Z_scope.

(** [2^e] as a real number, for an exponent of either sign. *)
Definition bpow (e : Z) : R :=
  match e with
  | Z0 => 1%R
  | Zpos p => IZR (Z.pow_pos 2 p)
  | Zneg p => (/ IZR (Z.pow_pos 2 p))%R
  end.

(** A real [v] lies in the cell [[m 2^e, (m+1) 2^e)]; [exact] tells
    whether it is the lower end. *)
Definition inbetween (v : R) (m e : Z) (exact : bool) : Prop :=
  (IZR m * bpow e <= v < (IZR m + 1) * bpow e)%R
  /\ (exact = true <-> v = (IZR m * bpow e)%R).

Definition exact_of (mrs : shr_record) : bool :=
  negb (shr_r mrs) && negb (shr_s mrs).

Definition is_exact (l : location) : bool :=
  match l with
  | loc_Exact => true
  | _ => false
  end.

(** The real number a finite float stands for; 0 for the others. *)
Definition SF2R (x : spec_float) : R :=
  match x with
  | S754_finite s m e => (IZR (cond_Zopp s (Zpos m)) * bpow e)%R
  | _ => 0%R
  end.

Definition SFfinite (x : spec_float) : bool :=
  match x with
  | S754_zero _ | S754_finite _ _ _ => true
  | _ => false
  end.

(** The magnitude of a finite float. *)
Definition mag (m : positive) (e : Z) : R := (IZR (Zpos m) * bpow e)%R.

(** [r] is not NaN, and it is on the same side as [v] of every finite
    float: rounding never crosses a number of the format. *)
Definition RoundsSF (v : R) (r : spec_float) : Prop :=
  r <> S754_nan
  /\ forall c : spec_float,
       valid_binary c = true -> SFfinite c = true ->
       ((SF2R c <= v)%R -> SFleb c r = true)
       /\ ((v <= SF2R c)%R -> SFleb r c = true).

(** The outcome of rounding a magnitude [a > 0] with sign [s]. *)
Definition outcome (s : bool) (rv : R) (r : spec_float) : Prop :=
  match r with
  | S754_zero s' => s' = s /\ rv = 0%R
  | S754_finite s' m e => s' = s /\ rv = mag m e
  | S754_infinity s' => s' = s /\ (bpow 1024 <= rv)%R
  | S754_nan => False
  end.

(** The error of a rounding: below one unit in the last place of the
    binade of [v]. *)
Definition ErrSF (v : R) (r : spec_float) : Prop :=
  SFfinite r = true ->
  forall k : Z, (Rabs v < bpow k)%R ->
    (Rabs (SF2R r - v) <= bpow (fexp prec emax k))%R.

End Dyadic.

Module Binary64.
Import Dyadic.
Local Open Scope float_scope.

(** The real number of a finite binary64 (0 for NaN and the infinities). *)
Definition F2R (x : float) : R := SF2R (Prim2SF x).

(** [r] is the rounding of the real [v]: it is not NaN, it is on the same
    side as [v] of every finite float, and when it is finite it is within
    one unit in the last place of [v]. *)
Definition Rounds (v : R) (r : float) : Prop :=
  is_nan r = false
  /\ (forall c : float, is_finite c = true ->
        ((F2R c <= v)%R -> (c <=? r) = true)
        /\ ((v <= F2R c)%R -> (r <=? c) = true))
  /\ (is_finite r = true ->
      forall k : Z, (Rabs v < bpow k)%R ->
        (Rabs (F2R r - v) <= bpow (Z.max (k - 53) (-1074)))%R).

(** A finite float that is not a zero. *)
Definition is_nonzero (y : float) : Prop :=
  exists s m e, Prim2SF y = S754_finite s m e.

End Binary64.

(* ================================================================= *)
(** ** The host library the day branch relies on *)

(** What the program relies on in the host's [Math.sin], [Math.cos] and
    [Math.asin].  ECMAScript fixes their value at NaN and at the
    infinities and asks for an approximation elsewhere; every library in
    use keeps the sine and the cosine of a finite number within [-1, 1],
    gives the arcsine the sign of its argument, and keeps the arcsine of a
    number of [-1, 1] within a quarter turn, which [toDegrees] maps into
    [-90, 90] (it maps [Math.PI / 2] to 90). *)
Record HostSpec (M : HostMath) : Prop := {
  spec_sin_finite :
    forall x, is_finite x = true -> inRange (-1) 1 (host_sin M x);
  spec_cos_finite :
    forall x, is_finite x = true -> inRange (-1) 1 (host_cos M x);
  spec_sin_other :
    forall x, is_finite x = false -> is_nan (host_sin M x) = true;
  spec_cos_other :
    forall x, is_finite x = false -> is_nan (host_cos M x) = true;
  spec_asin_nan :
    forall x, is_nan x = true -> is_nan (host_asin M x) = true;
  spec_asin_sign :
    forall x, (0 <? host_asin M x)%float = true -> (0 <? x)%float = true;
  spec_asin_degrees :
    forall x, inRange (-1) 1 x ->
      inRange (-90) 90 (toDegrees (N := Float64 M) (host_asin M x))
}.

(** An arcsine [r] of [x] that [HostSpec] admits. *)
Definition admissible_asin (x r : float) : bool :=
  (implb (0 <? r) (0 <? x)
   && (-90 <=? (r * 180) / F64.PI) && ((r * 180) / F64.PI <=? 90))%float.

(** [M] made to meet [HostSpec]: the values of [M] wherever they are
    admissible, the nearest bound for a sine or cosine beyond [-1, 1], and
    0 for a NaN where a number is due or for an arcsine that is not
    admissible.  It shows that [HostSpec] can be met, and it runs the day
    branch on concrete inputs. *)
Definition withinSpec (M : HostMath) : HostMath := {|
  host_sin := fun x =>
    if is_finite x then
      (if is_nan (host_sin M x) then 0 else F64.max (-1) (F64.min 1 (host_sin M x)))%float
    else nan;
  host_cos := fun x =>
    if is_finite x then
      (if is_nan (host_cos M x) then 0 else F64.max (-1) (F64.min 1 (host_cos M x)))%float
    else nan;
  host_asin := fun x =>
    if (is_nan x || (x <? -1) || (1 <? x))%float then nan
    else if admissible_asin x (host_asin M x) then host_asin M x
    else 0%float
|}.


(* ================================================================= *)
(** ** The accuracy of the host library

    The values of a position depend on how closely the host's
    [Math.sin], [Math.cos] and [Math.asin] follow the mathematical
    functions.  [approximates r v]: the number [r] is finite and within
    2^-20 of the real number [v], a bound that the libraries in use meet
    with a wide margin. *)

Definition approximates (r : float) (v : R) : Prop :=
  is_finite r = true /\ (Rabs (Binary64.F2R r - v) <= Dyadic.bpow (-20))%R.

Section Accuracy.
Variable M : HostMath.
Local Hint Extern 0 (Number float) => exact (Float64 M) : typeclass_instances.
Local Open Scope num_scope.

(** The host library is accurate at the seven arguments that the altitude
    computation of [computeSolarPotential lat lon date] passes to it: the
    day angle of the declination, the latitude, the declination and the
    hour angle in radians, and the clamped sine of the altitude. *)
Definition accurateForAltitude (lat lon : float) (date : DateArg) : Prop :=
  let date := timeValueOf date in
  let n := getDayOfYear date in
  let dayAngle := toRadians ((lit 360 / lit 365) * (n - lit 81)) in
  let decl := declinationOf n in
  let ha := hourAngleOf lon date n in
  let latRad := toRadians lat in
  let declRad := toRadians decl in
  let haRad := toRadians ha in
  let sinAlt := sinAltOf lat decl ha in
  approximates (Math_sin dayAngle) (sin (Binary64.F2R dayAngle))
  /\ approximates (Math_sin latRad) (sin (Binary64.F2R latRad))
  /\ approximates (Math_cos latRad) (cos (Binary64.F2R latRad))
  /\ approximates (Math_sin declRad) (sin (Binary64.F2R declRad))
  /\ approximates (Math_cos declRad) (cos (Binary64.F2R declRad))
  /\ approximates (Math_cos haRad) (cos (Binary64.F2R haRad))
  /\ approximates (Math_asin sinAlt) (asin (Binary64.F2R sinAlt)).
End Accuracy.

(* ================================================================= *)
(** ** The shape of a call, for every reading of the numbers *)

Section Shape.
Context {num : Type} {N : Number num}.

(** A call throws at the first guard that holds and returns otherwise. *)
Lemma computeSolarPotential_cases (lat lon : num) (date : DateArg) :
  let r := computeSolarPotential lat lon date in
  (latitudeGuard lat = true /\ r = Throw "Latitude must be in [-90, 90].")
  \/ (latitudeGuard lat = false /\ longitudeGuard lon = true
      /\ r = Throw "Longitude must be in [-180, 180].")
  \/ (latitudeGuard lat = false /\ longitudeGuard lon = false
      /\ dateGuard (num := num) date = true /\ r = Throw "Invalid Date object.")
  \/ (latitudeGuard lat = false /\ longitudeGuard lon = false
      /\ dateGuard (num := num) date = false /\ exists pos, r = Return pos).
Proof.
  intros r. subst r. unfold computeSolarPotential.
  fold (latitudeGuard lat). fold (longitudeGuard lon). fold (dateGuard (num := num) date).
  destruct (latitudeGuard lat); [left; split; reflexivity|right].
  destruct (longitudeGuard lon); [left; repeat split; reflexivity|right].
  destruct (dateGuard date); [left; repeat split; reflexivity|right].
  repeat split. cbv zeta.
  match goal with
  | |- context [match (if ?c then _ else _) with pair _ _ => _ end] => destruct c
  end; eexists; reflexivity.
Qed.

Lemma computeSolarPotential_unfold (lat lon : num) (date : DateArg) :
  computeSolarPotential lat lon date =
  if latitudeGuard lat then Throw "Latitude must be in [-90, 90]."
  else if longitudeGuard lon then Throw "Longitude must be in [-180, 180]."
  else if dateGuard (num := num) date then Throw "Invalid Date object."
  else Return (positionOf lat lon (timeValueOf date)).
Proof.
  unfold computeSolarPotential.
  fold (latitudeGuard lat). fold (longitudeGuard lon).
  fold (dateGuard (num := num) date).
  destruct (latitudeGuard lat); [reflexivity|].
  destruct (longitudeGuard lon); [reflexivity|].
  destruct (dateGuard date); [reflexivity|].
  unfold positionOf, azimuthOf, sinAltOf, hourAngleOf, declinationOf.
  cbv zeta.
  match goal with
  | |- context [match (if ?c then _ else _) with pair _ _ => _ end] => destruct c
  end; reflexivity.
Qed.

Lemma computeSolarPotential_Return (lat lon : num) (date : DateArg)
  (pos : SolarPosition num) :
  computeSolarPotential lat lon date = Return pos ->
  latitudeGuard lat = false /\ longitudeGuard lon = false
  /\ dateGuard (num := num) date = false
  /\ pos = positionOf lat lon (timeValueOf date).
Proof.
  rewrite computeSolarPotential_unfold.
  destruct (latitudeGuard lat); [discriminate|].
  destruct (longitudeGuard lon); [discriminate|].
  destruct (dateGuard date); [discriminate|].
  intros H. inversion H. repeat split.
Qed.

End Shape.

(* ================================================================= *)
(** ** Facts about binary64 comparisons and conversions *)

Module FloatFacts.
Local Open Scope float_scope.

Lemma SFcompare_antisym (x y : spec_float) :
  SFcompare y x = option_map CompOpp (SFcompare x y).
Proof.
  destruct x as [sx|sx| |sx mx ex], y as [sy|sy| |sy my ey]; simpl;
    try reflexivity;
    try (destruct sx; reflexivity); try (destruct sy; reflexivity);
    try (destruct sx, sy; reflexivity).
  destruct sx, sy; simpl; try reflexivity;
    rewrite (Z.compare_antisym ex ey); destruct (ex ?= ey)%Z; simpl;
      try reflexivity;
      replace (Pos.compare_cont Eq my mx)
        with (CompOpp (Pos.compare_cont Eq mx my))
        by apply (Pos.compare_cont_antisym mx my Eq);
      try rewrite CompOpp_involutive; reflexivity.
Qed.

Lemma is_nan_Prim2SF (x : float) :
  is_nan x = match Prim2SF x with S754_nan => true | _ => false end.
Proof.
  unfold is_nan. rewrite eqb_spec. unfold SFeqb.
  destruct (Prim2SF x) as [s|s| |s m e]; simpl; try reflexivity.
  - destruct s; reflexivity.
  - destruct s; rewrite Z.compare_refl, Pos.compare_cont_refl; reflexivity.
Qed.

Lemma is_nan_false_iff (x : float) :
  is_nan x = false <-> Prim2SF x <> S754_nan.
Proof.
  rewrite is_nan_Prim2SF.
  destruct (Prim2SF x); split; intros; try discriminate; try reflexivity.
  congruence.
Qed.

(** [x < y] holds exactly when neither is NaN and [y <= x] fails. *)
Lemma ltb_negb_leb (x y : float) :
  (x <? y) = negb (is_nan x) && negb (is_nan y) && negb (y <=? x).
Proof.
  rewrite ltb_spec, leb_spec, !is_nan_Prim2SF.
  unfold SFltb, SFleb. rewrite (SFcompare_antisym (Prim2SF x) (Prim2SF y)).
  destruct (Prim2SF x) as [sx|sx| |sx mx ex], (Prim2SF y) as [sy|sy| |sy my ey];
    simpl; try reflexivity;
    try (destruct sx; reflexivity); try (destruct sy; reflexivity);
    try (destruct sx, sy; reflexivity).
  destruct sx, sy; simpl; try reflexivity;
    destruct (ex ?= ey)%Z; simpl; try reflexivity;
    destruct (Pos.compare_cont Eq mx my); reflexivity.
Qed.

Lemma leb_nan_l (x y : float) : is_nan x = true -> (x <=? y) = false.
Proof.
  rewrite is_nan_Prim2SF, leb_spec. unfold SFleb.
  destruct (Prim2SF x); try discriminate. reflexivity.
Qed.

Lemma leb_nan_r (x y : float) : is_nan y = true -> (x <=? y) = false.
Proof.
  rewrite is_nan_Prim2SF, leb_spec. unfold SFleb.
  destruct (Prim2SF y); try discriminate. destruct (Prim2SF x); reflexivity.
Qed.

Lemma leb_true_ltb_false (x y : float) : (x <=? y) = true -> (y <? x) = false.
Proof.
  intros H. rewrite ltb_negb_leb, H, andb_false_r. reflexivity.
Qed.

Lemma ltb_true_leb_false (x y : float) : (x <? y) = true -> (y <=? x) = false.
Proof.
  rewrite ltb_negb_leb. destruct (y <=? x); [|reflexivity].
  rewrite andb_false_r. discriminate.
Qed.

(** The guard [isNaN(x) || x < lo || x > hi] is the negation of
    [lo <= x <= hi]. *)
Lemma outside_guard (lo hi x : float) :
  is_nan lo = false -> is_nan hi = false ->
  is_nan x || (x <? lo) || (hi <? x) = negb ((lo <=? x) && (x <=? hi)).
Proof.
  intros Hlo Hhi. rewrite (ltb_negb_leb x lo), (ltb_negb_leb hi x), Hlo, Hhi.
  destruct (is_nan x) eqn:Hx; simpl.
  - rewrite (leb_nan_r lo x Hx). reflexivity.
  - destruct (lo <=? x), (x <=? hi); reflexivity.
Qed.

(** Rounding a nonnegative mantissa never yields NaN. *)
Lemma iter_pos_invariant {A : Type} (P : A -> Prop) (f : A -> A) :
  (forall x, P x -> P (f x)) ->
  forall n x, P x -> P (SpecFloat.iter_pos f n x).
Proof.
  intros Hf. induction n as [n IH|n IH|]; intros x Hx; simpl; auto.
Qed.

Lemma shr_1_nonneg (mrs : shr_record) :
  (0 <= shr_m mrs)%Z -> (0 <= shr_m (shr_1 mrs))%Z.
Proof.
  destruct mrs as [m r s]; simpl. destruct m as [|[p|p|]|p]; simpl; lia.
Qed.

Lemma shr_nonneg (mrs : shr_record) (e n : Z) :
  (0 <= shr_m mrs)%Z -> (0 <= shr_m (fst (shr mrs e n)))%Z.
Proof.
  intros Hm. unfold shr. destruct n; simpl; auto.
  apply (iter_pos_invariant (fun x => (0 <= shr_m x)%Z));
    auto using shr_1_nonneg.
Qed.

Lemma shr_fexp_nonneg (prec emax m e : Z) (l : location) :
  (0 <= m)%Z -> (0 <= shr_m (fst (shr_fexp prec emax m e l)))%Z.
Proof.
  intros Hm. unfold shr_fexp. apply shr_nonneg.
  destruct l as [|[]]; simpl; exact Hm.
Qed.

Lemma round_nearest_even_nonneg (m : Z) (l : location) :
  (0 <= m)%Z -> (0 <= round_nearest_even m l)%Z.
Proof.
  intros Hm. destruct l as [|[]]; simpl; try lia. destruct (Z.even m); lia.
Qed.

Lemma binary_round_aux_not_nan (prec emax : Z) (sx : bool) (mx ex : Z)
  (lx : location) :
  (0 <= mx)%Z -> binary_round_aux prec emax sx mx ex lx <> S754_nan.
Proof.
  intros Hm. unfold binary_round_aux.
  pose proof (shr_fexp_nonneg prec emax mx ex lx Hm) as H1.
  destruct (shr_fexp prec emax mx ex lx) as [mrs' e']. simpl in H1.
  pose proof (shr_fexp_nonneg prec emax _ e' loc_Exact
                (round_nearest_even_nonneg _ (loc_of_shr_record mrs') H1)) as H2.
  destruct (shr_fexp prec emax _ e' loc_Exact) as [mrs'' e'']. simpl in H2.
  destruct (shr_m mrs''); try lia; try discriminate.
  destruct (e'' <=? emax - prec)%Z; discriminate.
Qed.

Lemma binary_round_not_nan (prec emax : Z) (sx : bool) (mx : positive) (ex : Z) :
  binary_round prec emax sx mx ex <> S754_nan.
Proof.
  unfold binary_round. destruct (shl_align _ _ _) as [mz ez].
  apply binary_round_aux_not_nan. lia.
Qed.

Lemma binary_normalize_not_nan (prec emax m e : Z) (s : bool) :
  binary_normalize prec emax m e s <> S754_nan.
Proof.
  destruct m; simpl; try discriminate; apply binary_round_not_nan.
Qed.

Lemma SF2Prim_not_nan (x : spec_float) :
  x <> S754_nan -> is_nan (SF2Prim x) = false.
Proof.
  intros Hx. destruct x as [[]|[]| |s m e]; try reflexivity; try congruence.
  assert (Hl : is_nan (Z.ldexp (of_uint63 (Uint63.of_Z (Zpos m))) e) = false).
  { apply is_nan_false_iff. rewrite FloatLemmas.Z_ldexp_spec, of_uint63_spec.
    unfold SFldexp.
    pose proof (binary_normalize_not_nan prec emax
                  (Uint63.to_Z (Uint63.of_Z (Zpos m))) 0 false) as Hn.
    destruct (binary_normalize _ _ _ _ _); try congruence.
    apply binary_round_not_nan. }
  unfold SF2Prim. destruct s; [|exact Hl].
  apply is_nan_false_iff. rewrite opp_spec.
  apply is_nan_false_iff in Hl. destruct (Prim2SF _); simpl; congruence.
Qed.

(** The number of an integer is never NaN. *)
Lemma ofZ_not_nan (z : Z) : is_nan (F64.ofZ z) = false.
Proof.
  apply SF2Prim_not_nan, binary_normalize_not_nan.
Qed.

End FloatFacts.

(* ================================================================= *)
(** ** The program on binary64 *)

Section OnFloats.
Import FloatFacts.
Variable M : HostMath.
Local Hint Extern 0 (Number float) => exact (Float64 M) : typeclass_instances.
Local Open Scope float_scope.

Lemma inRange_andb (lo hi x : float) :
  inRange lo hi x <-> (lo <=? x) && (x <=? hi) = true.
Proof.
  unfold inRange. rewrite andb_true_iff. tauto.
Qed.

Lemma latitudeGuard_spec (lat : float) :
  latitudeGuard lat = false <-> inRange (-90) 90 lat.
Proof.
  change (latitudeGuard lat) with (is_nan lat || (lat <? -90) || (90 <? lat)).
  rewrite outside_guard by reflexivity. rewrite inRange_andb.
  destruct ((-90 <=? lat) && (lat <=? 90)); simpl; split; congruence.
Qed.

Lemma longitudeGuard_spec (lon : float) :
  longitudeGuard lon = false <-> inRange (-180) 180 lon.
Proof.
  change (longitudeGuard lon) with (is_nan lon || (lon <? -180) || (180 <? lon)).
  rewrite outside_guard by reflexivity. rewrite inRange_andb.
  destruct ((-180 <=? lon) && (lon <=? 180)); simpl; split; congruence.
Qed.

Lemma dateGuard_spec (date : DateArg) :
  dateGuard (num := float) date = false <-> validInstant date.
Proof.
  unfold validInstant. destruct date as [|[t|]].
  - split; [discriminate | intros [t Ht]; discriminate].
  - change (dateGuard (num := float) (DateObj (Some t)))
      with (is_nan (F64.ofZ t)).
    rewrite ofZ_not_nan. split; eauto.
  - split; [discriminate | intros [t Ht]; discriminate].
Qed.

(** C8. [computeSolarPotential] throws exactly when the latitude is outside
    [-90, 90], the longitude is outside [-180, 180] or the instant is not a
    Date with a time value; the message names the first constraint that
    failed, the message for the instant differs from both range messages,
    and a call that throws returns no position. *)
Theorem rejects_exactly_invalid_arguments (lat lon : float) (date : DateArg) :
  let r := computeSolarPotential lat lon date in
  (throws r = true <->
     ~ inRange (-90) 90 lat \/ ~ inRange (-180) 180 lon \/ ~ validInstant date)
  /\ (~ inRange (-90) 90 lat -> r = Throw "Latitude must be in [-90, 90].")
  /\ (inRange (-90) 90 lat -> ~ inRange (-180) 180 lon ->
      r = Throw "Longitude must be in [-180, 180].")
  /\ (inRange (-90) 90 lat -> inRange (-180) 180 lon -> ~ validInstant date ->
      r = Throw "Invalid Date object.")
  /\ (forall pos, r = Return pos -> throws r = false)
  /\ ("Invalid Date object." <> "Latitude must be in [-90, 90]."
      /\ "Invalid Date object." <> "Longitude must be in [-180, 180]."
      /\ "Latitude must be in [-90, 90]." <> "Longitude must be in [-180, 180].")%string.
Proof.
  intros r.
  pose proof (latitudeGuard_spec lat) as Hlat.
  pose proof (longitudeGuard_spec lon) as Hlon.
  pose proof (dateGuard_spec date) as Hdate.
  destruct (computeSolarPotential_cases lat lon date)
    as [[G1 E]|[(G1 & G2 & E)|[(G1 & G2 & G3 & E)|(G1 & G2 & G3 & pos & E)]]];
    fold r in E; rewrite E; simpl;
    repeat split; intros; try discriminate; try reflexivity;
    try (exfalso; intuition congruence); try (intuition congruence).
Qed.

(** C1. Whenever the altitude of the returned position is [<= 0], its
    irradiance is 0 and its azimuth is NaN. *)
Theorem night_has_no_irradiance_and_no_azimuth
  (lat lon : float) (date : DateArg) (pos : SolarPosition float) :
  computeSolarPotential lat lon date = Return pos ->
  (altitude pos <=? 0) = true ->
  irradiance pos = 0 /\ azimuth pos = nan.
Proof.
  intros Hret Hle.
  apply computeSolarPotential_Return in Hret.
  destruct Hret as (_ & _ & _ & ->).
  unfold positionOf in *. cbv zeta in *.
  cbn [altitude irradiance azimuth] in *.
  apply leb_true_ltb_false in Hle.
  match goal with
  | |- context [if ?c then _ else _] =>
      replace c with false by (symmetry; exact Hle)
  end.
  split; reflexivity.
Qed.

End OnFloats.

Lemma night_has_no_irradiance_and_no_azimuth_witness :
  exists pos,
    computeSolarPotential (N := Float64 RefMath) 0%float 0%float equinoxMidnight
      = Return pos
    /\ (altitude pos <=? 0)%float = true
    /\ irradiance pos = 0%float /\ azimuth pos = nan.
Proof.
  eexists. split; [vm_compute; reflexivity|].
  split; [vm_compute; reflexivity|].
  apply (night_has_no_irradiance_and_no_azimuth RefMath 0%float 0%float
           equinoxMidnight);
    vm_compute; reflexivity.
Defined.

Section EnergyOnFloats.
Import FloatFacts.
Variable M : HostMath.
Local Hint Extern 0 (Number float) => exact (Float64 M) : typeclass_instances.
Local Open Scope float_scope.

(** The guards of the two panel functions, from the constraints. *)
Lemma area_guard_false (area : float) :
  validArea area -> (area <? 0) || negb (is_finite area) = false.
Proof.
  intros [Hfin Hle]. rewrite (leb_true_ltb_false _ _ Hle), Hfin. reflexivity.
Qed.

Lemma unit_guard_false (x : float) :
  inRange 0 1 x -> (x <? 0) || (1 <? x) = false.
Proof.
  intros [H0 H1].
  rewrite (leb_true_ltb_false _ _ H0), (leb_true_ltb_false _ _ H1). reflexivity.
Qed.

(** C7. With every constraint met, [estimateEnergyProduced] returns
    area * efficiency * (averageIrradiance * periodHours / 1000) *
    performanceRatio; a call without the fifth argument is the call with
    0.75; and [estimateEnergyProduced(2, 0.2, 5000/24, 24, 0.8)] is 1.6 up to
    rounding. *)
Theorem energy_formula :
  (forall area efficiency averageIrradiance periodHours performanceRatio : float,
     validArea area -> inRange 0 1 efficiency ->
     (0 <=? averageIrradiance) = true -> inRange 0 1 performanceRatio ->
     (0 <? periodHours) = true ->
     estimateEnergyProduced area efficiency averageIrradiance periodHours
       (Some performanceRatio)
     = Return (area * efficiency * ((averageIrradiance * periodHours) / 1000)
               * performanceRatio))
  /\ (forall area efficiency averageIrradiance periodHours : float,
        estimateEnergyProduced area efficiency averageIrradiance periodHours None
        = estimateEnergyProduced area efficiency averageIrradiance periodHours
            (Some 0.75))
  /\ (exists kWh : float,
        estimateEnergyProduced 2 0.2 (5000 / 24) 24 (Some 0.8) = Return kWh
        /\ (PrimFloat.abs (kWh - 1.6) <? 1e-12) = true).
Proof.
  split; [|split].
  - intros area eff irr hours pr Harea Heff Hirr Hpr Hhours.
    unfold estimateEnergyProduced.
    change ((area <? lit 0)%num || negb (Number_isFinite area))
      with ((area <? 0) || negb (is_finite area)).
    change ((eff <? lit 0)%num || (eff >? lit 1)%num)
      with ((eff <? 0) || (1 <? eff)).
    change ((pr <? lit 0)%num || (pr >? lit 1)%num)
      with ((pr <? 0) || (1 <? pr)).
    change (irr <? lit 0)%num with (irr <? 0).
    change (hours <=? lit 0)%num with (hours <=? 0).
    rewrite (area_guard_false _ Harea), (unit_guard_false _ Heff),
      (unit_guard_false _ Hpr), (leb_true_ltb_false _ _ Hirr),
      (ltb_true_leb_false _ _ Hhours).
    reflexivity.
  - intros. reflexivity.
  - eexists. split; vm_compute; reflexivity.
Qed.

(** C5, at the inputs where the code departs from it: a NaN efficiency,
    average irradiance, period or performance ratio passes every guard and
    the call returns NaN, whereas a NaN area is rejected. *)
Theorem energy_guards_let_NaN_through :
  estimateEnergyProduced 2 nan 100 24 (Some 0.8) = Return nan
  /\ estimateEnergyProduced 2 0.2 nan 24 (Some 0.8) = Return nan
  /\ estimateEnergyProduced 2 0.2 100 nan (Some 0.8) = Return nan
  /\ estimateEnergyProduced 2 0.2 100 24 (Some nan) = Return nan
  /\ estimateEnergyProduced nan 0.2 100 24 (Some 0.8)
     = Throw "Panel area must be >= 0.".
Proof.
  repeat split; vm_compute; reflexivity.
Qed.

End EnergyOnFloats.

Lemma energy_formula_witness :
  (estimateEnergyProduced (N := Float64 RefMath) 2 0.2 100 24 (Some 0.8)
   = Return (2 * 0.2 * ((100 * 24) / 1000) * 0.8))%float.
Proof.
  apply (proj1 (energy_formula RefMath));
    repeat split; vm_compute; reflexivity.
Defined.

Section EarliestYear.
Import FloatFacts.
Variable M : HostMath.
Local Hint Extern 0 (Number float) => exact (Float64 M) : typeclass_instances.
Local Open Scope float_scope.

Lemma Prim2SF_nan (x : float) : Prim2SF x = S754_nan -> x = nan.
Proof.
  intros H. apply Prim2SF_inj. rewrite H. reflexivity.
Qed.

Lemma mul_nan_r (x : float) : x * nan = nan.
Proof.
  apply Prim2SF_nan. rewrite mul_spec.
  change (Prim2SF nan) with S754_nan. destruct (Prim2SF x); reflexivity.
Qed.

Lemma add_nan_l (x : float) : nan + x = nan.
Proof.
  apply Prim2SF_nan. rewrite add_spec.
  change (Prim2SF nan) with S754_nan. reflexivity.
Qed.

(** In the year -271821 the 31st of December before is not a time value,
    so the day of the year is NaN. *)
Lemma getDayOfYear_earliest : getDayOfYear (Some (- maxTime)%Z) = nan.
Proof.
  vm_compute. reflexivity.
Qed.

(** C9, at the input where the code departs from it: [new Date(-8.64e15)]
    is a valid instant, and for every latitude and longitude in range the
    call returns a position whose declination, hour angle, altitude and
    zenith are NaN: the clamp passes NaN on. *)
Theorem earliest_year_position_is_NaN (lat lon : float) :
  propagatesNaN M ->
  inRange (-90) 90 lat -> inRange (-180) 180 lon ->
  validInstant earliestInstant
  /\ computeSolarPotential lat lon earliestInstant
     = Return {| declination := nan; hourAngle := nan; altitude := nan;
                 azimuth := nan; zenith := nan; irradiance := 0 |}.
Proof.
  intros (Hsin & Hcos & Hasin) Hlat Hlon.
  split; [eexists; reflexivity|].
  unfold computeSolarPotential.
  fold (latitudeGuard lat). fold (longitudeGuard lon).
  rewrite (proj2 (latitudeGuard_spec M lat) Hlat).
  rewrite (proj2 (longitudeGuard_spec M lon) Hlon).
  change (timeValueOf earliestInstant) with (Some (- maxTime)%Z).
  change (negb (instanceofDate earliestInstant)
          || Number_isNaN (getTime (Some (- maxTime)%Z))) with false.
  cbv iota zeta. rewrite getDayOfYear_earliest.
  change (toRadians (lit 360 / lit 365 * (nan - lit 81))%num) with nan.
  change (@Math_sin float (Float64 M)) with (host_sin M).
  change (@Math_cos float (Float64 M)) with (host_cos M).
  change (@Math_asin float (Float64 M)) with (host_asin M).
  rewrite Hsin.
  change (toRadians (lit 23.45 * nan)%num) with nan.
  rewrite Hsin, Hcos.
  change (@nmul float (Float64 M)) with PrimFloat.mul.
  change (@nadd float (Float64 M)) with PrimFloat.add.
  rewrite !mul_nan_r, add_nan_l.
  change (clamp nan (lit (-1)) (lit 1)) with nan.
  rewrite Hasin.
  change (toDegrees nan) with nan.
  change (nlt (lit 0) nan) with false. cbv iota.
  change (lit 7.5 * nan) with nan. rewrite add_nan_l.
  reflexivity.
Qed.

End EarliestYear.

Lemma earliest_year_position_is_NaN_witness :
  validInstant earliestInstant
  /\ computeSolarPotential (N := Float64 RefMath) 0%float 0%float earliestInstant
     = Return {| declination := nan; hourAngle := nan; altitude := nan;
                 azimuth := nan; zenith := nan; irradiance := 0%float |}.
Proof.
  apply (earliest_year_position_is_NaN RefMath 0%float 0%float);
    repeat split; vm_compute; reflexivity.
Defined.

(* ================================================================= *)
(** ** Facts about the exact reading of the calendar arithmetic *)

Module ExactFacts.
Local Open Scope R_scope.

(** Literals of the source as real constants. *)
Ltac lit_R := unfold Q2R; cbn [Qnum Qden]; try lra.

Lemma div_Some (a b : R) : b <> 0 -> XR.div (Some a) (Some b) = Some (a / b).
Proof.
  intros Hb. unfold XR.div.
  destruct (Req_dec_T b 0); [contradiction|reflexivity].
Qed.

Lemma floor_unique (z : Z) (x : R) :
  IZR z <= x < IZR z + 1 -> XR.floor x = IZR z.
Proof.
  intros H. unfold XR.floor. f_equal. symmetry. apply Int_part_spec. lra.
Qed.

End ExactFacts.

(* ================================================================= *)
(** ** The calendar behind [getDayOfYear] *)

Section Calendar.
Local Open Scope Z_scope.

(** A year has 365 or 366 days. *)
Lemma DayFromYear_step (y : Z) :
  365 <= DayFromYear (y + 1) - DayFromYear y <= 366.
Proof.
  unfold DayFromYear.
  replace (y + 1 - 1970) with (y - 1970 + 1) by lia.
  replace (y + 1 - 1969) with (y - 1969 + 1) by lia.
  replace (y + 1 - 1901) with (y - 1901 + 1) by lia.
  replace (y + 1 - 1601) with (y - 1601 + 1) by lia.
  Z.div_mod_to_equations. lia.
Qed.

(** [YearFromTime] meets its specification in ECMAScript: the day of [t]
    lies in the year it returns. *)
Lemma YearFromTime_spec (t : Z) :
  DayFromYear (YearFromTime t) <= Day t < DayFromYear (YearFromTime t + 1).
Proof.
  unfold YearFromTime. cbv zeta.
  set (d := Day t).
  destruct (Z.ltb_spec d (DayFromYear (1970 + 400 * d / 146097))) as [H1|H1].
  - replace (1970 + 400 * d / 146097 - 1 + 1)
      with (1970 + 400 * d / 146097) by lia.
    split; [|lia]. clearbody d. clear H1.
    unfold DayFromYear. Z.div_mod_to_equations. lia.
  - destruct (Z.leb_spec (DayFromYear (1970 + 400 * d / 146097 + 1)) d)
      as [H2|H2].
    + split; [lia|]. clearbody d. clear H1 H2.
      unfold DayFromYear. Z.div_mod_to_equations. lia.
    + lia.
Qed.

Lemma YearFromTime_lower (t : Z) : - maxTime <= t -> -271821 <= YearFromTime t.
Proof.
  intros Ht. pose proof (YearFromTime_spec t) as [_ H].
  assert (Hd : -100000000 <= Day t).
  { unfold Day, msPerDay, maxTime in *. Z.div_mod_to_equations. lia. }
  set (y := YearFromTime t) in *. clearbody y.
  unfold DayFromYear in H. Z.div_mod_to_equations. lia.
Qed.

(** [Date.UTC(year, 0, 0)] is the midnight that starts the 31st of December
    before, when the year is not one of 0..99 and that midnight is a time
    value. *)
Lemma Date_UTC_year_start (y : Z) :
  ~ (0 <= y <= 99) ->
  Date_UTC (Some y) 0 0 = TimeClip (msPerDay * (DayFromYear y - 1)).
Proof.
  intros Hy. unfold Date_UTC, MakeFullYear.
  destruct ((0 <=? y) && (y <=? 99)) eqn:E.
  { apply andb_true_iff in E. destruct E as [E1 E2].
    apply Z.leb_le in E1. apply Z.leb_le in E2. lia. }
  f_equal. unfold MakeDate, MakeDay. cbn [Z.div Z.modulo Z.div_eucl].
  cbn [DaysBeforeMonth]. replace (y + 0) with y by lia.
  unfold msPerDay. lia.
Qed.

(** For a year in 0..99 it is the one of the year 1900 later. *)
Lemma Date_UTC_short_year (y : Z) :
  0 <= y <= 99 ->
  Date_UTC (Some y) 0 0 = Some (msPerDay * (DayFromYear (1900 + y) - 1)).
Proof.
  intros Hy. unfold Date_UTC, MakeFullYear.
  replace ((0 <=? y) && (y <=? 99)) with true
    by (symmetry; apply andb_true_iff; split; apply Z.leb_le; lia).
  unfold MakeDate, MakeDay. cbn [Z.div Z.modulo Z.div_eucl].
  cbn [DaysBeforeMonth]. replace (1900 + y + 0) with (1900 + y) by lia.
  unfold TimeClip.
  destruct (Z.ltb_spec maxTime
              (Z.abs ((DayFromYear (1900 + y) + 0 + 0 - 1) * msPerDay + 0)))
    as [H|H].
  - exfalso. unfold maxTime, msPerDay, DayFromYear in H.
    Z.div_mod_to_equations. lia.
  - f_equal. unfold msPerDay. lia.
Qed.

Lemma Date_UTC_earliest_year : Date_UTC (Some (-271821)) 0 0 = None.
Proof. reflexivity. Qed.

End Calendar.

(* ================================================================= *)
(** ** More facts about binary64: order and NaN *)

Module FloatOrder.
Import FloatFacts.
Local Open Scope float_scope.

Lemma ltb_leb (x y : float) : (x <? y) = true -> (x <=? y) = true.
Proof.
  rewrite ltb_spec, leb_spec. unfold SFltb, SFleb.
  destruct (SFcompare (Prim2SF x) (Prim2SF y)) as [[]|]; congruence.
Qed.

Lemma ltb_not_nan (x y : float) :
  (x <? y) = true -> is_nan x = false /\ is_nan y = false.
Proof.
  rewrite ltb_negb_leb. destruct (is_nan x), (is_nan y); simpl; auto; discriminate.
Qed.

Lemma leb_not_nan (x y : float) :
  (x <=? y) = true -> is_nan x = false /\ is_nan y = false.
Proof.
  intros H. destruct (is_nan x) eqn:Ex.
  - rewrite (leb_nan_l x y Ex) in H. discriminate.
  - destruct (is_nan y) eqn:Ey; [|auto].
    rewrite (leb_nan_r x y Ey) in H. discriminate.
Qed.

Lemma not_ltb_leb (x y : float) :
  is_nan x = false -> is_nan y = false -> (x <? y) = false -> (y <=? x) = true.
Proof.
  intros Hx Hy. rewrite ltb_negb_leb, Hx, Hy. simpl.
  destruct (y <=? x); [reflexivity|discriminate].
Qed.

Lemma eqb_leb_leb (x y : float) : (x =? y) = (x <=? y) && (y <=? x).
Proof.
  rewrite eqb_spec, !leb_spec. unfold SFeqb, SFleb.
  rewrite (SFcompare_antisym (Prim2SF x) (Prim2SF y)).
  destruct (SFcompare (Prim2SF x) (Prim2SF y)) as [[]|]; reflexivity.
Qed.

Lemma leb_refl (x : float) : is_nan x = false -> (x <=? x) = true.
Proof.
  unfold is_nan. rewrite eqb_leb_leb. destruct (x <=? x); [reflexivity|discriminate].
Qed.

Lemma min_cases (a b : float) :
  is_nan a = false -> is_nan b = false ->
  (F64.min a b = a /\ (a <=? b) = true) \/ (F64.min a b = b /\ (b <=? a) = true).
Proof.
  intros Ha Hb. unfold F64.min. rewrite Ha, Hb. cbn [orb].
  destruct (a <? b) eqn:E1; [left; auto using ltb_leb|].
  destruct (b <? a) eqn:E2; [right; auto using ltb_leb|].
  destruct (get_sign a); [left|right]; auto using not_ltb_leb.
Qed.

Lemma max_cases (a b : float) :
  is_nan a = false -> is_nan b = false ->
  (F64.max a b = a /\ (b <=? a) = true) \/ (F64.max a b = b /\ (a <=? b) = true).
Proof.
  intros Ha Hb. unfold F64.max. rewrite Ha, Hb. cbn [orb].
  destruct (a <? b) eqn:E1; [right; auto using ltb_leb|].
  destruct (b <? a) eqn:E2; [left; auto using ltb_leb|].
  destruct (get_sign a); [right|left]; auto using not_ltb_leb.
Qed.

Lemma SFleb_trans (x y z : spec_float) :
  SFleb x y = true -> SFleb y z = true -> SFleb x z = true.
Proof.
  unfold SFleb.
  destruct x as [sx|sx| |sx mx ex], y as [sy|sy| |sy my ey],
    z as [sz|sz| |sz mz ez]; simpl;
    try discriminate; try reflexivity;
    try (destruct sx; simpl; try discriminate; try reflexivity;
         destruct sy; simpl; try discriminate; try reflexivity;
         destruct sz; simpl; try discriminate; reflexivity);
    try (destruct sx, sy; simpl; try discriminate; reflexivity);
    try (destruct sx, sz; simpl; try discriminate; reflexivity);
    try (destruct sy, sz; simpl; try discriminate; reflexivity);
    try (destruct sx; simpl; try discriminate; reflexivity);
    try (destruct sy; simpl; try discriminate; reflexivity);
    try (destruct sz; simpl; try discriminate; reflexivity).
  all: change (Pos.compare_cont Eq) with Pos.compare.
  all: destruct sx, sy, sz; simpl; try discriminate; try reflexivity.
  all: destruct (Z.compare_spec ex ey), (Z.compare_spec ey ez),
         (Z.compare_spec ex ez); simpl; try discriminate; try reflexivity;
       try lia.
  all: subst.
  all: destruct (Pos.compare_spec mx my), (Pos.compare_spec my mz),
         (Pos.compare_spec mx mz); simpl; try discriminate; try reflexivity;
       try lia.
Qed.

Lemma leb_trans (x y z : float) :
  (x <=? y) = true -> (y <=? z) = true -> (x <=? z) = true.
Proof.
  rewrite !leb_spec. apply SFleb_trans.
Qed.


Lemma sub_nan_r (x : float) : x - nan = nan.
Proof.
  apply Prim2SF_nan. rewrite sub_spec.
  change (Prim2SF nan) with S754_nan. destruct (Prim2SF x); reflexivity.
Qed.

Lemma add_nan_r (x : float) : x + nan = nan.
Proof.
  apply Prim2SF_nan. rewrite add_spec.
  change (Prim2SF nan) with S754_nan. destruct (Prim2SF x); reflexivity.
Qed.

Lemma is_finite_not_nan (x : float) : is_finite x = true -> is_nan x = false.
Proof.
  unfold is_finite. destruct (is_nan x); [discriminate|reflexivity].
Qed.

Lemma ltb_false_iff (x y : float) :
  (x <? y) = false <-> (y <=? x) = true \/ is_nan x = true \/ is_nan y = true.
Proof.
  rewrite ltb_negb_leb.
  destruct (is_nan x) eqn:Ex, (is_nan y) eqn:Ey, (y <=? x) eqn:E; simpl;
    split; intros; auto; try discriminate;
    repeat match goal with H : _ \/ _ |- _ => destruct H end; discriminate.
Qed.

Lemma leb_false_iff (x y : float) :
  (x <=? y) = false <-> (y <? x) = true \/ is_nan x = true \/ is_nan y = true.
Proof.
  rewrite (ltb_negb_leb y x).
  destruct (is_nan x) eqn:Ex, (is_nan y) eqn:Ey; simpl.
  - rewrite (leb_nan_l x y Ex). tauto.
  - rewrite (leb_nan_l x y Ex). tauto.
  - rewrite (leb_nan_r x y Ey). tauto.
  - destruct (x <=? y); simpl; split; intros; auto; try discriminate;
      repeat match goal with H : _ \/ _ |- _ => destruct H end; discriminate.
Qed.

Lemma area_guard_iff (area : float) :
  (area <? 0) || negb (is_finite area) = false <-> validArea area.
Proof.
  unfold validArea. rewrite orb_false_iff, negb_false_iff, ltb_false_iff.
  split.
  - intros [[H|[H|H]] Hf]; [auto| |discriminate].
    rewrite (is_finite_not_nan _ Hf) in H. discriminate.
  - intros [Hf H]. auto.
Qed.

Lemma unit_guard_iff (x : float) :
  (x <? 0) || (1 <? x) = false <-> inRange 0 1 x \/ is_nan x = true.
Proof.
  unfold inRange. rewrite orb_false_iff, !ltb_false_iff.
  split.
  - intros [[H0|[H0|H0]] [H1|[H1|H1]]]; auto; discriminate.
  - intros [[H0 H1]|H]; auto.
Qed.

Lemma mul_nan_l (x : float) : nan * x = nan.
Proof.
  apply Prim2SF_nan. rewrite mul_spec.
  change (Prim2SF nan) with S754_nan. reflexivity.
Qed.

Lemma div_nan_l (x : float) : nan / x = nan.
Proof.
  apply Prim2SF_nan. rewrite div_spec.
  change (Prim2SF nan) with S754_nan. reflexivity.
Qed.

Lemma is_nan_true (x : float) : is_nan x = true -> x = nan.
Proof.
  rewrite is_nan_Prim2SF. intros H. apply Prim2SF_nan.
  destruct (Prim2SF x); try discriminate. reflexivity.
Qed.


End FloatOrder.

(* ================================================================= *)
(** ** [getDayOfYear] *)

Section DayOfYear.
Import ExactFacts FloatFacts FloatOrder.

(** The floor of the days between an instant and a midnight. *)
Lemma days_since (t k : Z) :
  XR.floor ((IZR t - IZR (msPerDay * k))
            / (Q2R 24 * Q2R 60 * Q2R 60 * Q2R 1000))%R
  = IZR (Day t - k).
Proof.
  apply floor_unique.
  replace (Q2R 24 * Q2R 60 * Q2R 60 * Q2R 1000)%R with 86400000%R by lit_R.
  pose proof (Z.div_mod t msPerDay ltac:(discriminate)) as Hdm.
  pose proof (Z.mod_pos_bound t msPerDay ltac:(reflexivity)) as [Hr0 Hr1].
  fold (Day t) in Hdm.
  set (r := (t mod msPerDay)%Z) in *. set (D := Day t) in *.
  rewrite Hdm. unfold msPerDay in *.
  rewrite minus_IZR, plus_IZR, !mult_IZR.
  apply IZR_le in Hr0. apply IZR_lt in Hr1.
  split.
  - apply Rmult_le_reg_r with 86400000%R; [lra|].
    unfold Rdiv. rewrite Rmult_assoc, Rinv_l by lra. lra.
  - apply Rmult_lt_reg_r with 86400000%R; [lra|].
    unfold Rdiv. rewrite Rmult_assoc, Rinv_l by lra. lra.
Qed.

Lemma getDayOfYear_from_start (t k : Z) :
  Date_UTC (getUTCFullYear (Some t)) 0 0 = Some (msPerDay * k)%Z ->
  getDayOfYear (Some t) = (Some (IZR (Day t - k)) : XR.xreal).
Proof.
  intros Hs. unfold getDayOfYear. cbv zeta. rewrite Hs.
  cbn [getTime ofInt int nsub nmul lit Exact XR.lift2].
  cbn [ndiv Exact]. rewrite div_Some by lit_R.
  cbn [Math_floor Exact XR.lift1]. f_equal. apply days_since.
Qed.

Local Open Scope Z_scope.

(** For an instant a [Date] can hold, in a year that is neither one of
    0..99 nor -271821, [getDayOfYear] is the 1-based ordinal of the UTC day
    within its year, between 1 and 366 (exact arithmetic). *)
Theorem getDayOfYear_is_ordinal (t : Z) :
  Z.abs t <= maxTime ->
  ~ (0 <= YearFromTime t <= 99) -> YearFromTime t <> -271821 ->
  exists n : Z,
    getDayOfYear (Some t) = (Some (IZR n) : XR.xreal)
    /\ n = Day t - DayFromYear (YearFromTime t) + 1
    /\ 1 <= n <= 366.
Proof.
  intros Ht Hy Hy0.
  pose proof (YearFromTime_spec t) as [Hs1 Hs2].
  pose proof (YearFromTime_lower t ltac:(lia)) as Hlow.
  pose proof (DayFromYear_step (YearFromTime t)) as Hstep.
  set (y := YearFromTime t) in *.
  exists (Day t - (DayFromYear y - 1)).
  split; [|split; [lia|lia]].
  apply getDayOfYear_from_start.
  cbn [getUTCFullYear option_map]. fold y.
  rewrite Date_UTC_year_start by exact Hy.
  unfold TimeClip.
  destruct (Z.ltb_spec maxTime (Z.abs (msPerDay * (DayFromYear y - 1))))
    as [H|H]; [exfalso|reflexivity].
  assert (Hd : msPerDay * Day t <= t).
  { unfold Day, msPerDay. Z.div_mod_to_equations. lia. }
  assert (Hl : -99999745 <= DayFromYear y).
  { clear - Hlow Hy0. clearbody y. unfold DayFromYear.
    Z.div_mod_to_equations. lia. }
  unfold maxTime, msPerDay in *. lia.
Qed.

(** For an instant in one of the years 0..99, [Date.UTC] reads the year as
    1900 later, and [getDayOfYear] counts from the end of 1899 + year: the
    result is below -693000, not a day of the year (exact arithmetic). *)
Theorem getDayOfYear_short_years (t : Z) :
  0 <= YearFromTime t <= 99 ->
  exists n : Z,
    getDayOfYear (Some t) = (Some (IZR n) : XR.xreal)
    /\ n = Day t - DayFromYear (1900 + YearFromTime t) + 1
    /\ n <= -693000.
Proof.
  intros Hy.
  pose proof (YearFromTime_spec t) as [Hs1 Hs2].
  set (y := YearFromTime t) in *.
  exists (Day t - (DayFromYear (1900 + y) - 1)).
  split; [|split; [lia|]].
  - apply getDayOfYear_from_start.
    cbn [getUTCFullYear option_map]. fold y.
    apply Date_UTC_short_year. exact Hy.
  - clearbody y. unfold DayFromYear in *. Z.div_mod_to_equations. lia.
Qed.

(** For an instant in the year -271821 the 31st of December before is not
    a time value, and [getDayOfYear] is NaN: in exact arithmetic and on
    binary64. *)
Theorem getDayOfYear_earliest_year (t : Z) :
  YearFromTime t = -271821 ->
  getDayOfYear (Some t) = (None : XR.xreal)
  /\ forall M : HostMath, getDayOfYear (N := Float64 M) (Some t) = nan.
Proof.
  intros Hy. split.
  - unfold getDayOfYear. cbv zeta. cbn [getUTCFullYear option_map].
    rewrite Hy, Date_UTC_earliest_year. reflexivity.
  - intros M. unfold getDayOfYear. cbv zeta. cbn [getUTCFullYear option_map].
    rewrite Hy, Date_UTC_earliest_year.
    cbn [getTime ofInt int NaN Float64 nsub].
    rewrite sub_nan_r. reflexivity.
Qed.

End DayOfYear.

Lemma getDayOfYear_is_ordinal_witness :
  exists n : Z,
    getDayOfYear (Some 1742558400000%Z) = (Some (IZR n) : XR.xreal)
    /\ n = (Day 1742558400000
            - DayFromYear (YearFromTime 1742558400000) + 1)%Z
    /\ (1 <= n <= 366)%Z.
Proof.
  apply (getDayOfYear_is_ordinal 1742558400000).
  - vm_compute. discriminate.
  - vm_compute. intros [_ H]. apply H. reflexivity.
  - vm_compute. discriminate.
Defined.

Lemma getDayOfYear_short_years_witness :
  exists n : Z,
    getDayOfYear (Some (-60000000000000)%Z) = (Some (IZR n) : XR.xreal)
    /\ n = (Day (-60000000000000)
            - DayFromYear (1900 + YearFromTime (-60000000000000)) + 1)%Z
    /\ (n <= -693000)%Z.
Proof.
  apply (getDayOfYear_short_years (-60000000000000)).
  vm_compute. split; discriminate.
Defined.

Lemma getDayOfYear_earliest_year_witness :
  getDayOfYear (Some (- maxTime)%Z) = (None : XR.xreal)
  /\ forall M : HostMath,
       getDayOfYear (N := Float64 M) (Some (- maxTime)%Z) = nan.
Proof.
  apply (getDayOfYear_earliest_year (- maxTime)). vm_compute. reflexivity.
Defined.

(* ================================================================= *)
(** ** More of the program on binary64 *)

Section ClampOnFloats.
Import FloatFacts FloatOrder.
Local Open Scope float_scope.
Variable M : HostMath.
Local Hint Extern 0 (Number float) => exact (Float64 M) : typeclass_instances.

(** [clamp] on binary64, for bounds [lo <= hi]: NaN passes through; any
    other value ends within the bounds; a value within the bounds is
    returned as it is (up to the sign of a zero). *)
Theorem clamp_on_binary64 (v lo hi : float) :
  (lo <=? hi) = true ->
  (is_nan v = true -> clamp v lo hi = nan)
  /\ (is_nan v = false ->
      (lo <=? clamp v lo hi) = true /\ (clamp v lo hi <=? hi) = true)
  /\ ((lo <=? v) = true -> (v <=? hi) = true -> (clamp v lo hi =? v) = true).
Proof.
  intros Hlh. destruct (leb_not_nan _ _ Hlh) as [Hlo Hhi].
  change (clamp v lo hi) with (F64.max lo (F64.min hi v)).
  split; [|split].
  - intros Hv. unfold F64.min. rewrite Hv, orb_true_r.
    unfold F64.max. change (is_nan nan) with true. rewrite orb_true_r.
    reflexivity.
  - intros Hv.
    destruct (min_cases hi v Hhi Hv) as [[Em Hm]|[Em Hm]]; rewrite Em.
    + destruct (max_cases lo hi Hlo Hhi) as [[Ex Hx]|[Ex Hx]]; rewrite Ex;
        auto using leb_refl.
    + destruct (max_cases lo v Hlo Hv) as [[Ex Hx]|[Ex Hx]]; rewrite Ex;
        auto using leb_refl.
  - intros H1 H2. destruct (leb_not_nan _ _ H1) as [_ Hv].
    rewrite eqb_leb_leb.
    destruct (min_cases hi v Hhi Hv) as [[Em Hm]|[Em Hm]]; rewrite Em.
    + destruct (max_cases lo hi Hlo Hhi) as [[Ex Hx]|[Ex Hx]]; rewrite Ex.
      * rewrite H1, (leb_trans v hi lo H2 Hx). reflexivity.
      * rewrite Hm, H2. reflexivity.
    + destruct (max_cases lo v Hlo Hv) as [[Ex Hx]|[Ex Hx]]; rewrite Ex.
      * rewrite H1, Hx. reflexivity.
      * rewrite (leb_refl v Hv). reflexivity.
Qed.
End ClampOnFloats.

Section PanelOnFloats.
Import FloatFacts FloatOrder.
Local Open Scope float_scope.
Variable M : HostMath.
Local Hint Extern 0 (Number float) => exact (Float64 M) : typeclass_instances.

(** [computePanelPower] on binary64: an area that is negative, infinite or
    NaN is rejected first; then an efficiency below 0 or above 1; a NaN
    efficiency is not rejected. A call that passes returns 0 for a negative
    irradiance and the product otherwise (also for a NaN or infinite
    irradiance). *)
Theorem panel_power_on_binary64 (area efficiency irradiance : float) :
  let r := computePanelPower area efficiency irradiance in
  (~ validArea area -> r = Throw "Area must be >= 0.")
  /\ (validArea area -> is_nan efficiency = false ->
      ~ inRange 0 1 efficiency -> r = Throw "Efficiency in range 0–1.")
  /\ (validArea area -> inRange 0 1 efficiency \/ is_nan efficiency = true ->
      ((irradiance <? 0) = true -> r = Return 0)
      /\ ((irradiance <? 0) = false ->
          r = Return (area * efficiency * irradiance))).
Proof.
  intros r. subst r. unfold computePanelPower.
  change ((area <? lit 0)%num || negb (Number_isFinite area))
    with ((area <? 0) || negb (is_finite area)).
  change ((efficiency <? lit 0)%num || (efficiency >? lit 1)%num)
    with ((efficiency <? 0) || (1 <? efficiency)).
  change (irradiance <? lit 0)%num with (irradiance <? 0).
  pose proof (area_guard_iff area) as Ha.
  pose proof (unit_guard_iff efficiency) as He.
  destruct ((area <? 0) || negb (is_finite area)).
  - repeat split; intros; try reflexivity; exfalso;
      assert (true = false) by (apply Ha; assumption); discriminate.
  - destruct ((efficiency <? 0) || (1 <? efficiency)).
    + repeat split; intros; try reflexivity; exfalso.
      * tauto.
      * assert (true = false) by (apply He; assumption); discriminate.
      * assert (true = false) by (apply He; assumption); discriminate.
    + assert (Hv : validArea area) by (apply Ha; reflexivity).
      assert (Hu : inRange 0 1 efficiency \/ is_nan efficiency = true)
        by (apply He; reflexivity).
      repeat split; intros.
      * contradiction.
      * destruct Hu as [Hu|Hu]; [contradiction|congruence].
      * rewrite H1. reflexivity.
      * rewrite H1. reflexivity.
Qed.

(** [estimateEnergyProduced] on binary64: when the four arguments after
    the area are not NaN, the call throws exactly when a constraint is
    violated. *)
Theorem energy_rejects_exactly_violations
  (area efficiency averageIrradiance periodHours performanceRatio : float) :
  is_nan efficiency = false -> is_nan averageIrradiance = false ->
  is_nan periodHours = false -> is_nan performanceRatio = false ->
  throws (estimateEnergyProduced area efficiency averageIrradiance periodHours
            (Some performanceRatio)) = true
  <-> ~ validArea area \/ ~ inRange 0 1 efficiency
      \/ (0 <=? averageIrradiance) = false
      \/ ~ inRange 0 1 performanceRatio \/ (0 <? periodHours) = false.
Proof.
  intros Ne Ni Nh Np. unfold estimateEnergyProduced.
  change ((area <? lit 0)%num || negb (Number_isFinite area))
    with ((area <? 0) || negb (is_finite area)).
  change ((efficiency <? lit 0)%num || (efficiency >? lit 1)%num)
    with ((efficiency <? 0) || (1 <? efficiency)).
  change ((performanceRatio <? lit 0)%num || (performanceRatio >? lit 1)%num)
    with ((performanceRatio <? 0) || (1 <? performanceRatio)).
  change (averageIrradiance <? lit 0)%num with (averageIrradiance <? 0).
  change (periodHours <=? lit 0)%num with (periodHours <=? 0).
  pose proof (area_guard_iff area) as Ha.
  pose proof (unit_guard_iff efficiency) as He.
  pose proof (unit_guard_iff performanceRatio) as Hp.
  pose proof (ltb_false_iff averageIrradiance 0) as Hi.
  pose proof (leb_false_iff periodHours 0) as Hh.
  change (is_nan 0) with false in Hi, Hh.
  rewrite Ne in He. rewrite Np in Hp. rewrite Ni in Hi. rewrite Nh in Hh.
  destruct ((area <? 0) || negb (is_finite area)).
  { cbn [throws]. split; [intros _; left; intros Hv|reflexivity].
    assert (true = false) by (apply Ha; assumption). discriminate. }
  destruct ((efficiency <? 0) || (1 <? efficiency)).
  { cbn [throws]. split; [intros _; right; left; intros Hv|reflexivity].
    assert (true = false) by (apply He; auto). discriminate. }
  destruct (averageIrradiance <? 0).
  { cbn [throws]. split; [intros _; right; right; left|reflexivity].
    destruct (0 <=? averageIrradiance); [|reflexivity].
    assert (true = false) by (apply Hi; auto). discriminate. }
  destruct ((performanceRatio <? 0) || (1 <? performanceRatio)).
  { cbn [throws]. split; [intros _; right; right; right; left; intros Hv|reflexivity].
    assert (true = false) by (apply Hp; auto). discriminate. }
  destruct (periodHours <=? 0).
  { cbn [throws]. split; [intros _; right; right; right; right|reflexivity].
    destruct (0 <? periodHours); [|reflexivity].
    assert (true = false) by (apply Hh; auto). discriminate. }
  cbn [throws]. split; [discriminate|].
  intros [H|[H|[H|[H|H]]]]; exfalso.
  - apply H, Ha. reflexivity.
  - destruct (proj1 He eq_refl) as [H'|H']; [contradiction|discriminate].
  - destruct (proj1 Hi eq_refl) as [H'|[H'|H']]; congruence.
  - destruct (proj1 Hp eq_refl) as [H'|H']; [contradiction|discriminate].
  - destruct (proj1 Hh eq_refl) as [H'|[H'|H']]; congruence.
Qed.

(** [estimateEnergyProduced] on binary64: a NaN efficiency, average
    irradiance, period or performance ratio is not rejected; with the other
    arguments within their constraints the call returns NaN. *)
Theorem energy_lets_NaN_through
  (area efficiency averageIrradiance periodHours performanceRatio : float) :
  validArea area ->
  inRange 0 1 efficiency \/ is_nan efficiency = true ->
  (0 <=? averageIrradiance) = true \/ is_nan averageIrradiance = true ->
  inRange 0 1 performanceRatio \/ is_nan performanceRatio = true ->
  (0 <? periodHours) = true \/ is_nan periodHours = true ->
  is_nan efficiency || is_nan averageIrradiance
  || is_nan periodHours || is_nan performanceRatio = true ->
  estimateEnergyProduced area efficiency averageIrradiance periodHours
    (Some performanceRatio) = Return nan.
Proof.
  intros Ha He Hi Hp Hh Hn. unfold estimateEnergyProduced.
  change ((area <? lit 0)%num || negb (Number_isFinite area))
    with ((area <? 0) || negb (is_finite area)).
  change ((efficiency <? lit 0)%num || (efficiency >? lit 1)%num)
    with ((efficiency <? 0) || (1 <? efficiency)).
  change ((performanceRatio <? lit 0)%num || (performanceRatio >? lit 1)%num)
    with ((performanceRatio <? 0) || (1 <? performanceRatio)).
  change (averageIrradiance <? lit 0)%num with (averageIrradiance <? 0).
  change (periodHours <=? lit 0)%num with (periodHours <=? 0).
  rewrite (proj2 (area_guard_iff area) Ha).
  rewrite (proj2 (unit_guard_iff efficiency) He).
  rewrite (proj2 (unit_guard_iff performanceRatio) Hp).
  replace (averageIrradiance <? 0) with false
    by (symmetry; apply ltb_false_iff; tauto).
  replace (periodHours <=? 0) with false
    by (symmetry; apply leb_false_iff; tauto).
  f_equal.
  change (@nmul float (Float64 M)) with PrimFloat.mul.
  change (@ndiv float (Float64 M)) with PrimFloat.div.
  change (lit 1000) with 1000.
  repeat rewrite orb_true_iff in Hn.
  destruct Hn as [[[H|H]|H]|H]; apply is_nan_true in H; subst;
    rewrite ?mul_nan_r, ?mul_nan_l, ?div_nan_l, ?mul_nan_r, ?mul_nan_l;
    reflexivity.
Qed.

End PanelOnFloats.

Section EarliestYearOnFloats.
Variable M : HostMath.
Hypothesis HM : propagatesNaN M.
Local Hint Extern 0 (Number float) => exact (Float64 M) : typeclass_instances.
Import FloatFacts FloatOrder.
Local Open Scope float_scope.

Lemma declinationOf_nan : declinationOf nan = nan.
Proof.
  destruct HM as (Hsin & _). unfold declinationOf.
  change (toRadians (lit 360 / lit 365 * (nan - lit 81))%num) with nan.
  change (@Math_sin float (Float64 M)) with (host_sin M). rewrite Hsin.
  reflexivity.
Qed.

Lemma hourAngleOf_nan (lon : float) (date : TimeValue) :
  hourAngleOf lon date nan = nan.
Proof.
  destruct HM as (Hsin & _). unfold hourAngleOf. cbv zeta.
  change (toRadians (lit 360 / lit 365 * (nan - lit 81))%num) with nan.
  change (@Math_sin float (Float64 M)) with (host_sin M). rewrite Hsin.
  change (lit 7.5 * nan)%num with nan.
  change (@nmul float (Float64 M)) with PrimFloat.mul.
  change (@nadd float (Float64 M)) with PrimFloat.add.
  change (@nsub float (Float64 M)) with PrimFloat.sub.
  change (@ndiv float (Float64 M)) with PrimFloat.div.
  rewrite add_nan_l, div_nan_l, add_nan_r. reflexivity.
Qed.

Lemma sinAltOf_nan (lat : float) : sinAltOf lat nan nan = nan.
Proof.
  destruct HM as (Hsin & Hcos & _). unfold sinAltOf.
  change (toRadians nan) with nan.
  change (@Math_sin float (Float64 M)) with (host_sin M).
  change (@Math_cos float (Float64 M)) with (host_cos M).
  rewrite Hsin, Hcos.
  change (@nmul float (Float64 M)) with PrimFloat.mul.
  change (@nadd float (Float64 M)) with PrimFloat.add.
  rewrite !mul_nan_r, add_nan_l. reflexivity.
Qed.

(** On binary64, for a host library that maps NaN to NaN, every instant of
    the year -271821 and every latitude and longitude in range give a
    position whose declination, hour angle, altitude, azimuth and zenith
    are NaN, with irradiance 0. *)
Theorem earliest_year_positions_are_NaN (lat lon : float) (t : Z) :
  inRange (-90) 90 lat -> inRange (-180) 180 lon ->
  YearFromTime t = (-271821)%Z ->
  computeSolarPotential lat lon (DateObj (Some t))
  = Return {| declination := nan; hourAngle := nan; altitude := nan;
              azimuth := nan; zenith := nan; irradiance := 0 |}.
Proof.
  intros Hlat Hlon Hy.
  rewrite computeSolarPotential_unfold.
  rewrite (proj2 (latitudeGuard_spec M lat) Hlat).
  rewrite (proj2 (longitudeGuard_spec M lon) Hlon).
  rewrite (proj2 (dateGuard_spec M (DateObj (Some t))))
    by (exists t; reflexivity).
  cbn [timeValueOf]. unfold positionOf. cbv zeta.
  rewrite (proj2 (getDayOfYear_earliest_year t Hy) M).
  rewrite declinationOf_nan, hourAngleOf_nan, sinAltOf_nan.
  destruct HM as (_ & _ & Hasin).
  change (@Math_asin float (Float64 M)) with (host_asin M). rewrite Hasin.
  reflexivity.
Qed.

End EarliestYearOnFloats.

Lemma clamp_on_binary64_witness :
  (clamp (N := Float64 RefMath) nan (-1) 1 = nan
   /\ (-1 <=? clamp (N := Float64 RefMath) 3 (-1) 1) = true
   /\ (clamp (N := Float64 RefMath) 3 (-1) 1 <=? 1) = true
   /\ (clamp (N := Float64 RefMath) 0.5 (-1) 1 =? 0.5) = true)%float.
Proof.
  split; [|split; [|split]].
  - apply (proj1 (clamp_on_binary64 RefMath nan (-1) 1 eq_refl)). reflexivity.
  - apply (proj1 (proj2 (clamp_on_binary64 RefMath 3 (-1) 1 eq_refl))).
    reflexivity.
  - apply (proj1 (proj2 (clamp_on_binary64 RefMath 3 (-1) 1 eq_refl))).
    reflexivity.
  - apply (proj2 (proj2 (clamp_on_binary64 RefMath 0.5 (-1) 1 eq_refl)));
      reflexivity.
Defined.

Lemma panel_power_on_binary64_witness :
  (computePanelPower (N := Float64 RefMath) (-2) 0.2 1000
   = Throw "Area must be >= 0."
   /\ computePanelPower (N := Float64 RefMath) 2 1.1 1000
      = Throw "Efficiency in range 0–1."
   /\ computePanelPower (N := Float64 RefMath) 2 0.2 (-10) = Return 0
   /\ computePanelPower (N := Float64 RefMath) 2 nan 1000
      = Return (2 * nan * 1000))%float.
Proof.
  pose proof (panel_power_on_binary64 RefMath (-2) 0.2 1000) as H1.
  pose proof (panel_power_on_binary64 RefMath 2 1.1 1000) as H2.
  pose proof (panel_power_on_binary64 RefMath 2 0.2 (-10)) as H3.
  pose proof (panel_power_on_binary64 RefMath 2 nan 1000) as H4.
  cbv zeta in H1, H2, H3, H4.
  split; [|split; [|split]].
  - apply (proj1 H1). intros [_ H]. vm_compute in H. discriminate.
  - apply (proj1 (proj2 H2)).
    + split; reflexivity.
    + reflexivity.
    + intros [_ H]. vm_compute in H. discriminate.
  - apply (proj2 (proj2 H3)).
    + split; reflexivity.
    + left. split; reflexivity.
    + reflexivity.
  - apply (proj2 (proj2 H4)).
    + split; reflexivity.
    + right. reflexivity.
    + reflexivity.
Defined.

Lemma energy_rejects_exactly_violations_witness :
  (throws (estimateEnergyProduced (N := Float64 RefMath) 2 0.2 100 0
             (Some 0.8)) = true
   <-> ~ validArea 2 \/ ~ inRange 0 1 0.2 \/ (0 <=? 100) = false
       \/ ~ inRange 0 1 0.8 \/ (0 <? 0) = false)%float.
Proof.
  apply (energy_rejects_exactly_violations RefMath); reflexivity.
Defined.

Lemma energy_lets_NaN_through_witness :
  (estimateEnergyProduced (N := Float64 RefMath) 2 nan 100 24 (Some 0.8)
   = Return nan)%float.
Proof.
  apply (energy_lets_NaN_through RefMath).
  - split; reflexivity.
  - right. reflexivity.
  - left. reflexivity.
  - left. split; reflexivity.
  - left. reflexivity.
  - reflexivity.
Defined.

Lemma earliest_year_positions_are_NaN_witness :
  computeSolarPotential (N := Float64 RefMath) 0%float 0%float earliestInstant
  = Return {| declination := nan; hourAngle := nan; altitude := nan;
              azimuth := nan; zenith := nan; irradiance := 0%float |}.
Proof.
  apply (earliest_year_positions_are_NaN RefMath).
  - repeat split; vm_compute; reflexivity.
  - split; reflexivity.
  - split; reflexivity.
  - vm_compute. reflexivity.
Defined.

Section IrradianceSign.
Import FloatFacts FloatOrder.
Variable M : HostMath.
Local Hint Extern 0 (Number float) => exact (Float64 M) : typeclass_instances.
Local Open Scope float_scope.

Lemma max_zero_not_negative (x : float) : (F64.max 0 x <? 0) = false.
Proof.
  destruct (is_nan x) eqn:Hx.
  - unfold F64.max. rewrite Hx, orb_true_r. reflexivity.
  - destruct (max_cases 0 x eq_refl Hx) as [[E _]|[E H]]; rewrite E.
    + reflexivity.
    + apply leb_true_ltb_false. exact H.
Qed.

(** On binary64 and for every host library, the irradiance of a returned
    position is never negative (it is [>= 0] or NaN), and it is 0 whenever
    the altitude is not [> 0], a NaN altitude included. *)
Theorem irradiance_is_never_negative
  (lat lon : float) (date : DateArg) (pos : SolarPosition float) :
  computeSolarPotential lat lon date = Return pos ->
  (irradiance pos <? 0) = false
  /\ ((0 <? altitude pos) = false -> irradiance pos = 0 /\ azimuth pos = nan).
Proof.
  intros Hret.
  apply computeSolarPotential_Return in Hret.
  destruct Hret as (_ & _ & _ & ->).
  unfold positionOf. cbv zeta. cbn [altitude irradiance azimuth].
  set (alt := toDegrees _).
  change (nlt (lit 0) alt) with (0 <? alt).
  destruct (0 <? alt).
  - split; [apply max_zero_not_negative|discriminate].
  - split; [reflexivity|]. intros _. split; reflexivity.
Qed.

End IrradianceSign.

Lemma irradiance_is_never_negative_witness :
  exists pos,
    computeSolarPotential (N := Float64 RefMath) 0%float 0%float equinoxNoon
      = Return pos
    /\ (irradiance pos <? 0)%float = false.
Proof.
  eexists. split; [vm_compute; reflexivity|].
  apply (irradiance_is_never_negative RefMath 0%float 0%float equinoxNoon).
  vm_compute. reflexivity.
Defined.

(* ================================================================= *)
(** ** Rounding in binary64

    [SpecFloat] defines the operations of binary64 on mantissas and
    exponents.  The lemmas below read them on real numbers: the result of
    an operation is the exact result, rounded; a rounding crosses no number
    of the format and is within one unit in the last place. *)

Module DyadicFacts.
Import Dyadic.
Local Open Scope Z_scope.

Lemma bpow_powerRZ (e : Z) : bpow e = powerRZ 2 e.
Proof.
  destruct e as [|p|p]; unfold bpow, powerRZ; try reflexivity.
  - rewrite pow_IZR, positive_nat_Z. reflexivity.
  - rewrite pow_IZR, positive_nat_Z. reflexivity.
Qed.

Lemma bpow_add (a b : Z) : (bpow (a + b) = bpow a * bpow b)%R.
Proof.
  rewrite !bpow_powerRZ. apply powerRZ_add. lra.
Qed.

Lemma bpow_pos (e : Z) : (0 < bpow e)%R.
Proof.
  rewrite bpow_powerRZ. apply powerRZ_lt. lra.
Qed.

Lemma bpow_IZR (e : Z) : 0 <= e -> bpow e = IZR (2 ^ e).
Proof.
  destruct e as [|p|p]; intros He; try lia; reflexivity.
Qed.

Lemma bpow_ge_1 (e : Z) : 0 <= e -> (1 <= bpow e)%R.
Proof.
  intros He. rewrite bpow_IZR by exact He. apply IZR_le.
  pose proof (Z.pow_pos_nonneg 2 e). lia.
Qed.

Lemma bpow_le (a b : Z) : a <= b -> (bpow a <= bpow b)%R.
Proof.
  intros H. replace b with (a + (b - a)) by lia. rewrite bpow_add.
  pose proof (bpow_pos a). pose proof (bpow_ge_1 (b - a)).
  assert (1 <= bpow (b - a))%R by (apply H1; lia). nra.
Qed.

Lemma bpow_lt (a b : Z) : a < b -> (bpow a < bpow b)%R.
Proof.
  intros H. replace b with (a + 1 + (b - a - 1)) by lia. rewrite !bpow_add.
  pose proof (bpow_pos a).
  assert (1 <= bpow (b - a - 1))%R by (apply bpow_ge_1; lia).
  change (bpow 1) with 2%R. nra.
Qed.

Lemma bpow_succ (a : Z) : (bpow (a + 1) = 2 * bpow a)%R.
Proof.
  rewrite bpow_add. change (bpow 1) with 2%R. ring.
Qed.

(** The number of binary digits of a positive: [2^(d-1) <= p < 2^d]. *)
Lemma digits2_pos_bounds (p : positive) :
  2 ^ (Zpos (digits2_pos p) - 1) <= Zpos p < 2 ^ Zpos (digits2_pos p).
Proof.
  induction p as [p IH|p IH|]; simpl digits2_pos.
  - rewrite Pos2Z.inj_succ.
    replace (Z.succ (Zpos (digits2_pos p)) - 1) with (Zpos (digits2_pos p) - 1 + 1) by lia.
    rewrite Z.pow_succ_r by lia. rewrite Z.pow_add_r by lia.
    change (2 ^ 1) with 2. lia.
  - rewrite Pos2Z.inj_succ.
    replace (Z.succ (Zpos (digits2_pos p)) - 1) with (Zpos (digits2_pos p) - 1 + 1) by lia.
    rewrite Z.pow_succ_r by lia. rewrite Z.pow_add_r by lia.
    change (2 ^ 1) with 2. lia.
  - simpl. lia.
Qed.

Lemma Zdigits2_bounds (m : Z) :
  0 < m -> 2 ^ (Zdigits2 m - 1) <= m < 2 ^ Zdigits2 m.
Proof.
  destruct m as [|p|p]; intros Hm; try lia. apply digits2_pos_bounds.
Qed.

Lemma Zdigits2_pos (m : Z) : 0 < m -> 0 < Zdigits2 m.
Proof.
  destruct m; intros; simpl; lia.
Qed.

Lemma Zdigits2_nonneg (m : Z) : 0 <= Zdigits2 m.
Proof.
  destruct m; simpl; lia.
Qed.

(** The digits of [m] are determined by the powers of two around it. *)
Lemma Zdigits2_unique (m d : Z) :
  0 < m -> 2 ^ (d - 1) <= m < 2 ^ d -> Zdigits2 m = d.
Proof.
  intros Hm [Hlo Hhi].
  pose proof (Zdigits2_bounds m Hm) as [Dlo Dhi].
  pose proof (Zdigits2_pos m Hm) as Dpos.
  assert (Hd : 0 < d).
  { destruct (Z_lt_le_dec 0 d) as [|Hd0]; [assumption|].
    assert (2 ^ d <= 1).
    { destruct (Z.eq_dec d 0) as [->|]; [simpl; lia|].
      rewrite Z.pow_neg_r by lia. lia. }
    lia. }
  destruct (Z_lt_le_dec (Zdigits2 m) d) as [Hlt|Hge].
  - assert (2 ^ Zdigits2 m <= 2 ^ (d - 1)) by (apply Z.pow_le_mono_r; lia). lia.
  - destruct (Z_lt_le_dec d (Zdigits2 m)) as [Hgt|Hle]; [|lia].
    assert (2 ^ d <= 2 ^ (Zdigits2 m - 1)) by (apply Z.pow_le_mono_r; lia). lia.
Qed.

End DyadicFacts.

Module RoundingFacts.
Import Dyadic DyadicFacts.
Local Open Scope Z_scope.

Lemma fexp_eq (e : Z) : fexp prec emax e = Z.max (e - 53) (-1074).
Proof. reflexivity. Qed.

Lemma fexp_ge_emin (e : Z) : -1074 <= fexp prec emax e.
Proof. rewrite fexp_eq. lia. Qed.

Lemma fexp_mono (a b : Z) : a <= b -> fexp prec emax a <= fexp prec emax b.
Proof. rewrite !fexp_eq. lia. Qed.

Lemma exact_of_loc (m : Z) (l : location) :
  exact_of (shr_record_of_loc m l) = is_exact l
  /\ shr_m (shr_record_of_loc m l) = m.
Proof.
  destruct l as [|[]]; split; reflexivity.
Qed.

Lemma shr_1_spec (mrs : shr_record) :
  0 <= shr_m mrs ->
  shr_m (shr_1 mrs) = Z.div2 (shr_m mrs)
  /\ shr_r (shr_1 mrs) = Z.odd (shr_m mrs)
  /\ shr_s (shr_1 mrs) = shr_r mrs || shr_s mrs.
Proof.
  destruct mrs as [m r s]. simpl.
  destruct m as [|[p|p|]|p]; intros Hm; try lia; repeat split.
Qed.

Lemma inbetween_shr_1 (v : R) (mrs : shr_record) (e : Z) :
  0 <= shr_m mrs ->
  inbetween v (shr_m mrs) e (exact_of mrs) ->
  0 <= shr_m (shr_1 mrs)
  /\ inbetween v (shr_m (shr_1 mrs)) (e + 1) (exact_of (shr_1 mrs)).
Proof.
  intros Hm [[Hlo Hhi] Hex].
  destruct (shr_1_spec mrs Hm) as (Em & Er & Es).
  unfold exact_of in *. rewrite Em, Er, Es.
  pose proof (Z.div2_odd (shr_m mrs)) as Hdiv.
  set (q := Z.div2 (shr_m mrs)) in *.
  assert (Hq : 0 <= q) by (destruct (Z.odd (shr_m mrs)); unfold Z.b2z in Hdiv; lia).
  split; [exact Hq|]. unfold inbetween.
  rewrite bpow_succ. pose proof (bpow_pos e) as HB.
  set (B := bpow e) in *.
  assert (HmR : IZR (shr_m mrs) = (2 * IZR q + IZR (Z.b2z (Z.odd (shr_m mrs))))%R).
  { rewrite Hdiv at 1. rewrite plus_IZR, mult_IZR. reflexivity. }
  rewrite HmR in Hlo, Hhi, Hex.
  destruct (Z.odd (shr_m mrs)); unfold Z.b2z in *; cbn [negb andb] in *.
  - split; [split; nra|]. simpl. split; [discriminate|]. intros Hv. nra.
  - split; [split; nra|].
    destruct (shr_r mrs), (shr_s mrs); simpl in *;
      (split; [intros H; try discriminate; destruct Hex as [Hex _];
               specialize (Hex eq_refl); nra
              |intros Hv; try reflexivity; exfalso;
               destruct Hex as [_ Hex];
               assert (Hf : false = true) by (apply Hex; nra); discriminate]).
Qed.

Lemma inbetween_iter (v : R) (n : positive) :
  forall (mrs : shr_record) (e : Z),
    0 <= shr_m mrs ->
    inbetween v (shr_m mrs) e (exact_of mrs) ->
    0 <= shr_m (SpecFloat.iter_pos shr_1 n mrs)
    /\ inbetween v (shr_m (SpecFloat.iter_pos shr_1 n mrs)) (e + Zpos n)
         (exact_of (SpecFloat.iter_pos shr_1 n mrs)).
Proof.
  induction n as [n IH|n IH|]; intros mrs e Hm Hin; simpl SpecFloat.iter_pos.
  - destruct (inbetween_shr_1 v mrs e Hm Hin) as [H1 I1].
    destruct (IH _ _ H1 I1) as [H2 I2].
    destruct (IH _ _ H2 I2) as [H3 I3].
    split; [exact H3|].
    replace (e + Zpos n~1) with (e + 1 + Zpos n + Zpos n) by lia. exact I3.
  - destruct (IH _ _ Hm Hin) as [H2 I2].
    destruct (IH _ _ H2 I2) as [H3 I3].
    split; [exact H3|].
    replace (e + Zpos n~0) with (e + Zpos n + Zpos n) by lia. exact I3.
  - apply inbetween_shr_1; assumption.
Qed.

Lemma iter_shr_m (n : positive) :
  forall mrs : shr_record,
    0 <= shr_m mrs ->
    shr_m (SpecFloat.iter_pos shr_1 n mrs) = shr_m mrs / 2 ^ Zpos n.
Proof.
  assert (Hnn : forall k mrs, 0 <= shr_m mrs -> 0 <= shr_m mrs / 2 ^ Zpos k).
  { intros k mrs H. apply Z.div_pos; [exact H|]. apply Z.pow_pos_nonneg; lia. }
  induction n as [n IH|n IH|]; intros mrs Hm; simpl SpecFloat.iter_pos.
  - destruct (shr_1_spec mrs Hm) as (Em & _ & _).
    assert (H1 : 0 <= shr_m (shr_1 mrs)).
    { rewrite Em, Z.div2_div. apply Z.div_pos; lia. }
    rewrite IH by (rewrite IH by exact H1; apply Hnn; exact H1).
    rewrite IH by exact H1. rewrite Em, Z.div2_div.
    rewrite !Z.div_div by (try apply Z.pow_pos_nonneg; try apply Z.pow_nonzero; lia).
    f_equal. replace (Zpos n~1) with (1 + Zpos n + Zpos n) by lia.
    rewrite !Z.pow_add_r by lia. change (2 ^ 1) with 2. ring.
  - rewrite IH by (rewrite IH by exact Hm; apply Hnn; exact Hm).
    rewrite IH by exact Hm.
    rewrite !Z.div_div by (try apply Z.pow_pos_nonneg; try apply Z.pow_nonzero; lia).
    f_equal. replace (Zpos n~0) with (Zpos n + Zpos n) by lia.
    rewrite !Z.pow_add_r by lia. ring.
  - destruct (shr_1_spec mrs Hm) as (Em & _ & _).
    rewrite Em, Z.div2_div. reflexivity.
Qed.

(** The first shift of [binary_round_aux]: down to the exponent of the
    format. *)
Lemma shr_fexp_spec (m e : Z) (l : location) (v : R) :
  0 <= m ->
  inbetween v m e (is_exact l) ->
  e <= fexp prec emax (Zdigits2 m + e) ->
  let mrs := fst (shr_fexp prec emax m e l) in
  let e' := snd (shr_fexp prec emax m e l) in
  e' = fexp prec emax (Zdigits2 m + e)
  /\ 0 <= shr_m mrs
  /\ shr_m mrs = m / 2 ^ (e' - e)
  /\ inbetween v (shr_m mrs) e' (exact_of mrs).
Proof.
  intros Hm Hin Hn. unfold shr_fexp.
  set (f := fexp prec emax (Zdigits2 m + e)) in *.
  destruct (exact_of_loc m l) as [Hex Hsm].
  unfold shr. destruct (f - e) as [|p|p] eqn:Hd; try lia; simpl fst; simpl snd.
  - assert (f = e) by lia. subst f.
    rewrite Hsm, Hex. replace (e - e) with 0 by lia.
    rewrite Z.div_1_r. repeat split; try assumption; try lia; apply Hin.
  - assert (Hm0 : 0 <= shr_m (shr_record_of_loc m l)) by (rewrite Hsm; exact Hm).
    assert (Hin0 : inbetween v (shr_m (shr_record_of_loc m l)) e
                     (exact_of (shr_record_of_loc m l)))
      by (rewrite Hsm, Hex; exact Hin).
    destruct (inbetween_iter v p _ e Hm0 Hin0) as [H1 I1].
    rewrite (iter_shr_m p _ Hm0) in *. rewrite Hsm in *.
    replace (e + Zpos p - e) with (Zpos p) by lia.
    replace (e + Zpos p) with f in * by lia.
    repeat split; try assumption; try reflexivity; try apply I1.
Qed.

Lemma round_nearest_even_cases (mrs : shr_record) :
  let m2 := round_nearest_even (shr_m mrs) (loc_of_shr_record mrs) in
  (m2 = shr_m mrs \/ m2 = shr_m mrs + 1)
  /\ (exact_of mrs = true -> m2 = shr_m mrs).
Proof.
  destruct mrs as [m [] []]; simpl; unfold exact_of; simpl;
    try (destruct (Z.even m)); split; auto; discriminate.
Qed.

(** The second shift: nothing to do, unless rounding carried into a new
    binade. *)
Lemma shr_fexp_again (m2 e1 : Z) :
  0 <= m2 <= 2 ^ 53 -> -1074 <= e1 ->
  exists m3 e3,
    shr_m (fst (shr_fexp prec emax m2 e1 loc_Exact)) = m3
    /\ snd (shr_fexp prec emax m2 e1 loc_Exact) = e3
    /\ (IZR m3 * bpow e3 = IZR m2 * bpow e1)%R
    /\ 0 <= m3 < 2 ^ 53
    /\ (e3 = e1 \/ (e3 = e1 + 1 /\ m3 = 2 ^ 52)).
Proof.
  intros [H0 Hhi] He.
  destruct (Z.eq_dec m2 (2 ^ 53)) as [->|Hne].
  - exists (2 ^ 52), (e1 + 1). unfold shr_fexp.
    change (Zdigits2 (2 ^ 53)) with 54. rewrite fexp_eq.
    replace (Z.max (54 + e1 - 53) (-1074) - e1) with 1 by lia.
    simpl. repeat split; try lia.
    rewrite bpow_succ. change (2 ^ 52) with 4503599627370496.
    change (Z.pow_pos 2 52) with 4503599627370496.
    change (Z.pow_pos 2 53) with 9007199254740992.
    rewrite <- Rmult_assoc, <- mult_IZR. reflexivity.
  - exists m2, e1. unfold shr_fexp.
    assert (Hd : Zdigits2 m2 <= 53).
    { destruct (Z.eq_dec m2 0) as [->|Hz]; [simpl; lia|].
      pose proof (Zdigits2_bounds m2 ltac:(lia)) as [Dlo _].
      destruct (Z_lt_le_dec 53 (Zdigits2 m2)) as [Hgt|]; [|assumption].
      assert (2 ^ 53 <= 2 ^ (Zdigits2 m2 - 1)) by (apply Z.pow_le_mono_r; lia).
      lia. }
    rewrite fexp_eq.
    assert (Hn : Z.max (Zdigits2 m2 + e1 - 53) (-1074) - e1 <= 0) by lia.
    unfold shr.
    destruct (Z.max (Zdigits2 m2 + e1 - 53) (-1074) - e1) as [|p|p];
      try lia; simpl; repeat split; try lia; left; reflexivity.
Qed.

(** What [binary_round_aux] returns for a magnitude [v], in terms of the
    cell of the format that holds [v]: the lower end [m1 2^e1] or the
    upper end; the lower end when [v] is the lower end. *)
Lemma binary_round_aux_mag (sx : bool) (mx ex : Z) (lx : location) (v : R) :
  0 <= mx ->
  inbetween v mx ex (is_exact lx) ->
  ex <= fexp prec emax (Zdigits2 mx + ex) ->
  exists (m1 e1 : Z) (rv : R),
    e1 = fexp prec emax (Zdigits2 mx + ex)
    /\ 0 <= m1
    /\ (IZR m1 * bpow e1 <= v < (IZR m1 + 1) * bpow e1)%R
    /\ (e1 = -1074 \/ 2 ^ 52 <= m1)
    /\ (rv = (IZR m1 * bpow e1)%R \/ rv = ((IZR m1 + 1) * bpow e1)%R)
    /\ (v = (IZR m1 * bpow e1)%R -> rv = v)
    /\ match binary_round_aux prec emax sx mx ex lx with
       | S754_zero s => s = sx /\ rv = 0%R
       | S754_finite s m e => s = sx /\ rv = (IZR (Zpos m) * bpow e)%R
       | S754_infinity s => s = sx /\ (bpow 1024 <= rv)%R
       | S754_nan => False
       end.
Proof.
  intros Hm Hin Hn.
  pose proof (shr_fexp_spec mx ex lx v Hm Hin Hn) as Hs. cbv zeta in Hs.
  unfold binary_round_aux.
  destruct (shr_fexp prec emax mx ex lx) as [mrs e1]. simpl fst in Hs; simpl snd in Hs.
  destruct Hs as (He1 & Hm1 & Hdiv & [Hcell Hex]).
  set (m1 := shr_m mrs) in *.
  pose proof (round_nearest_even_cases mrs) as Hr. cbv zeta in Hr.
  fold m1 in Hr.
  set (m2 := round_nearest_even m1 (loc_of_shr_record mrs)) in *.
  destruct Hr as [Hm2 Hm2ex].
  (* the cell is on the grid of the format *)
  assert (Hd53 : m1 < 2 ^ 53 /\ (e1 = -1074 \/ 2 ^ 52 <= m1)).
  { rewrite fexp_eq in He1.
    destruct (Z.eq_dec mx 0) as [Hz|Hz].
    - subst mx. simpl in He1, Hn. rewrite fexp_eq in Hn. simpl in Hn.
      rewrite Hdiv. rewrite Z.div_0_l by (apply Z.pow_nonzero; lia).
      split; [lia|]. left. lia.
    - pose proof (Zdigits2_bounds mx ltac:(lia)) as [Dlo Dhi].
      pose proof (Zdigits2_pos mx ltac:(lia)) as Dpos.
      set (d := Zdigits2 mx) in *.
      rewrite fexp_eq in Hn.
      assert (Hsh : 0 <= e1 - ex) by lia.
      split.
      + rewrite Hdiv. apply Z.div_lt_upper_bound; [apply Z.pow_pos_nonneg; lia|].
        rewrite <- Z.pow_add_r by lia.
        assert (2 ^ d <= 2 ^ (e1 - ex + 53)) by (apply Z.pow_le_mono_r; lia).
        lia.
      + destruct (Z.eq_dec e1 (-1074)) as [|Hne]; [left; assumption|right].
        assert (He : e1 - ex = d - 53) by lia.
        rewrite Hdiv, He. apply Z.div_le_lower_bound; [apply Z.pow_pos_nonneg; lia|].
        rewrite <- Z.pow_add_r by lia.
        replace (d - 53 + 52) with (d - 1) by lia. exact Dlo. }
  destruct Hd53 as [Hlt53 Hgrid].
  assert (Hm2r : 0 <= m2 <= 2 ^ 53) by lia.
  assert (He1min : -1074 <= e1) by (rewrite He1; apply fexp_ge_emin).
  destruct (shr_fexp_again m2 e1 Hm2r He1min) as (m3 & e3 & E3 & E3' & Hval & Hm3 & Hcase).
  destruct (shr_fexp prec emax m2 e1 loc_Exact) as [mrs'' e''].
  simpl fst in E3; simpl snd in E3'. rewrite E3. subst e''.
  exists m1, e1, (IZR m2 * bpow e1)%R.
  split; [exact He1|]. split; [exact Hm1|]. split; [exact Hcell|].
  split; [exact Hgrid|].
  split.
  { destruct Hm2 as [->| ->]; [left; reflexivity|right].
    rewrite plus_IZR. reflexivity. }
  split.
  { intros Hv. rewrite Hm2ex; [symmetry; exact Hv|]. apply Hex. exact Hv. }
  destruct m3 as [|p|p]; try lia.
  - split; [reflexivity|]. rewrite <- Hval. simpl. ring.
  - destruct (e3 <=? emax - prec) eqn:Hov.
    + split; [reflexivity|]. symmetry. exact Hval.
    + split; [reflexivity|]. rewrite <- Hval.
      apply Z.leb_gt in Hov. change (emax - prec) with 971 in Hov.
      pose proof (bpow_pos e3) as HB.
      destruct Hcase as [->|[-> Hp]].
      * destruct Hgrid as [->|Hg]; [lia|].
        assert (Hle : (bpow 1024 <= bpow 52 * bpow e1)%R).
        { rewrite <- bpow_add. apply bpow_le. lia. }
        assert (Heq : IZR (Zpos p) = IZR m2)
          by (apply (Rmult_eq_reg_r (bpow e1)); [exact Hval|lra]).
        apply eq_IZR in Heq.
        assert (Hp52 : (bpow 52 <= IZR (Zpos p))%R).
        { rewrite bpow_IZR by lia. apply IZR_le. lia. }
        nra.
      * rewrite Hp.
        assert (Hle : (bpow 1024 <= bpow 52 * bpow (e1 + 1))%R).
        { rewrite <- bpow_add. apply bpow_le. lia. }
        rewrite <- (bpow_IZR 52) by lia. exact Hle.
Qed.

End RoundingFacts.

Module CanonicalFacts.
Import Dyadic DyadicFacts RoundingFacts.
Local Open Scope Z_scope.

Lemma mag_pos (m : positive) (e : Z) : (0 < mag m e)%R.
Proof.
  unfold mag. pose proof (bpow_pos e).
  assert (1 <= IZR (Zpos m))%R by (apply IZR_le; lia). nra.
Qed.

Lemma SF2R_finite (s : bool) (m : positive) (e : Z) :
  SF2R (S754_finite s m e) = (if s then - mag m e else mag m e)%R.
Proof.
  unfold SF2R, mag. destruct s; simpl cond_Zopp; [|reflexivity].
  change (Zneg m) with (- Zpos m). rewrite opp_IZR. ring.
Qed.

(** A mantissa and exponent of the format: at most 53 digits, and 53 of
    them unless the exponent is the smallest. *)
Lemma bounded_inv (m : positive) (e : Z) :
  SpecFloat.bounded prec emax m e = true ->
  -1074 <= e <= 971 /\ Zpos m < 2 ^ 53 /\ (e = -1074 \/ 2 ^ 52 <= Zpos m).
Proof.
  unfold SpecFloat.bounded, canonical_mantissa. rewrite andb_true_iff.
  intros [Hc He]. apply Z.eqb_eq in Hc. apply Z.leb_le in He.
  change (emax - prec) with 971 in He. rewrite fexp_eq in Hc.
  pose proof (digits2_pos_bounds m) as [Dlo Dhi].
  set (d := Zpos (digits2_pos m)) in *.
  assert (Hd : d <= 53) by lia.
  split; [lia|]. split.
  - assert (2 ^ d <= 2 ^ 53) by (apply Z.pow_le_mono_r; lia). lia.
  - destruct (Z.eq_dec e (-1074)) as [|Hne]; [left; assumption|right].
    assert (d = 53) by lia. subst d. rewrite H in Dlo. exact Dlo.
Qed.

Lemma bounded_lt_emax (m : positive) (e : Z) :
  SpecFloat.bounded prec emax m e = true -> (mag m e < bpow 1024)%R.
Proof.
  intros Hb. destruct (bounded_inv m e Hb) as (He & Hm & _).
  unfold mag. pose proof (bpow_pos e) as HB.
  assert (H1 : (IZR (Zpos m) < bpow 53)%R).
  { rewrite bpow_IZR by lia. apply IZR_lt. exact Hm. }
  assert (H2 : (bpow 53 * bpow e <= bpow 1024)%R).
  { rewrite <- bpow_add. apply bpow_le. lia. }
  nra.
Qed.

(** No float lies strictly inside a cell of the grid of the format. *)
Lemma grid_gap (m1 e1 : Z) (mc : positive) (ec : Z) :
  0 <= m1 -> -1074 <= e1 -> (e1 = -1074 \/ 2 ^ 52 <= m1) ->
  SpecFloat.bounded prec emax mc ec = true ->
  (mag mc ec <= IZR m1 * bpow e1 \/ (IZR m1 + 1) * bpow e1 <= mag mc ec)%R.
Proof.
  intros Hm1 He1 Hgrid Hb. destruct (bounded_inv mc ec Hb) as (Hec & Hmc & _).
  unfold mag. pose proof (bpow_pos e1) as HB1.
  destruct (Z_le_gt_dec e1 ec) as [Hle|Hgt].
  - replace ec with (e1 + (ec - e1)) by lia. rewrite bpow_add.
    rewrite (bpow_IZR (ec - e1)) by lia.
    set (K := Zpos mc * 2 ^ (ec - e1)).
    assert (HK : (IZR (Zpos mc) * (bpow e1 * IZR (2 ^ (ec - e1))) = IZR K * bpow e1)%R).
    { unfold K. rewrite mult_IZR. ring. }
    rewrite HK.
    destruct (Z_le_gt_dec K m1) as [Hk|Hk].
    + left. apply IZR_le in Hk. nra.
    + right. assert (Hk' : m1 + 1 <= K) by lia. apply IZR_le in Hk'.
      rewrite plus_IZR in Hk'. nra.
  - left. destruct Hgrid as [->|Hg]; [lia|].
    pose proof (bpow_pos ec) as HBc.
    assert (H1 : (IZR (Zpos mc) < bpow 53)%R).
    { rewrite bpow_IZR by lia. apply IZR_lt. exact Hmc. }
    assert (H2 : (bpow 53 * bpow ec <= bpow 52 * bpow e1)%R).
    { rewrite <- !bpow_add. apply bpow_le. lia. }
    assert (H3 : (bpow 52 <= IZR m1)%R).
    { rewrite bpow_IZR by lia. apply IZR_le. exact Hg. }
    nra.
Qed.

(** Magnitudes of floats compare as the format compares them. *)
Lemma mag_compare (m1 : positive) (e1 : Z) (m2 : positive) (e2 : Z) :
  SpecFloat.bounded prec emax m1 e1 = true -> SpecFloat.bounded prec emax m2 e2 = true ->
  match (match e1 ?= e2 with
         | Lt => Lt
         | Gt => Gt
         | Eq => Pos.compare_cont Eq m1 m2
         end) with
  | Lt => (mag m1 e1 < mag m2 e2)%R
  | Eq => mag m1 e1 = mag m2 e2
  | Gt => (mag m2 e2 < mag m1 e1)%R
  end.
Proof.
  intros H1 H2.
  assert (Hlt : forall ma ea mb eb,
             SpecFloat.bounded prec emax ma ea = true -> SpecFloat.bounded prec emax mb eb = true ->
             ea < eb -> (mag ma ea < mag mb eb)%R).
  { intros ma ea mb eb Ha Hb Hab.
    destruct (bounded_inv ma ea Ha) as (Hea & Hma & _).
    destruct (bounded_inv mb eb Hb) as (Heb & _ & Hgb).
    destruct Hgb as [->|Hg]; [lia|].
    unfold mag. pose proof (bpow_pos ea). pose proof (bpow_pos eb).
    assert (Ha1 : (IZR (Zpos ma) < bpow 53)%R).
    { rewrite bpow_IZR by lia. apply IZR_lt. exact Hma. }
    assert (Hb1 : (bpow 52 <= IZR (Zpos mb))%R).
    { rewrite bpow_IZR by lia. apply IZR_le. exact Hg. }
    assert (Hab1 : (bpow 53 * bpow ea <= bpow 52 * bpow eb)%R).
    { rewrite <- !bpow_add. apply bpow_le. lia. }
    nra. }
  destruct (Z.compare_spec e1 e2) as [He|He|He].
  - subst e2. change (Pos.compare_cont Eq m1 m2) with (Pos.compare m1 m2).
    unfold mag. pose proof (bpow_pos e1).
    destruct (Pos.compare_spec m1 m2) as [Hm|Hm|Hm].
    + subst m2. reflexivity.
    + assert (IZR (Zpos m1) < IZR (Zpos m2))%R by (apply IZR_lt; lia). nra.
    + assert (IZR (Zpos m2) < IZR (Zpos m1))%R by (apply IZR_lt; lia). nra.
  - apply Hlt; assumption.
  - apply Hlt; assumption.
Qed.

(** [SFcompare] on finite floats of the format is the order of the reals. *)
Lemma SFcompare_finite (x y : spec_float) :
  valid_binary x = true -> valid_binary y = true ->
  SFfinite x = true -> SFfinite y = true ->
  match SFcompare x y with
  | Some Lt => (SF2R x < SF2R y)%R
  | Some Eq => SF2R x = SF2R y
  | Some Gt => (SF2R y < SF2R x)%R
  | None => False
  end.
Proof.
  intros Vx Vy Fx Fy.
  destruct x as [sx|sx| |sx mx ex], y as [sy|sy| |sy my ey]; try discriminate.
  - reflexivity.
  - simpl SFcompare. rewrite SF2R_finite. pose proof (mag_pos my ey).
    destruct sy; simpl; lra.
  - simpl SFcompare. rewrite SF2R_finite. pose proof (mag_pos mx ex).
    destruct sx; simpl; lra.
  - simpl in Vx, Vy. pose proof (mag_compare mx ex my ey Vx Vy) as Hc.
    pose proof (mag_pos mx ex). pose proof (mag_pos my ey).
    rewrite !SF2R_finite. simpl SFcompare.
    destruct sx, sy; try lra.
    + destruct (ex ?= ey); [destruct (Pos.compare_cont Eq mx my)| |];
        simpl; lra.
    + destruct (ex ?= ey); [destruct (Pos.compare_cont Eq mx my)| |];
        simpl; lra.
Qed.

Lemma SFleb_finite (x y : spec_float) :
  valid_binary x = true -> valid_binary y = true ->
  SFfinite x = true -> SFfinite y = true ->
  (SFleb x y = true <-> (SF2R x <= SF2R y)%R).
Proof.
  intros Vx Vy Fx Fy. pose proof (SFcompare_finite x y Vx Vy Fx Fy) as H.
  unfold SFleb. destruct (SFcompare x y) as [[]|]; try contradiction;
    split; intros; try discriminate; try reflexivity; lra.
Qed.

Lemma SFltb_finite (x y : spec_float) :
  valid_binary x = true -> valid_binary y = true ->
  SFfinite x = true -> SFfinite y = true ->
  (SFltb x y = true <-> (SF2R x < SF2R y)%R).
Proof.
  intros Vx Vy Fx Fy. pose proof (SFcompare_finite x y Vx Vy Fx Fy) as H.
  unfold SFltb. destruct (SFcompare x y) as [[]|]; try contradiction;
    split; intros; try discriminate; try reflexivity; lra.
Qed.

(** ** What it means for a float to be the rounding of a real *)

Lemma RoundsSF_exact (v : R) (r : spec_float) :
  valid_binary r = true -> SFfinite r = true -> SF2R r = v ->
  RoundsSF v r.
Proof.
  intros Vr Fr <-. split; [destruct r; discriminate|].
  intros c Vc Fc. split; intros H.
  - apply SFleb_finite; assumption.
  - apply SFleb_finite; assumption.
Qed.

Lemma signed_rounds (s : bool) (a rv : R) (r : spec_float) :
  valid_binary r = true ->
  (0 < a)%R -> (0 <= rv)%R ->
  outcome s rv r ->
  (forall mc ec, SpecFloat.bounded prec emax mc ec = true ->
     ((mag mc ec <= a)%R -> (mag mc ec <= rv)%R)
     /\ ((a <= mag mc ec)%R -> (rv <= mag mc ec)%R)) ->
  RoundsSF (if s then - a else a)%R r.
Proof.
  intros Vr Ha Hrv Hout Hmono.
  split; [destruct r; try discriminate; contradiction|].
  intros c Vc Fc.
  destruct c as [sc|sc| |sc mc ec]; try discriminate.
  - (* c is a zero *)
    simpl SF2R. destruct r as [sr|sr| |sr mr er]; cbn [outcome] in Hout; try contradiction;
      destruct Hout as [-> Hv]; unfold SFleb; simpl;
      destruct s; split; intros H; try reflexivity; try lra.
  - unfold valid_binary in Vc. simpl in Vc. pose proof (mag_pos mc ec) as Hc.
    pose proof (bounded_lt_emax mc ec Vc) as Hcmax.
    destruct (Hmono mc ec Vc) as [Hlo Hhi].
    rewrite SF2R_finite.
    destruct r as [sr|sr| |sr mr er]; cbn [outcome] in Hout; try contradiction;
      destruct Hout as [-> Hv].
    + (* r is a zero *)
      subst rv.
      destruct s, sc; unfold SFleb; simpl; split; intros H;
        solve [ reflexivity | exfalso; lra
              | exfalso; assert (Hx := Hlo ltac:(lra)); lra
              | exfalso; assert (Hx := Hhi ltac:(lra)); lra ].
    + (* r is an infinity *)
      destruct s, sc; unfold SFleb; simpl; split; intros H;
        solve [ reflexivity | exfalso; lra
              | exfalso; assert (Hx := Hlo ltac:(lra)); lra
              | exfalso; assert (Hx := Hhi ltac:(lra)); lra ].
    + (* r is finite *)
      unfold valid_binary in Vr. simpl in Vr.
      pose proof (SFleb_finite (S754_finite sc mc ec) (S754_finite s mr er)
                    Vc Vr eq_refl eq_refl) as L1.
      pose proof (SFleb_finite (S754_finite s mr er) (S754_finite sc mc ec)
                    Vr Vc eq_refl eq_refl) as L2.
      rewrite !SF2R_finite in L1, L2. pose proof (mag_pos mr er) as Hr.
      subst rv.
      destruct s, sc; split; intros H; first [apply L1 | apply L2];
        solve [ lra
              | assert (Hx := Hlo ltac:(lra)); lra
              | assert (Hx := Hhi ltac:(lra)); lra ].
Qed.

End CanonicalFacts.

Module OperationFacts.
Import Dyadic DyadicFacts RoundingFacts CanonicalFacts.
Local Open Scope Z_scope.

Lemma ErrSF_exact (v : R) (r : spec_float) : SF2R r = v -> ErrSF v r.
Proof.
  intros <- _ k _. replace (SF2R r - SF2R r)%R with 0%R by ring.
  rewrite Rabs_R0. pose proof (bpow_pos (fexp prec emax k)). lra.
Qed.

Lemma signed_err (s : bool) (a rv : R) (r : spec_float) :
  (0 < a)%R -> (0 <= rv)%R ->
  outcome s rv r ->
  (forall k, (a < bpow k)%R -> (Rabs (rv - a) <= bpow (fexp prec emax k))%R) ->
  ErrSF (if s then - a else a)%R r.
Proof.
  intros Ha Hrv Hout Herr Fr k Hk.
  assert (Hak : (a < bpow k)%R).
  { destruct s; [rewrite Rabs_Ropp in Hk|]; rewrite Rabs_pos_eq in Hk; lra. }
  specialize (Herr k Hak).
  destruct r as [sr|sr| |sr mr er]; try discriminate; cbn [outcome] in Hout;
    destruct Hout as [-> Hv].
  - simpl SF2R. subst rv.
    destruct s.
    + replace (0 - - a)%R with (- (0 - a))%R by ring. rewrite Rabs_Ropp. exact Herr.
    + exact Herr.
  - rewrite SF2R_finite. subst rv. destruct s.
    + replace (- mag mr er - - a)%R with (- (mag mr er - a))%R by ring.
      rewrite Rabs_Ropp. exact Herr.
    + exact Herr.
Qed.

Lemma bpow_lt_inv (a b : Z) : (bpow a < bpow b)%R -> a < b.
Proof.
  intros H. destruct (Z_lt_le_dec a b) as [|Hle]; [assumption|].
  apply bpow_le in Hle. lra.
Qed.

(** [binary_round_aux] on a magnitude: the outcome, that it crosses no
    float, and its error. *)
Lemma round_aux_outcome (sx : bool) (mx ex : Z) (lx : location) (v : R) :
  0 <= mx ->
  inbetween v mx ex (is_exact lx) ->
  ex <= fexp prec emax (Zdigits2 mx + ex) ->
  exists rv : R,
    (0 <= rv)%R
    /\ outcome sx rv (binary_round_aux prec emax sx mx ex lx)
    /\ (forall mc ec, SpecFloat.bounded prec emax mc ec = true ->
          ((mag mc ec <= v)%R -> (mag mc ec <= rv)%R)
          /\ ((v <= mag mc ec)%R -> (rv <= mag mc ec)%R))
    /\ (forall k, (v < bpow k)%R ->
          (Rabs (rv - v) <= bpow (fexp prec emax k))%R).
Proof.
  intros Hm Hin Hn.
  destruct (binary_round_aux_mag sx mx ex lx v Hm Hin Hn)
    as (m1 & e1 & rv & He1 & Hm1 & [Hlo Hhi] & Hgrid & Hrv & Hexact & Hres).
  pose proof (bpow_pos e1) as HB.
  assert (Hm1R : (0 <= IZR m1)%R) by (apply IZR_le; exact Hm1).
  assert (Hrv0 : (0 <= rv)%R) by (destruct Hrv as [->| ->]; nra).
  assert (He1min : -1074 <= e1) by (rewrite He1; apply fexp_ge_emin).
  exists rv. split; [exact Hrv0|]. split.
  { unfold outcome. destruct (binary_round_aux prec emax sx mx ex lx);
      try contradiction; exact Hres. }
  split.
  - intros mc ec Hb.
    destruct (grid_gap m1 e1 mc ec Hm1 He1min Hgrid Hb) as [Hg|Hg]; split; intros H.
    + destruct Hrv as [->| ->]; nra.
    + assert (Hv : v = (IZR m1 * bpow e1)%R) by lra.
      rewrite (Hexact Hv). exact H.
    + lra.
    + destruct Hrv as [->| ->]; nra.
  - intros k Hk.
    assert (Hle : e1 <= fexp prec emax k).
    { rewrite He1. destruct (Z.eq_dec mx 0) as [->|Hz].
      - simpl Zdigits2 in *. rewrite !fexp_eq in *. lia.
      - apply fexp_mono.
        pose proof (Zdigits2_bounds mx ltac:(lia)) as [Dlo _].
        pose proof (Zdigits2_pos mx ltac:(lia)) as Dpos.
        destruct Hin as [[Hinlo _] _].
        assert (Hb : (bpow (Zdigits2 mx - 1 + ex) < bpow k)%R).
        { rewrite bpow_add. rewrite (bpow_IZR (Zdigits2 mx - 1)) by lia.
          apply IZR_le in Dlo. pose proof (bpow_pos ex). nra. }
        apply bpow_lt_inv in Hb. lia. }
    apply bpow_le in Hle.
    assert (Hd : (Rabs (rv - v) <= bpow e1)%R).
    { apply Rabs_le. destruct Hrv as [->| ->]; split; nra. }
    lra.
Qed.

(** Aligning a mantissa to a smaller exponent keeps the value. *)
Lemma iter_xO (d m : positive) :
  Zpos (Pos.iter xO m d) = Zpos m * 2 ^ Zpos d
  /\ Zpos (digits2_pos (Pos.iter xO m d)) = Zpos (digits2_pos m) + Zpos d.
Proof.
  induction d as [|d [IH1 IH2]] using Pos.peano_ind.
  - simpl. split; lia.
  - rewrite Pos.iter_succ. simpl digits2_pos. split.
    + rewrite Pos2Z.inj_xO, IH1, Pos2Z.inj_succ.
      rewrite Z.pow_succ_r by lia. ring.
    + rewrite !Pos2Z.inj_succ, IH2. lia.
Qed.

Lemma shl_align_spec (mx : positive) (ex ex' : Z) :
  let m' := fst (shl_align mx ex ex') in
  let e' := snd (shl_align mx ex ex') in
  e' = Z.min ex ex'
  /\ Zpos m' = Zpos mx * 2 ^ (ex - e')
  /\ Zpos (digits2_pos m') + e' = Zpos (digits2_pos mx) + ex.
Proof.
  unfold shl_align. destruct (ex' - ex) as [|d|d] eqn:Hd; simpl fst; simpl snd.
  - replace (ex - ex) with 0 by lia. simpl. repeat split; lia.
  - replace (ex - ex) with 0 by lia. simpl. repeat split; lia.
  - destruct (iter_xO d mx) as [H1 H2].
    replace (ex - ex') with (Zpos d) by lia. repeat split; lia.
Qed.

Lemma mag_shl (mx : positive) (ex ex' : Z) :
  mag (fst (shl_align mx ex ex')) (snd (shl_align mx ex ex')) = mag mx ex.
Proof.
  destruct (shl_align_spec mx ex ex') as (He & Hm & _). unfold mag.
  rewrite Hm, mult_IZR.
  set (e' := snd (shl_align mx ex ex')) in *.
  rewrite <- (bpow_IZR (ex - e')) by lia.
  rewrite Rmult_assoc, <- bpow_add. f_equal. f_equal. lia.
Qed.

(** [binary_round] on the magnitude [m 2^e]. *)
Lemma binary_round_outcome (s : bool) (m : positive) (e : Z) :
  exists rv : R,
    (0 <= rv)%R
    /\ outcome s rv (binary_round prec emax s m e)
    /\ (forall mc ec, SpecFloat.bounded prec emax mc ec = true ->
          ((mag mc ec <= mag m e)%R -> (mag mc ec <= rv)%R)
          /\ ((mag m e <= mag mc ec)%R -> (rv <= mag mc ec)%R))
    /\ (forall k, (mag m e < bpow k)%R ->
          (Rabs (rv - mag m e) <= bpow (fexp prec emax k))%R).
Proof.
  unfold binary_round.
  set (f := fexp prec emax (Zpos (digits2_pos m) + e)).
  pose proof (shl_align_spec m e f) as Hs. cbv zeta in Hs.
  pose proof (mag_shl m e f) as Hmag.
  destruct (shl_align m e f) as [mz ez]. simpl fst in *; simpl snd in *.
  destruct Hs as (Hez & Hmz & Hdig).
  rewrite <- Hmag.
  apply round_aux_outcome.
  - lia.
  - unfold inbetween, mag. simpl is_exact. pose proof (bpow_pos ez).
    split; [split; nra|]. split; reflexivity.
  - simpl Zdigits2. rewrite Hdig. fold f. lia.
Qed.

Lemma binary_normalize_pos (m : positive) (e : Z) (sz : bool) :
  binary_normalize prec emax (Zpos m) e sz = binary_round prec emax false m e.
Proof. reflexivity. Qed.

Lemma binary_normalize_neg (m : positive) (e : Z) (sz : bool) :
  binary_normalize prec emax (Zneg m) e sz = binary_round prec emax true m e.
Proof. reflexivity. Qed.

(** Rounding the number [S 2^e] of an integer [S]. *)
Lemma binary_normalize_rounds (S e : Z) (sz : bool) :
  valid_binary (binary_normalize prec emax S e sz) = true ->
  RoundsSF (IZR S * bpow e)%R (binary_normalize prec emax S e sz)
  /\ ErrSF (IZR S * bpow e)%R (binary_normalize prec emax S e sz).
Proof.
  intros Hv. destruct S as [|m|m].
  - simpl binary_normalize in *. rewrite Rmult_0_l.
    split; [apply RoundsSF_exact; reflexivity|apply ErrSF_exact; reflexivity].
  - rewrite binary_normalize_pos in *.
    destruct (binary_round_outcome false m e) as (rv & Hrv & Hout & Hmono & Herr).
    fold (mag m e). pose proof (mag_pos m e) as Hp. split.
    + exact (signed_rounds false (mag m e) rv _ Hv Hp Hrv Hout Hmono).
    + exact (signed_err false (mag m e) rv _ Hp Hrv Hout Herr).
  - rewrite binary_normalize_neg in *.
    destruct (binary_round_outcome true m e) as (rv & Hrv & Hout & Hmono & Herr).
    pose proof (mag_pos m e) as Hp.
    replace (IZR (Zneg m) * bpow e)%R with (- mag m e)%R
      by (unfold mag; change (Zneg m) with (- Zpos m); rewrite opp_IZR; ring).
    split.
    + exact (signed_rounds true (mag m e) rv _ Hv Hp Hrv Hout Hmono).
    + exact (signed_err true (mag m e) rv _ Hp Hrv Hout Herr).
Qed.

(** The aligned mantissas of an addition. *)
Lemma aligned_value (s : bool) (m : positive) (e ez : Z) :
  ez <= e ->
  (IZR (cond_Zopp s (Zpos (fst (shl_align m e ez)))) * bpow ez)%R
  = SF2R (S754_finite s m e).
Proof.
  intros Hle. destruct (shl_align_spec m e ez) as (He & Hm & _).
  pose proof (mag_shl m e ez) as Hmag. unfold mag in Hmag.
  replace (snd (shl_align m e ez)) with ez in * by lia.
  rewrite SF2R_finite. unfold mag.
  destruct s; simpl cond_Zopp.
  - change (Zneg (fst (shl_align m e ez))) with (- Zpos (fst (shl_align m e ez))).
    rewrite opp_IZR. lra.
  - exact Hmag.
Qed.

Lemma SFadd_rounds (x y : spec_float) :
  valid_binary x = true -> valid_binary y = true ->
  SFfinite x = true -> SFfinite y = true ->
  valid_binary (SF64add x y) = true ->
  RoundsSF (SF2R x + SF2R y)%R (SF64add x y)
  /\ ErrSF (SF2R x + SF2R y)%R (SF64add x y).
Proof.
  intros Vx Vy Fx Fy Vr. unfold SF64add in *.
  destruct x as [sx|sx| |sx mx ex], y as [sy|sy| |sy my ey]; try discriminate.
  - simpl SF2R. rewrite Rplus_0_l.
    split; [apply RoundsSF_exact|apply ErrSF_exact];
      try (destruct sx, sy; reflexivity).
  - simpl SFadd in *. rewrite (Rplus_0_l).
    split; [apply RoundsSF_exact|apply ErrSF_exact]; try assumption; reflexivity.
  - simpl SFadd in *. replace (SF2R (S754_zero sy)) with 0%R by reflexivity.
    rewrite (Rplus_0_r).
    split; [apply RoundsSF_exact|apply ErrSF_exact]; try assumption; reflexivity.
  - cbn [SFadd] in *. cbv zeta in *.
    set (ez := Z.min ex ey) in *.
    rewrite <- (aligned_value sx mx ex ez) by lia.
    rewrite <- (aligned_value sy my ey ez) by lia.
    rewrite <- Rmult_plus_distr_r, <- plus_IZR.
    apply binary_normalize_rounds. exact Vr.
Qed.

Lemma SFsub_rounds (x y : spec_float) :
  valid_binary x = true -> valid_binary y = true ->
  SFfinite x = true -> SFfinite y = true ->
  valid_binary (SF64sub x y) = true ->
  RoundsSF (SF2R x - SF2R y)%R (SF64sub x y)
  /\ ErrSF (SF2R x - SF2R y)%R (SF64sub x y).
Proof.
  intros Vx Vy Fx Fy Vr. unfold SF64sub in *.
  destruct x as [sx|sx| |sx mx ex], y as [sy|sy| |sy my ey]; try discriminate.
  - simpl SF2R. rewrite Rminus_0_r.
    split; [apply RoundsSF_exact|apply ErrSF_exact];
      try (destruct sx, sy; reflexivity).
  - simpl SFsub in *.
    assert (E : SF2R (S754_finite (negb sy) my ey)
                = (SF2R (S754_zero sx) - SF2R (S754_finite sy my ey))%R).
    { rewrite !SF2R_finite. simpl SF2R. destruct sy; simpl; ring. }
    split; [apply RoundsSF_exact|apply ErrSF_exact]; try assumption; reflexivity.
  - simpl SFsub in *. replace (SF2R (S754_zero sy)) with 0%R by reflexivity.
    rewrite (Rminus_0_r).
    split; [apply RoundsSF_exact|apply ErrSF_exact]; try assumption; reflexivity.
  - cbn [SFsub] in *. cbv zeta in *.
    set (ez := Z.min ex ey) in *.
    rewrite <- (aligned_value sx mx ex ez) by lia.
    rewrite <- (aligned_value sy my ey ez) by lia.
    rewrite <- Rmult_minus_distr_r, <- minus_IZR.
    apply binary_normalize_rounds. exact Vr.
Qed.

End OperationFacts.

Module ProductFacts.
Import Dyadic DyadicFacts RoundingFacts CanonicalFacts OperationFacts.
Local Open Scope Z_scope.

Lemma Zdigits2_ge (m k : Z) : 0 <= k -> 2 ^ k <= m -> k + 1 <= Zdigits2 m.
Proof.
  intros Hk Hm.
  assert (Hpos : 0 < m) by (pose proof (Z.pow_pos_nonneg 2 k); lia).
  pose proof (Zdigits2_bounds m Hpos) as [_ Dhi].
  pose proof (Zdigits2_pos m Hpos).
  destruct (Z_lt_le_dec k (Zdigits2 m)) as [|Hle]; [lia|].
  assert (2 ^ Zdigits2 m <= 2 ^ k) by (apply Z.pow_le_mono_r; lia). lia.
Qed.

Lemma signed_product (sx sy : bool) (a b : R) :
  ((if sx then - a else a) * (if sy then - b else b)
   = if xorb sx sy then - (a * b) else a * b)%R.
Proof.
  destruct sx, sy; simpl; ring.
Qed.

Lemma signed_quotient (sx sy : bool) (a b : R) :
  (b <> 0)%R ->
  ((if sx then - a else a) / (if sy then - b else b)
   = if xorb sx sy then - (a / b) else a / b)%R.
Proof.
  intros Hb. destruct sx, sy; simpl; field; lra.
Qed.

Lemma SFmul_rounds (x y : spec_float) :
  valid_binary x = true -> valid_binary y = true ->
  SFfinite x = true -> SFfinite y = true ->
  valid_binary (SF64mul x y) = true ->
  RoundsSF (SF2R x * SF2R y)%R (SF64mul x y)
  /\ ErrSF (SF2R x * SF2R y)%R (SF64mul x y).
Proof.
  intros Vx Vy Fx Fy Vr. unfold SF64mul in *.
  destruct x as [sx|sx| |sx mx ex], y as [sy|sy| |sy my ey]; try discriminate.
  - simpl SF2R. rewrite Rmult_0_l.
    split; [apply RoundsSF_exact|apply ErrSF_exact]; reflexivity.
  - simpl SFmul. replace (SF2R (S754_zero sx)) with 0%R by reflexivity.
    rewrite Rmult_0_l.
    split; [apply RoundsSF_exact|apply ErrSF_exact]; reflexivity.
  - simpl SFmul. replace (SF2R (S754_zero sy)) with 0%R by reflexivity.
    rewrite Rmult_0_r.
    split; [apply RoundsSF_exact|apply ErrSF_exact]; reflexivity.
  - cbn [SFmul] in *.
    unfold valid_binary in Vx, Vy. simpl in Vx, Vy.
    destruct (bounded_inv mx ex Vx) as (Hex & Hmx & Gx).
    destruct (bounded_inv my ey Vy) as (Hey & Hmy & Gy).
    pose proof (mag_pos mx ex) as Ha. pose proof (mag_pos my ey) as Hb.
    assert (Hval : (IZR (Zpos (mx * my)) * bpow (ex + ey))%R
                   = (mag mx ex * mag my ey)%R).
    { unfold mag. rewrite Pos2Z.inj_mul, mult_IZR, bpow_add. ring. }
    assert (Hn : ex + ey <= fexp prec emax (Zdigits2 (Zpos (mx * my)) + (ex + ey))).
    { rewrite fexp_eq.
      destruct (Z_le_gt_dec (ex + ey) (-1074)) as [|Hgt]; [lia|].
      assert (Hp : 2 ^ 52 <= Zpos (mx * my)).
      { rewrite Pos2Z.inj_mul.
        destruct Gx as [->|Gx], Gy as [->|Gy]; try lia; nia. }
      pose proof (Zdigits2_ge (Zpos (mx * my)) 52 ltac:(lia) Hp). lia. }
    assert (Hin : inbetween (mag mx ex * mag my ey)%R (Zpos (mx * my)) (ex + ey)
                    (is_exact loc_Exact)).
    { unfold inbetween. rewrite Hval. pose proof (bpow_pos (ex + ey)).
      simpl is_exact. split; [split; nra|]. split; reflexivity. }
    destruct (round_aux_outcome (xorb sx sy) (Zpos (mx * my)) (ex + ey) loc_Exact
                _ ltac:(lia) Hin Hn) as (rv & Hrv & Hout & Hmono & Herr).
    rewrite !SF2R_finite, signed_product.
    assert (Hab : (0 < mag mx ex * mag my ey)%R) by nra.
    split.
    + exact (signed_rounds _ _ rv _ Vr Hab Hrv Hout Hmono).
    + exact (signed_err _ _ rv _ Hab Hrv Hout Herr).
Qed.

Lemma shift_match (m s : Z) :
  0 <= s ->
  match s with
  | 0 => m
  | Zpos _ => Z.shiftl m s
  | Zneg _ => 0
  end = m * 2 ^ s.
Proof.
  intros Hs. destruct s as [|p|p]; try lia.
  rewrite Z.shiftl_mul_pow2 by lia. reflexivity.
Qed.

Lemma new_location_exact (nb k : Z) : is_exact (new_location nb k) = (k =? 0).
Proof.
  unfold new_location, new_location_even, new_location_odd.
  destruct (Z.even nb), (k =? 0); reflexivity.
Qed.

(** The quotient of two mantissas, as [SFdiv] prepares it for rounding. *)
Lemma SFdiv_core_spec (mx : positive) (ex : Z) (my : positive) (ey : Z) :
  let '(q, e', l) := SFdiv_core_binary prec emax (Zpos mx) ex (Zpos my) ey in
  0 <= q
  /\ inbetween (mag mx ex / mag my ey)%R q e' (is_exact l)
  /\ e' <= fexp prec emax (Zdigits2 q + e').
Proof.
  unfold SFdiv_core_binary.
  set (d1 := Zdigits2 (Zpos mx)). set (d2 := Zdigits2 (Zpos my)).
  set (e' := Z.min (fexp prec emax (d1 + ex - (d2 + ey))) (ex - ey)).
  set (s := ex - ey - e').
  assert (Hs : 0 <= s) by (unfold s; lia).
  rewrite (shift_match (Zpos mx) s Hs).
  set (m' := Zpos mx * 2 ^ s).
  assert (Hm' : m' = Zpos mx * 2 ^ s) by reflexivity.
  clearbody m'.
  pose proof (Z.pow_pos_nonneg 2 s ltac:(lia) Hs) as Hpow.
  pose proof (Z_div_mod m' (Zpos my) ltac:(lia)) as Hdm.
  destruct (Z.div_eucl m' (Zpos my)) as [q r]. destruct Hdm as [Hdm Hr].
  assert (Hq : 0 <= q) by nia.
  pose proof (mag_pos mx ex) as Ha. pose proof (mag_pos my ey) as Hb.
  pose proof (bpow_pos e') as HB.
  assert (Hv : (mag mx ex / mag my ey = IZR m' / IZR (Zpos my) * bpow e')%R).
  { unfold mag. rewrite Hm', mult_IZR, <- (bpow_IZR s) by lia.
    replace ex with (ey + s + e') at 1 by (unfold s; lia).
    rewrite !bpow_add. pose proof (bpow_pos ey).
    assert (IZR (Zpos my) <> 0)%R by (apply not_0_IZR; lia).
    field. split; lra. }
  assert (HmyR : (0 < IZR (Zpos my))%R) by (apply IZR_lt; lia).
  assert (Hm'R : IZR m' = (IZR (Zpos my) * IZR q + IZR r)%R).
  { rewrite Hdm, plus_IZR, mult_IZR. reflexivity. }
  assert (HrR : (0 <= IZR r < IZR (Zpos my))%R).
  { split; [apply IZR_le|apply IZR_lt]; lia. }
  assert (Hquot : (IZR m' / IZR (Zpos my) = IZR q + IZR r / IZR (Zpos my))%R).
  { rewrite Hm'R. field. lra. }
  assert (Hfrac : (0 <= IZR r / IZR (Zpos my) < 1)%R).
  { split.
    - apply Rmult_le_pos; [lra|]. apply Rlt_le, Rinv_0_lt_compat. lra.
    - apply (Rmult_lt_reg_r (IZR (Zpos my))); [lra|].
      unfold Rdiv. rewrite Rmult_assoc, Rinv_l by lra. lra. }
  split; [exact Hq|]. split.
  - unfold inbetween. rewrite Hv, Hquot, new_location_exact.
    split; [split; nra|].
    split.
    + intros E. apply Z.eqb_eq in E. subst r. unfold Rdiv. rewrite Rmult_0_l. ring.
    + intros E. apply Z.eqb_eq.
      assert (Hz : (IZR r / IZR (Zpos my) = 0)%R) by nra.
      assert (Hr0 : IZR r = 0%R).
      { apply (Rmult_eq_reg_r (/ IZR (Zpos my))).
        - rewrite Rmult_0_l. exact Hz.
        - apply Rinv_neq_0_compat. lra. }
      apply eq_IZR in Hr0. exact Hr0.
  - (* the quotient has enough digits *)
    assert (Hd : d1 + s - d2 <= Zdigits2 q).
    { pose proof (Zdigits2_nonneg q).
      destruct (Z_le_gt_dec (d1 + s - d2) 0) as [|Hgt]; [lia|].
      pose proof (Zdigits2_bounds (Zpos mx) ltac:(lia)) as [D1 _].
      pose proof (Zdigits2_bounds (Zpos my) ltac:(lia)) as [_ D2].
      pose proof (Zdigits2_pos (Zpos mx) ltac:(lia)).
      pose proof (Zdigits2_pos (Zpos my) ltac:(lia)).
      fold d1 in D1. fold d2 in D2.
      assert (Hlow : 2 ^ (d1 + s - d2 - 1) <= q).
      { assert (Hm1 : 2 ^ (d1 - 1 + s) <= m').
        { rewrite Hm', Z.pow_add_r by lia.
          apply Z.mul_le_mono_nonneg_r; lia. }
        assert (Hsplit : 2 ^ (d1 - 1 + s) = 2 ^ (d1 + s - d2 - 1) * 2 ^ d2).
        { rewrite <- Z.pow_add_r by lia. f_equal. lia. }
        pose proof (Z.pow_pos_nonneg 2 (d1 + s - d2 - 1) ltac:(lia) ltac:(lia)).
        nia. }
      pose proof (Zdigits2_ge q (d1 + s - d2 - 1) ltac:(lia) Hlow). lia. }
    assert (Hf : fexp prec emax (d1 + ex - (d2 + ey))
                 <= fexp prec emax (Zdigits2 q + e')).
    { apply fexp_mono. unfold s in Hd. lia. }
    unfold e' at 1. lia.
Qed.

Lemma SFdiv_rounds (x y : spec_float) :
  valid_binary x = true -> valid_binary y = true ->
  SFfinite x = true ->
  (exists s m e, y = S754_finite s m e) ->
  valid_binary (SF64div x y) = true ->
  RoundsSF (SF2R x / SF2R y)%R (SF64div x y)
  /\ ErrSF (SF2R x / SF2R y)%R (SF64div x y).
Proof.
  intros Vx Vy Fx (sy & my & ey & ->) Vr. unfold SF64div in *.
  pose proof (mag_pos my ey) as Hb.
  destruct x as [sx|sx| |sx mx ex]; try discriminate.
  - simpl SFdiv. replace (SF2R (S754_zero sx)) with 0%R by reflexivity.
    unfold Rdiv. rewrite Rmult_0_l.
    split; [apply RoundsSF_exact|apply ErrSF_exact]; reflexivity.
  - cbn [SFdiv] in *.
    pose proof (SFdiv_core_spec mx ex my ey) as Hcore.
    destruct (SFdiv_core_binary prec emax (Zpos mx) ex (Zpos my) ey) as [[q e'] l].
    destruct Hcore as (Hq & Hin & Hn).
    pose proof (mag_pos mx ex) as Ha.
    destruct (round_aux_outcome (xorb sx sy) q e' l _ Hq Hin Hn)
      as (rv & Hrv & Hout & Hmono & Herr).
    rewrite !SF2R_finite, signed_quotient by lra.
    assert (Hab : (0 < mag mx ex / mag my ey)%R).
    { apply Rmult_lt_0_compat; [lra|]. apply Rinv_0_lt_compat. lra. }
    split.
    + exact (signed_rounds _ _ rv _ Vr Hab Hrv Hout Hmono).
    + exact (signed_err _ _ rv _ Hab Hrv Hout Herr).
Qed.

End ProductFacts.

Module Binary64Facts.
Import FloatFacts Dyadic Binary64 DyadicFacts RoundingFacts CanonicalFacts OperationFacts ProductFacts.
Local Open Scope float_scope.

Lemma is_infinity_Prim2SF (x : float) :
  is_infinity x = match Prim2SF x with S754_infinity _ => true | _ => false end.
Proof.
  unfold is_infinity. rewrite eqb_spec, abs_spec. unfold SFeqb.
  change (Prim2SF infinity) with (S754_infinity false).
  destruct (Prim2SF x) as [s|s| |s m e]; reflexivity.
Qed.

Lemma is_finite_SF (x : float) : is_finite x = SFfinite (Prim2SF x).
Proof.
  unfold is_finite. rewrite is_nan_Prim2SF, is_infinity_Prim2SF.
  destruct (Prim2SF x); reflexivity.
Qed.

Lemma leb_F2R (x y : float) :
  is_finite x = true -> is_finite y = true ->
  ((x <=? y) = true <-> (F2R x <= F2R y)%R).
Proof.
  rewrite !is_finite_SF, leb_spec. intros Fx Fy.
  apply SFleb_finite; auto using Prim2SF_valid.
Qed.

Lemma ltb_F2R (x y : float) :
  is_finite x = true -> is_finite y = true ->
  ((x <? y) = true <-> (F2R x < F2R y)%R).
Proof.
  rewrite !is_finite_SF, ltb_spec. intros Fx Fy.
  apply SFltb_finite; auto using Prim2SF_valid.
Qed.

Lemma Rounds_of_SF (v : R) (r : float) :
  RoundsSF v (Prim2SF r) /\ ErrSF v (Prim2SF r) -> Rounds v r.
Proof.
  intros [[Hn Hm] He]. split; [|split].
  - rewrite is_nan_Prim2SF. destruct (Prim2SF r); congruence.
  - intros c Fc. rewrite is_finite_SF in Fc. rewrite !leb_spec.
    apply Hm; [apply Prim2SF_valid|exact Fc].
  - intros Fr k Hk. rewrite is_finite_SF in Fr. exact (He Fr k Hk).
Qed.

Lemma add_rounds (x y : float) :
  is_finite x = true -> is_finite y = true -> Rounds (F2R x + F2R y) (x + y).
Proof.
  rewrite !is_finite_SF. intros Fx Fy. apply Rounds_of_SF. rewrite add_spec.
  apply SFadd_rounds; auto using Prim2SF_valid.
  rewrite <- add_spec. apply Prim2SF_valid.
Qed.

Lemma sub_rounds (x y : float) :
  is_finite x = true -> is_finite y = true -> Rounds (F2R x - F2R y) (x - y).
Proof.
  rewrite !is_finite_SF. intros Fx Fy. apply Rounds_of_SF. rewrite sub_spec.
  apply SFsub_rounds; auto using Prim2SF_valid.
  rewrite <- sub_spec. apply Prim2SF_valid.
Qed.

Lemma mul_rounds (x y : float) :
  is_finite x = true -> is_finite y = true -> Rounds (F2R x * F2R y) (x * y).
Proof.
  rewrite !is_finite_SF. intros Fx Fy. apply Rounds_of_SF. rewrite mul_spec.
  apply SFmul_rounds; auto using Prim2SF_valid.
  rewrite <- mul_spec. apply Prim2SF_valid.
Qed.

Lemma div_rounds (x y : float) :
  is_finite x = true -> is_nonzero y -> Rounds (F2R x / F2R y) (x / y).
Proof.
  rewrite !is_finite_SF. intros Fx Fy. apply Rounds_of_SF. rewrite div_spec.
  apply SFdiv_rounds; auto using Prim2SF_valid.
  rewrite <- div_spec. apply Prim2SF_valid.
Qed.

(** A float between two finite floats is finite. *)
Lemma between_finite (lo hi r : float) :
  is_finite lo = true -> is_finite hi = true ->
  (lo <=? r) = true -> (r <=? hi) = true -> is_finite r = true.
Proof.
  rewrite !is_finite_SF, !leb_spec. unfold SFleb.
  destruct (Prim2SF lo) as [?|?| |[] ? ?], (Prim2SF hi) as [?|?| |[] ? ?],
    (Prim2SF r) as [[]|[]| |? ? ?]; simpl; intros; try reflexivity; discriminate.
Qed.

Lemma Rounds_between (v : R) (r lo hi : float) :
  Rounds v r ->
  is_finite lo = true -> is_finite hi = true ->
  (F2R lo <= v <= F2R hi)%R ->
  is_finite r = true /\ (lo <=? r) = true /\ (r <=? hi) = true
  /\ (F2R lo <= F2R r <= F2R hi)%R.
Proof.
  intros (Hn & Hm & _) Flo Fhi [Hlo Hhi].
  pose proof (proj1 (Hm lo Flo) Hlo) as L1.
  pose proof (proj2 (Hm hi Fhi) Hhi) as L2.
  pose proof (between_finite lo hi r Flo Fhi L1 L2) as Fr.
  repeat split; try assumption.
  - apply leb_F2R; assumption.
  - apply leb_F2R; assumption.
Qed.

Lemma Rounds_le (v : R) (r hi : float) :
  Rounds v r -> is_finite hi = true -> (v <= F2R hi)%R -> (r <=? hi) = true.
Proof.
  intros (_ & Hm & _) Fhi Hv. exact (proj2 (Hm hi Fhi) Hv).
Qed.

Lemma Rounds_ge (v : R) (r lo : float) :
  Rounds v r -> is_finite lo = true -> (F2R lo <= v)%R -> (lo <=? r) = true.
Proof.
  intros (_ & Hm & _) Flo Hv. exact (proj1 (Hm lo Flo) Hv).
Qed.

End Binary64Facts.

(* ================================================================= *)
(** ** Bounds on binary64 values of the program *)

Module FloatBounds.
Import FloatFacts FloatOrder Dyadic Binary64 DyadicFacts RoundingFacts CanonicalFacts OperationFacts ProductFacts Binary64Facts.
Local Open Scope float_scope.

(** The real number of a literal. *)
Ltac pow_const :=
  unfold SF2R, cond_Zopp, bpow; cbn [Z.opp];
  repeat match goal with
  | |- context [Z.pow_pos 2 ?p] =>
      let z := eval vm_compute in (Z.pow_pos 2 p) in
      change (Z.pow_pos 2 p) with z
  end.

Ltac F2R_const :=
  unfold F2R;
  match goal with
  | |- SF2R (Prim2SF ?c) = _ =>
      let s := eval vm_compute in (Prim2SF c) in change (Prim2SF c) with s
  end;
  pow_const; lra.

Lemma F2R_0 : F2R 0 = 0%R. Proof. reflexivity. Qed.
Lemma F2R_1 : F2R 1 = 1%R. Proof. F2R_const. Qed.
Lemma F2R_m1 : F2R (-1) = (-1)%R. Proof. F2R_const. Qed.
Lemma F2R_2 : F2R 2 = 2%R. Proof. F2R_const. Qed.
Lemma F2R_m2 : F2R (-2) = (-2)%R. Proof. F2R_const. Qed.
Lemma F2R_90 : F2R 90 = 90%R. Proof. F2R_const. Qed.
Lemma F2R_m90 : F2R (-90) = (-90)%R. Proof. F2R_const. Qed.
Lemma F2R_180 : F2R 180 = 180%R. Proof. F2R_const. Qed.
Lemma F2R_270 : F2R 270 = 270%R. Proof. F2R_const. Qed.
Lemma F2R_360 : F2R 360 = 360%R. Proof. F2R_const. Qed.
Lemma F2R_m360 : F2R (-360) = (-360)%R. Proof. F2R_const. Qed.
Lemma F2R_450 : F2R 450 = 450%R. Proof. F2R_const. Qed.
Lemma F2R_630 : F2R 630 = 630%R. Proof. F2R_const. Qed.
Lemma F2R_1367 : F2R 1367 = 1367%R. Proof. F2R_const. Qed.

Lemma F2R_PI : (3 < F2R F64.PI < 4)%R.
Proof.
  unfold F2R.
  let s := eval vm_compute in (Prim2SF F64.PI) in change (Prim2SF F64.PI) with s.
  pow_const. lra.
Qed.

Lemma inRange_real (lo hi x : float) :
  is_finite lo = true -> is_finite hi = true -> inRange lo hi x ->
  is_finite x = true /\ (F2R lo <= F2R x <= F2R hi)%R.
Proof.
  intros Flo Fhi [H1 H2].
  pose proof (between_finite lo hi x Flo Fhi H1 H2) as Fx.
  split; [exact Fx|]. split; apply leb_F2R; assumption.
Qed.

Lemma positive_finite (y : float) :
  is_finite y = true -> (0 < F2R y)%R ->
  exists m e, Prim2SF y = S754_finite false m e.
Proof.
  unfold F2R. rewrite is_finite_SF.
  destruct (Prim2SF y) as [s|s| |s m e]; simpl SFfinite; intros Fy Hy;
    try discriminate; try (simpl in Hy; lra).
  rewrite SF2R_finite in Hy. pose proof (mag_pos m e).
  destruct s; [lra|]. eauto.
Qed.

Lemma positive_nonzero (y : float) :
  is_finite y = true -> (0 < F2R y)%R -> is_nonzero y.
Proof.
  intros Fy Hy. destruct (positive_finite y Fy Hy) as (m & e & E).
  exists false, m, e. exact E.
Qed.

(** [n % d] for [d <= n < 2 d] is the difference [n - d]. *)
Lemma remainder_is_sub (y d : float) :
  is_finite y = true -> is_finite d = true ->
  (0 < F2R d)%R -> (F2R d <= F2R y < 2 * F2R d)%R ->
  F64.remainder y d = y - d.
Proof.
  intros Fy Fd Hd [H1 H2].
  destruct (positive_finite d Fd Hd) as (md & ed & Ed).
  destruct (positive_finite y Fy ltac:(lra)) as (my & ey & Ey).
  rewrite <- (SF2Prim_Prim2SF (y - d)). rewrite sub_spec.
  unfold F64.remainder, F2R in *. rewrite Ey, Ed in *.
  unfold SF64sub. cbn [SFsub]. cbv zeta.
  set (e := Z.min ey ed) in *. f_equal.
  pose proof (aligned_value false my ey e ltac:(lia)) as Vy.
  pose proof (aligned_value false md ed e ltac:(lia)) as Vd.
  destruct (shl_align_spec my ey e) as (Ey' & Hmy & _).
  destruct (shl_align_spec md ed e) as (Ed' & Hmd & _).
  replace (snd (shl_align my ey e)) with e in * by lia.
  replace (snd (shl_align md ed e)) with e in * by lia.
  cbn [cond_Zopp] in *.
  rewrite <- Hmy, <- Hmd.
  set (Ny := Zpos (fst (shl_align my ey e))) in *.
  set (Nd := Zpos (fst (shl_align md ed e))) in *.
  rewrite <- Vy, <- Vd in *.
  pose proof (bpow_pos e) as HB.
  assert (Hle : (Nd <= Ny)%Z).
  { apply le_IZR. nra. }
  assert (Hlt : (Ny < 2 * Nd)%Z).
  { apply lt_IZR. rewrite mult_IZR. nra. }
  assert (Hmod : (Ny mod Nd = Ny - Nd)%Z).
  { symmetry. apply (Z.mod_unique Ny Nd 1); [left|]; lia. }
  rewrite Hmod. reflexivity.
Qed.

Lemma ltb_leb_trans (x y z : float) :
  (x <? y) = true -> (y <=? z) = true -> (x <? z) = true.
Proof.
  intros H1 H2.
  destruct (ltb_not_nan _ _ H1) as [Nx _]. destruct (leb_not_nan _ _ H2) as [_ Nz].
  rewrite ltb_negb_leb, Nx, Nz. simpl.
  destruct (z <=? x) eqn:E; [|reflexivity].
  pose proof (leb_trans y z x H2 E) as H3.
  rewrite (ltb_true_leb_false _ _ H1) in H3. discriminate.
Qed.

Lemma leb_ltb_trans (x y z : float) :
  (x <=? y) = true -> (y <? z) = true -> (x <? z) = true.
Proof.
  intros H1 H2.
  destruct (leb_not_nan _ _ H1) as [Nx _]. destruct (ltb_not_nan _ _ H2) as [_ Nz].
  rewrite ltb_negb_leb, Nx, Nz. simpl.
  destruct (z <=? x) eqn:E; [|reflexivity].
  pose proof (leb_trans z x y E H1) as H3.
  rewrite (ltb_true_leb_false _ _ H2) in H3. discriminate.
Qed.

(** A product or quotient by a positive constant is positive only if the
    other factor is. *)
Lemma mul_pos_inv (y c : float) :
  is_finite c = true -> (0 < F2R c)%R -> (0 <? y * c) = true -> (0 <? y) = true.
Proof.
  intros Fc Hc Hpos. destruct (is_finite y) eqn:Fy.
  - destruct (Rle_or_lt (F2R y) 0) as [Hle|Hlt].
    + exfalso. pose proof (mul_rounds y c Fy Fc) as Hr.
      assert (Hv : (F2R y * F2R c <= F2R 0)%R) by (rewrite F2R_0; nra).
      pose proof (Rounds_le _ _ 0 Hr eq_refl Hv) as Hl.
      rewrite (leb_true_ltb_false _ _ Hl) in Hpos. discriminate.
    + apply ltb_F2R; [reflexivity|exact Fy|rewrite F2R_0; exact Hlt].
  - destruct (positive_finite c Fc Hc) as (mc & ec & Ec).
    rewrite is_finite_SF in Fy. rewrite ltb_spec, mul_spec in Hpos.
    rewrite ltb_spec. rewrite Ec in Hpos.
    change (Prim2SF 0) with (S754_zero false) in *.
    destruct (Prim2SF y) as [s|s| |s m e]; try discriminate.
    destruct s; [discriminate|reflexivity].
Qed.

Lemma div_pos_inv (y c : float) :
  is_finite c = true -> (0 < F2R c)%R -> (0 <? y / c) = true -> (0 <? y) = true.
Proof.
  intros Fc Hc Hpos. destruct (is_finite y) eqn:Fy.
  - destruct (Rle_or_lt (F2R y) 0) as [Hle|Hlt].
    + exfalso.
      pose proof (div_rounds y c Fy (positive_nonzero c Fc Hc)) as Hr.
      assert (Hv : (F2R y / F2R c <= F2R 0)%R).
      { rewrite F2R_0. unfold Rdiv.
        assert (0 < / F2R c)%R by (apply Rinv_0_lt_compat; lra). nra. }
      pose proof (Rounds_le _ _ 0 Hr eq_refl Hv) as Hl.
      rewrite (leb_true_ltb_false _ _ Hl) in Hpos. discriminate.
    + apply ltb_F2R; [reflexivity|exact Fy|rewrite F2R_0; exact Hlt].
  - destruct (positive_finite c Fc Hc) as (mc & ec & Ec).
    rewrite is_finite_SF in Fy. rewrite ltb_spec, div_spec in Hpos.
    rewrite ltb_spec. rewrite Ec in Hpos.
    change (Prim2SF 0) with (S754_zero false) in *.
    destruct (Prim2SF y) as [s|s| |s m e]; try discriminate.
    destruct s; [discriminate|reflexivity].
Qed.

Lemma PI_finite : is_finite F64.PI = true. Proof. reflexivity. Qed.

Lemma degrees_pos_inv (y : float) :
  (0 <? (y * 180) / F64.PI) = true -> (0 <? y) = true.
Proof.
  intros H. apply (mul_pos_inv y 180); [reflexivity|rewrite F2R_180; lra|].
  apply (div_pos_inv _ F64.PI); [reflexivity|pose proof F2R_PI; lra|exact H].
Qed.

(** An angle between -360 and 360 degrees has a finite number of radians. *)
Lemma radians_finite (x : float) :
  inRange (-360) 360 x -> is_finite ((x * F64.PI) / 180) = true.
Proof.
  intros Hx.
  destruct (inRange_real (-360) 360 x eq_refl eq_refl Hx) as [Fx [Hlo Hhi]].
  rewrite F2R_m360 in Hlo. rewrite F2R_360 in Hhi. pose proof F2R_PI as HPI.
  pose proof (mul_rounds x F64.PI Fx PI_finite) as Hr.
  assert (Hb : (F2R (-0x1p11) <= F2R x * F2R F64.PI <= F2R 0x1p11)%R).
  { replace (F2R (-0x1p11)) with (-2048)%R by (symmetry; F2R_const).
    replace (F2R 0x1p11) with 2048%R by (symmetry; F2R_const). nra. }
  destruct (Rounds_between _ _ (-0x1p11) 0x1p11 Hr eq_refl eq_refl Hb)
    as (Ft & _ & _ & Htlo & Hthi).
  replace (F2R (-0x1p11)) with (-2048)%R in Htlo by (symmetry; F2R_const).
  replace (F2R 0x1p11) with 2048%R in Hthi by (symmetry; F2R_const).
  assert (N180 : is_nonzero 180) by (apply positive_nonzero; [reflexivity|rewrite F2R_180; lra]).
  pose proof (div_rounds _ 180 Ft N180) as Hq. rewrite F2R_180 in Hq.
  assert (Hb2 : (F2R (-0x1p11) <= F2R (x * F64.PI) / 180 <= F2R 0x1p11)%R).
  { replace (F2R (-0x1p11)) with (-2048)%R by (symmetry; F2R_const).
    replace (F2R 0x1p11) with 2048%R by (symmetry; F2R_const). lra. }
  exact (proj1 (Rounds_between _ _ (-0x1p11) 0x1p11 Hq eq_refl eq_refl Hb2)).
Qed.

(** NaN comes out of a sum or a product only if it went in, for finite or
    infinite operands alike: the contrapositives. *)
Lemma add_not_nan (x y : float) :
  is_nan (x + y) = false -> is_nan x = false /\ is_nan y = false.
Proof.
  intros H. split.
  - destruct (is_nan x) eqn:E; [|reflexivity].
    rewrite (is_nan_true x E), add_nan_l in H. discriminate.
  - destruct (is_nan y) eqn:E; [|reflexivity].
    rewrite (is_nan_true y E), add_nan_r in H. discriminate.
Qed.

Lemma mul_not_nan (x y : float) :
  is_nan (x * y) = false -> is_nan x = false /\ is_nan y = false.
Proof.
  intros H. split.
  - destruct (is_nan x) eqn:E; [|reflexivity].
    rewrite (is_nan_true x E), mul_nan_l in H. discriminate.
  - destruct (is_nan y) eqn:E; [|reflexivity].
    rewrite (is_nan_true y E), mul_nan_r in H. discriminate.
Qed.

(** [Math.max(lo, Math.min(hi, v))] for [lo <= hi]. *)
Lemma clamp_range (v lo hi : float) :
  (lo <=? hi) = true -> is_nan v = false ->
  inRange lo hi (F64.max lo (F64.min hi v)).
Proof.
  intros Hlh Hv. destruct (leb_not_nan _ _ Hlh) as [Hlo Hhi].
  destruct (min_cases hi v Hhi Hv) as [[Em Hm]|[Em Hm]]; rewrite Em.
  - destruct (max_cases lo hi Hlo Hhi) as [[Ex Hx]|[Ex Hx]]; rewrite Ex;
      split; auto using leb_refl.
  - destruct (max_cases lo v Hlo Hv) as [[Ex Hx]|[Ex Hx]]; rewrite Ex;
      split; auto using leb_refl.
Qed.

Lemma clamp_not_nan (v lo hi : float) :
  is_nan (F64.max lo (F64.min hi v)) = false -> is_nan v = false.
Proof.
  destruct (is_nan v) eqn:E; [|reflexivity].
  unfold F64.min. rewrite E, orb_true_r. unfold F64.max.
  change (is_nan nan) with true. rewrite orb_true_r. discriminate.
Qed.

Lemma finite_nonzero (x : float) :
  is_finite x = true -> (x =? 0) = false -> is_nonzero x.
Proof.
  rewrite is_finite_SF, eqb_spec. change (Prim2SF 0) with (S754_zero false).
  unfold is_nonzero.
  destruct (Prim2SF x) as [s|s| |s m e]; simpl; intros; try discriminate; eauto.
Qed.

Lemma div_not_nan (x y : float) :
  is_finite x = true -> is_nonzero y -> is_nan (x / y) = false.
Proof.
  intros Fx Ny. exact (proj1 (div_rounds x y Fx Ny)).
Qed.

(** The operations of [Number] at [Float64 M], and the literals of the
    source as floats. *)
Ltac on_floats :=
  cbn [nmul ndiv nadd nsub nrem nlt nle neq Math_PI Math_sin Math_cos Math_asin
       Math_max Math_min lit NaN Number_isNaN Number_isFinite Float64] in *;
  repeat match goal with
  | |- context [F64.literal ?q] =>
      let c := eval vm_compute in (F64.literal q) in
      change (F64.literal q) with c
  | H : context [F64.literal ?q] |- _ =>
      let c := eval vm_compute in (F64.literal q) in
      change (F64.literal q) with c in H
  end.

End FloatBounds.

(* ================================================================= *)
(** ** The host library *)

Module HostFacts.
Import FloatFacts FloatOrder Dyadic Binary64 DyadicFacts RoundingFacts CanonicalFacts OperationFacts ProductFacts Binary64Facts FloatBounds.
Local Open Scope float_scope.

Lemma withinSpec_meets (M : HostMath) : HostSpec (withinSpec M).
Proof.
  constructor; cbn [withinSpec host_sin host_cos host_asin]; intros x Hx.
  - rewrite Hx. destruct (is_nan (host_sin M x)) eqn:E.
    + split; reflexivity.
    + apply clamp_range; [reflexivity|exact E].
  - rewrite Hx. destruct (is_nan (host_cos M x)) eqn:E.
    + split; reflexivity.
    + apply clamp_range; [reflexivity|exact E].
  - rewrite Hx. reflexivity.
  - rewrite Hx. reflexivity.
  - rewrite Hx. reflexivity.
  - destruct (is_nan x || (x <? -1) || (1 <? x)); [discriminate|].
    destruct (admissible_asin x (host_asin M x)) eqn:E; [|discriminate].
    unfold admissible_asin in E.
    apply andb_true_iff in E. destruct E as [E _].
    apply andb_true_iff in E. destruct E as [E _].
    rewrite Hx in E. exact E.
  - rewrite outside_guard by reflexivity.
    rewrite (proj1 (inRange_andb (-1) 1 x) Hx). cbn [negb].
    change (toDegrees ?r) with ((r * 180) / F64.PI).
    destruct (admissible_asin x (host_asin M x)) eqn:E.
    + unfold admissible_asin in E.
      apply andb_true_iff in E. destruct E as [E E2].
      apply andb_true_iff in E. destruct E as [_ E1].
      split; assumption.
    + split; reflexivity.
Qed.

End HostFacts.

(* ================================================================= *)
(** ** The day branch on binary64 *)

Section DayOnFloats.
Import FloatFacts FloatOrder Dyadic Binary64 DyadicFacts RoundingFacts CanonicalFacts OperationFacts ProductFacts Binary64Facts FloatBounds.
Variable M : HostMath.
Hypothesis HS : HostSpec M.
Local Hint Extern 0 (Number float) => exact (Float64 M) : typeclass_instances.
Local Open Scope float_scope.

Lemma cos_arg_finite (x : float) :
  is_nan (host_cos M x) = false -> is_finite x = true.
Proof.
  intros H. destruct (is_finite x) eqn:E; [reflexivity|].
  rewrite (spec_cos_other M HS x E) in H. discriminate.
Qed.

Lemma unit_widens (lo hi a b x : float) :
  (a <=? lo) = true -> (hi <=? b) = true -> inRange lo hi x -> inRange a b x.
Proof.
  intros Ha Hb [H1 H2]. split; eauto using leb_trans.
Qed.

(** With the sun above the horizon, the sine of the altitude is in (0, 1],
    the altitude is at most 90, and the declination and the hour angle are
    finite. *)
Lemma day_facts (lat decl ha : float) :
  (0 <? toDegrees (host_asin M (sinAltOf lat decl ha))) = true ->
  (0 <? sinAltOf lat decl ha) = true
  /\ inRange (-1) 1 (sinAltOf lat decl ha)
  /\ inRange (-90) 90 (toDegrees (host_asin M (sinAltOf lat decl ha)))
  /\ is_finite (toRadians decl) = true
  /\ is_finite (toRadians ha) = true.
Proof.
  intros Hpos.
  assert (Hs : (0 <? sinAltOf lat decl ha) = true).
  { apply (spec_asin_sign M HS). apply degrees_pos_inv. exact Hpos. }
  destruct (ltb_not_nan _ _ Hs) as [_ Ns].
  assert (Hr : inRange (-1) 1 (sinAltOf lat decl ha)).
  { unfold sinAltOf, clamp in *. on_floats.
    apply clamp_range; [reflexivity|]. exact (clamp_not_nan _ _ _ Ns). }
  split; [exact Hs|]. split; [exact Hr|].
  split; [exact (spec_asin_degrees M HS _ Hr)|].
  unfold sinAltOf, clamp in Ns. on_floats.
  apply clamp_not_nan in Ns. apply add_not_nan in Ns. destruct Ns as [_ Nt].
  apply mul_not_nan in Nt. destruct Nt as [Nt Nh].
  apply mul_not_nan in Nt. destruct Nt as [_ Nd].
  split; apply cos_arg_finite; assumption.
Qed.

(** The azimuth of the day branch. *)
Lemma azimuthOf_range (decl ha alt : float) :
  is_finite (toRadians decl) = true -> is_finite (toRadians ha) = true ->
  inRange (-90) 90 alt ->
  inRange 90 270 (azimuthOf decl ha alt).
Proof.
  intros Fd Fh Halt.
  assert (Fa : is_finite (toRadians alt) = true).
  { apply radians_finite. exact (unit_widens (-90) 90 (-360) 360 alt eq_refl eq_refl Halt). }
  pose proof (spec_cos_finite M HS _ Fa) as Hden.
  pose proof (spec_cos_finite M HS _ Fd) as Hcd.
  pose proof (spec_sin_finite M HS _ Fh) as Hsh.
  unfold azimuthOf. cbv zeta.
  set (den := Math_cos (toRadians alt)) in *.
  set (cd := Math_cos (toRadians decl)) in *.
  set (sh := Math_sin (toRadians ha)) in *.
  change (host_cos M (toRadians alt)) with den in Hden.
  change (host_cos M (toRadians decl)) with cd in Hcd.
  change (host_sin M (toRadians ha)) with sh in Hsh.
  destruct (inRange_real (-1) 1 den eq_refl eq_refl Hden) as [Fden _].
  destruct (inRange_real (-1) 1 cd eq_refl eq_refl Hcd) as [Fcd [Hcd1 Hcd2]].
  destruct (inRange_real (-1) 1 sh eq_refl eq_refl Hsh) as [Fsh [Hsh1 Hsh2]].
  rewrite F2R_m1 in Hcd1, Hsh1. rewrite F2R_1 in Hcd2, Hsh2.
  (* the product is finite *)
  assert (FP : is_finite (cd * sh) = true).
  { pose proof (mul_rounds cd sh Fcd Fsh) as Hr.
    assert (Hb : (F2R (-1) <= F2R cd * F2R sh <= F2R 1)%R)
      by (rewrite F2R_m1, F2R_1; nra).
    exact (proj1 (Rounds_between _ _ (-1) 1 Hr eq_refl eq_refl Hb)). }
  (* the argument of the arcsine is in [-1, 1] *)
  set (sinAz0 := if (den === lit 0)%num then lit 0 else (cd * sh / den)%num).
  assert (N0 : is_nan sinAz0 = false).
  { unfold sinAz0. on_floats. destruct (den =? 0) eqn:E; [reflexivity|].
    apply div_not_nan; [exact FP|]. apply finite_nonzero; assumption. }
  assert (Haz : inRange (-1) 1 (clamp sinAz0 (lit (-1)) (lit 1))).
  { unfold clamp. on_floats. apply clamp_range; [reflexivity|exact N0]. }
  pose proof (spec_asin_degrees M HS _ Haz) as Ha.
  set (a := toDegrees (Math_asin (clamp sinAz0 (lit (-1)) (lit 1)))) in *.
  change (toDegrees (host_asin M (clamp sinAz0 (lit (-1)) (lit 1)))) with a in Ha.
  destruct (inRange_real (-90) 90 a eq_refl eq_refl Ha) as [Fa' [Ha1 Ha2]].
  rewrite F2R_m90 in Ha1. rewrite F2R_90 in Ha2.
  (* 180 -/+ a is in [90, 270] *)
  set (b := if (ha >? lit 0)%num then (lit 180 - a)%num else (lit 180 + a)%num).
  assert (Hb : inRange 90 270 b /\ is_finite b = true).
  { unfold b. on_floats. destruct (0 <? ha).
    - pose proof (sub_rounds 180 a eq_refl Fa') as Hr. rewrite F2R_180 in Hr.
      assert (Hv : (F2R 90 <= 180 - F2R a <= F2R 270)%R)
        by (rewrite F2R_90, F2R_270; lra).
      destruct (Rounds_between _ _ 90 270 Hr eq_refl eq_refl Hv) as (F & L1 & L2 & _).
      repeat split; assumption.
    - pose proof (add_rounds 180 a eq_refl Fa') as Hr. rewrite F2R_180 in Hr.
      assert (Hv : (F2R 90 <= 180 + F2R a <= F2R 270)%R)
        by (rewrite F2R_90, F2R_270; lra).
      destruct (Rounds_between _ _ 90 270 Hr eq_refl eq_refl Hv) as (F & L1 & L2 & _).
      repeat split; assumption. }
  destruct Hb as [Hb Fb].
  destruct (inRange_real 90 270 b eq_refl eq_refl Hb) as [_ [Hb1 Hb2]].
  rewrite F2R_90 in Hb1. rewrite F2R_270 in Hb2.
  (* adding 360 *)
  on_floats.
  pose proof (add_rounds b 360 Fb eq_refl) as Hy. rewrite F2R_360 in Hy.
  assert (Hv : (F2R 450 <= F2R b + 360 <= F2R 630)%R)
    by (rewrite F2R_450, F2R_630; lra).
  destruct (Rounds_between _ _ 450 630 Hy eq_refl eq_refl Hv) as (Fy & _ & _ & Hy1 & Hy2).
  rewrite F2R_450 in Hy1. rewrite F2R_630 in Hy2.
  (* the remainder is a subtraction *)
  rewrite (remainder_is_sub (b + 360) 360 Fy eq_refl)
    by (rewrite F2R_360; lra).
  pose proof (sub_rounds (b + 360) 360 Fy eq_refl) as Hz. rewrite F2R_360 in Hz.
  assert (Hw : (F2R 90 <= F2R (b + 360) - 360 <= F2R 270)%R)
    by (rewrite F2R_90, F2R_270; lra).
  destruct (Rounds_between _ _ 90 270 Hz eq_refl eq_refl Hw) as (_ & L1 & L2 & _).
  split; assumption.
Qed.

(** The irradiance of the day branch. *)
Lemma irradiance_range (s : float) :
  (0 <? s) = true -> inRange (-1) 1 s ->
  (0 <? F64.max 0 (1367 * s)) = true /\ (F64.max 0 (1367 * s) <=? 1367) = true.
Proof.
  intros Hpos Hs.
  destruct (inRange_real (-1) 1 s eq_refl eq_refl Hs) as [Fs [_ Hs1]].
  rewrite F2R_1 in Hs1.
  assert (Hs0 : (0 < F2R s)%R).
  { apply (ltb_F2R 0 s eq_refl Fs) in Hpos. rewrite F2R_0 in Hpos. exact Hpos. }
  pose proof (mul_rounds 1367 s eq_refl Fs) as Hr. rewrite F2R_1367 in Hr.
  assert (Hge : (s <=? 1367 * s) = true) by (apply (Rounds_ge _ _ s Hr Fs); lra).
  assert (Hle : (1367 * s <=? 1367) = true)
    by (apply (Rounds_le _ _ 1367 Hr eq_refl); rewrite F2R_1367; lra).
  pose proof (ltb_leb_trans 0 s (1367 * s) Hpos Hge) as Hp.
  destruct (ltb_not_nan _ _ Hp) as [_ Np].
  destruct (max_cases 0 (1367 * s) eq_refl Np) as [[E H]|[E H]]; rewrite E.
  - rewrite (ltb_true_leb_false _ _ Hp) in H. discriminate.
  - split; assumption.
Qed.

(** C2. When the altitude of the returned position is [> 0], its
    irradiance is [> 0] and its azimuth lies in [0, 360). *)
Theorem day_has_irradiance_and_azimuth
  (lat lon : float) (date : DateArg) (pos : SolarPosition float) :
  computeSolarPotential lat lon date = Return pos ->
  (0 <? altitude pos) = true ->
  (0 <? irradiance pos) = true
  /\ (0 <=? azimuth pos) = true /\ (azimuth pos <? 360) = true.
Proof.
  intros Hret Hpos.
  apply computeSolarPotential_Return in Hret.
  destruct Hret as (_ & _ & _ & ->).
  unfold positionOf in *. cbv zeta in *. cbn [altitude irradiance azimuth] in *.
  set (n := getDayOfYear (timeValueOf date)) in *.
  set (decl := declinationOf n) in *.
  set (ha := hourAngleOf lon (timeValueOf date) n) in *.
  set (alt := toDegrees (Math_asin (sinAltOf lat decl ha))) in *.
  change (nlt (lit 0) alt) with (0 <? alt) in *.
  rewrite Hpos.
  destruct (day_facts lat decl ha Hpos) as (Hs & Hr & Halt & Fd & Fh).
  split.
  - on_floats. exact (proj1 (irradiance_range _ Hs Hr)).
  - destruct (azimuthOf_range decl ha alt Fd Fh Halt) as [A1 A2].
    split.
    + exact (leb_trans 0 90 _ eq_refl A1).
    + exact (leb_ltb_trans _ 270 360 A2 eq_refl).
Qed.

(** C10. When the altitude of the returned position is [> 0], its azimuth
    lies in [90, 270]. *)
Theorem azimuth_in_southern_half
  (lat lon : float) (date : DateArg) (pos : SolarPosition float) :
  computeSolarPotential lat lon date = Return pos ->
  (0 <? altitude pos) = true ->
  inRange 90 270 (azimuth pos)
  /\ (azimuth pos <? 90) = false /\ (270 <? azimuth pos) = false.
Proof.
  intros Hret Hpos.
  apply computeSolarPotential_Return in Hret.
  destruct Hret as (_ & _ & _ & ->).
  unfold positionOf in *. cbv zeta in *. cbn [altitude irradiance azimuth] in *.
  set (n := getDayOfYear (timeValueOf date)) in *.
  set (decl := declinationOf n) in *.
  set (ha := hourAngleOf lon (timeValueOf date) n) in *.
  set (alt := toDegrees (Math_asin (sinAltOf lat decl ha))) in *.
  change (nlt (lit 0) alt) with (0 <? alt) in *.
  rewrite Hpos.
  destruct (day_facts lat decl ha Hpos) as (Hs & Hr & Halt & Fd & Fh).
  pose proof (azimuthOf_range decl ha alt Fd Fh Halt) as [A1 A2].
  repeat split; auto using leb_true_ltb_false.
Qed.

End DayOnFloats.

(* ================================================================= *)
(** ** Zenith, panel power and the ranges of the fields on binary64 *)

Section ZenithOnFloats.
Import FloatFacts FloatOrder Dyadic Binary64 DyadicFacts RoundingFacts CanonicalFacts OperationFacts ProductFacts Binary64Facts FloatBounds.
Variable M : HostMath.
Local Hint Extern 0 (Number float) => exact (Float64 M) : typeclass_instances.
Local Open Scope float_scope.



Lemma F2R_below_90 : F2R (90 - 0x1p-45) = (90 - / 35184372088832)%R.
Proof. F2R_const. Qed.

Lemma F2R_above_90 : F2R (90 + 0x1p-45) = (90 + / 35184372088832)%R.
Proof. F2R_const. Qed.

(** For an angle [a] of [-90, 90], [(90 - a) + a] is 90 up to two units in
    the last place of 90. *)
Lemma complement_sum (a : float) :
  inRange (-90) 90 a ->
  inRange 0 180 (90 - a)
  /\ inRange (90 - 0x1p-45) (90 + 0x1p-45) ((90 - a) + a).
Proof.
  intros Ha.
  destruct (inRange_real (-90) 90 a eq_refl eq_refl Ha) as [Fa [Ha1 Ha2]].
  rewrite F2R_m90 in Ha1. rewrite F2R_90 in Ha2.
  pose proof (sub_rounds 90 a eq_refl Fa) as Hz. rewrite F2R_90 in Hz.
  assert (Hv : (F2R 0 <= 90 - F2R a <= F2R 180)%R)
    by (rewrite F2R_0, F2R_180; lra).
  destruct (Rounds_between _ _ 0 180 Hz eq_refl eq_refl Hv) as (Fz & L1 & L2 & _).
  split; [split; assumption|].
  destruct Hz as (_ & _ & Herr).
  assert (Hk : (Rabs (90 - F2R a) < bpow 8)%R).
  { change (bpow 8) with 256%R. apply Rabs_def1; lra. }
  specialize (Herr Fz 8%Z Hk). change (Z.max (8 - 53) (-1074)) with (-45)%Z in Herr.
  change (bpow (-45)) with (/ 35184372088832)%R in Herr.
  pose proof (Rle_abs (F2R (90 - a) - (90 - F2R a))) as E1.
  pose proof (Rle_abs (- (F2R (90 - a) - (90 - F2R a)))) as E2.
  rewrite Rabs_Ropp in E2.
  pose proof (add_rounds (90 - a) a Fz Fa) as Hs.
  assert (Hw : (F2R (90 - 0x1p-45) <= F2R (90 - a) + F2R a <= F2R (90 + 0x1p-45))%R)
    by (rewrite F2R_below_90, F2R_above_90; lra).
  destruct (Rounds_between _ _ (90 - 0x1p-45) (90 + 0x1p-45) Hs eq_refl eq_refl Hw)
    as (_ & S1 & S2 & _).
  split; assumption.
Qed.


End ZenithOnFloats.



Section PanelProduct.
Import FloatFacts FloatOrder Dyadic Binary64 DyadicFacts RoundingFacts CanonicalFacts OperationFacts ProductFacts Binary64Facts FloatBounds.
Variable M : HostMath.
Local Hint Extern 0 (Number float) => exact (Float64 M) : typeclass_instances.
Local Open Scope float_scope.

Lemma computePanelPower_valid (area efficiency irradiance : float) :
  validArea area -> inRange 0 1 efficiency ->
  computePanelPower area efficiency irradiance
  = if irradiance <? 0 then Return 0
    else Return (area * efficiency * irradiance).
Proof.
  intros Ha He. unfold computePanelPower.
  change ((area <? lit 0)%num || negb (Number_isFinite area))
    with ((area <? 0) || negb (is_finite area)).
  change ((efficiency <? lit 0)%num || (efficiency >? lit 1)%num)
    with ((efficiency <? 0) || (1 <? efficiency)).
  change (irradiance <? lit 0)%num with (irradiance <? 0).
  rewrite (area_guard_false _ Ha), (unit_guard_false _ He). reflexivity.
Qed.

(** A number [<= 0] that is not [< 0] is a zero. *)
Lemma zero_of_leb (x : float) :
  (x <=? 0) = true -> (x <? 0) = false -> is_finite x = true /\ F2R x = 0%R.
Proof.
  intros Hle Hlt.
  assert (Fx : is_finite x = true).
  { rewrite is_finite_SF. rewrite leb_spec in Hle. rewrite ltb_spec in Hlt.
    change (Prim2SF 0) with (S754_zero false) in *.
    destruct (Prim2SF x) as [s|[]| |s m e]; try discriminate; reflexivity. }
  split; [exact Fx|].
  apply (leb_F2R x 0 Fx eq_refl) in Hle. rewrite F2R_0 in Hle.
  destruct (Rle_lt_or_eq_dec _ _ Hle) as [Hneg|Hz]; [|exact Hz].
  apply (ltb_F2R x 0 Fx eq_refl) in Hneg. congruence.
Qed.

(** The product of a valid area and an efficiency of [0, 1] is finite,
    between 0 and the area. *)
Lemma area_efficiency_bounds (area efficiency : float) :
  validArea area -> inRange 0 1 efficiency ->
  is_finite (area * efficiency) = true
  /\ (0 <= F2R (area * efficiency) <= F2R area)%R.
Proof.
  intros [Fa Ha] He.
  destruct (inRange_real 0 1 efficiency eq_refl eq_refl He) as [Fe [He0 He1]].
  rewrite F2R_0 in He0. rewrite F2R_1 in He1.
  apply (leb_F2R 0 area eq_refl Fa) in Ha. rewrite F2R_0 in Ha.
  pose proof (mul_rounds area efficiency Fa Fe) as Hr.
  assert (Hv : (F2R 0 <= F2R area * F2R efficiency <= F2R area)%R)
    by (rewrite F2R_0; nra).
  destruct (Rounds_between _ _ 0 area Hr eq_refl Fa Hv) as (F & _ & _ & B).
  rewrite F2R_0 in B. split; assumption.
Qed.

Lemma Rabs_bounds (x b : R) : (Rabs x <= b)%R -> (- b <= x <= b)%R.
Proof.
  intros H. pose proof (Rle_abs x) as H1.
  pose proof (Rle_abs (- x)) as H2. rewrite Rabs_Ropp in H2. lra.
Qed.

(** The product of the code is within 2^-20 of the product of the real
    numbers, for an area up to 2^20 and an irradiance up to 2^11. *)
Lemma product_is_close (area efficiency x : float) :
  validArea area -> inRange 0 1 efficiency ->
  (area <=? 0x1p20) = true -> inRange 0 0x1p11 x ->
  is_finite (area * efficiency * x) = true
  /\ (Rabs (F2R (area * efficiency * x) - F2R area * F2R efficiency * F2R x)
      <= bpow (-20))%R.
Proof.
  intros [Fa Ha] He Hmax Hx.
  destruct (inRange_real 0 1 efficiency eq_refl eq_refl He) as [Fe [He0 He1]].
  rewrite F2R_0 in He0. rewrite F2R_1 in He1.
  destruct (inRange_real 0 0x1p11 x eq_refl eq_refl Hx) as [Fx [Hx0 Hx1]].
  rewrite F2R_0 in Hx0.
  replace (F2R 0x1p11) with 2048%R in Hx1 by (symmetry; F2R_const).
  apply (leb_F2R 0 area eq_refl Fa) in Ha. rewrite F2R_0 in Ha.
  apply (leb_F2R area 0x1p20 Fa eq_refl) in Hmax.
  replace (F2R 0x1p20) with 1048576%R in Hmax by (symmetry; F2R_const).
  pose proof (mul_rounds area efficiency Fa Fe) as H1.
  assert (Hw1 : (F2R 0 <= F2R area * F2R efficiency <= F2R 0x1p20)%R).
  { rewrite F2R_0. replace (F2R 0x1p20) with 1048576%R by (symmetry; F2R_const). nra. }
  destruct (Rounds_between _ _ 0 0x1p20 H1 eq_refl eq_refl Hw1) as (F1 & _ & _ & B1).
  rewrite F2R_0 in B1.
  replace (F2R 0x1p20) with 1048576%R in B1 by (symmetry; F2R_const).
  destruct H1 as (_ & _ & E1). specialize (E1 F1 21%Z).
  assert (K1 : (Rabs (F2R area * F2R efficiency) < bpow 21)%R).
  { rewrite Rabs_pos_eq by nra. unfold bpow. pow_const. nra. }
  specialize (E1 K1). change (Z.max (21 - 53) (-1074)) with (-32)%Z in E1.
  pose proof (mul_rounds (area * efficiency) x F1 Fx) as H2.
  assert (Hw2 : (F2R 0 <= F2R (area * efficiency) * F2R x <= F2R 0x1p31)%R).
  { rewrite F2R_0. replace (F2R 0x1p31) with 2147483648%R by (symmetry; F2R_const). nra. }
  destruct (Rounds_between _ _ 0 0x1p31 H2 eq_refl eq_refl Hw2) as (F2 & _ & _ & B2).
  destruct H2 as (_ & _ & E2). specialize (E2 F2 32%Z).
  assert (K2 : (Rabs (F2R (area * efficiency) * F2R x) < bpow 32)%R).
  { rewrite Rabs_pos_eq by nra. unfold bpow. pow_const. nra. }
  specialize (E2 K2). change (Z.max (32 - 53) (-1074)) with (-21)%Z in E2.
  split; [exact F2|].
  apply Rabs_bounds in E1. apply Rabs_bounds in E2.
  unfold bpow in *. cbn [Z.opp] in *.
  change (Z.pow_pos 2 32) with 4294967296%Z in *.
  change (Z.pow_pos 2 21) with 2097152%Z in *.
  change (Z.pow_pos 2 20) with 1048576%Z in *.
  apply Rabs_le. nra.
Qed.

(** C6, as the code has it: the binary64 product for an irradiance
    [>= 0], 0 for an irradiance [< 0], hence a zero for every irradiance
    [<= 0].  The product is rounded: it is linear in the area and in the
    efficiency up to rounding, within 2^-20 of the product of the real
    numbers for an area up to 2^20 and an irradiance up to 2^11. *)
Theorem panel_power_is_clamped_product (area efficiency : float) :
  validArea area -> inRange 0 1 efficiency ->
  (forall x, (0 <=? x) = true ->
     computePanelPower area efficiency x = Return (area * efficiency * x))
  /\ (forall x, (x <? 0) = true -> computePanelPower area efficiency x = Return 0)
  /\ (forall x, (x <=? 0) = true ->
        exists p, computePanelPower area efficiency x = Return p
                  /\ (p =? 0) = true)
  /\ (forall x, (area <=? 0x1p20) = true -> inRange 0 0x1p11 x ->
        exists p, computePanelPower area efficiency x = Return p
                  /\ is_finite p = true
                  /\ (Rabs (F2R p - F2R area * F2R efficiency * F2R x)
                      <= bpow (-20))%R).
Proof.
  intros Ha He. split; [|split; [|split]]; intros x Hx;
    rewrite (computePanelPower_valid area efficiency x Ha He).
  4: { intros Hr. rewrite (leb_true_ltb_false _ _ (proj1 Hr)).
       eexists. split; [reflexivity|].
       exact (product_is_close area efficiency x Ha He Hx Hr). }
  - rewrite (leb_true_ltb_false _ _ Hx). reflexivity.
  - rewrite Hx. reflexivity.
  - destruct (x <? 0) eqn:E.
    + exists 0. split; reflexivity.
    + eexists. split; [reflexivity|].
      destruct (zero_of_leb x Hx E) as [Fx Hx0].
      destruct (area_efficiency_bounds area efficiency Ha He) as [Fae _].
      pose proof (mul_rounds (area * efficiency) x Fae Fx) as Hr.
      rewrite Hx0, Rmult_0_r in Hr.
      rewrite eqb_leb_leb.
      rewrite (Rounds_le _ _ 0 Hr eq_refl) by (rewrite F2R_0; lra).
      rewrite (Rounds_ge _ _ 0 Hr eq_refl) by (rewrite F2R_0; lra).
      reflexivity.
Qed.

End PanelProduct.

(** C6 fails as the claim states it: the result is not additive in the
    area. *)
Lemma panel_power_is_not_additive :
  exists p p1 p2 : float,
    computePanelPower (N := Float64 RefMath) (1.1 + 1.3)%float 0.2%float 1000%float
      = Return p
    /\ computePanelPower (N := Float64 RefMath) 1.1%float 0.2%float 1000%float
       = Return p1
    /\ computePanelPower (N := Float64 RefMath) 1.3%float 0.2%float 1000%float
       = Return p2
    /\ (p =? p1 + p2)%float = false.
Proof.
  do 3 eexists. repeat split; vm_compute; reflexivity.
Qed.

Lemma panel_power_is_clamped_product_witness :
  (computePanelPower (N := Float64 RefMath) 2 0.2 1000
   = Return (2 * 0.2 * 1000))%float.
Proof.
  apply (proj1 (panel_power_is_clamped_product RefMath 2%float 0.2%float
                  ltac:(split; vm_compute; reflexivity)
                  ltac:(split; vm_compute; reflexivity))).
  vm_compute; reflexivity.
Defined.

(* ================================================================= *)
(** ** The equinox noon of the test suite

    The call [computeSolarPotential(0, 0, date)] at 2025-03-21T12:00:00Z
    for a host library that is accurate at the arguments the call passes
    to it.  The proof follows the computation with brackets: the real
    functions are bracketed by their Taylor polynomials, and every
    rounded operation stays between two constants of the format. *)

Module TrigFacts.
Local Open Scope R_scope.

(** The first Taylor polynomials of sine and cosine bracket them. *)
Lemma sin_cubic (a : R) :
  0 <= a <= 4 -> a - a ^ 3 / 6 <= sin a <= a - a ^ 3 / 6 + a ^ 5 / 120.
Proof.
  intros [H0 H4]. pose proof (pre_sin_bound a 0 H0 H4) as H.
  unfold sin_approx, sin_term in H. simpl in H. lra.
Qed.

Lemma cos_quartic (a : R) :
  -2 <= a <= 2 -> 1 - a ^ 2 / 2 <= cos a <= 1 - a ^ 2 / 2 + a ^ 4 / 24.
Proof.
  intros [H0 H4]. pose proof (pre_cos_bound a 0 H0 H4) as H.
  unfold cos_approx, cos_term in H. simpl in H. lra.
Qed.

Lemma sin_within_arg (a : R) : Rabs a <= 1 -> Rabs (sin a) <= Rabs a.
Proof.
  intros Ha. destruct (Rle_or_lt 0 a) as [Hp|Hn].
  - rewrite (Rabs_pos_eq a Hp) in *.
    destruct (sin_cubic a ltac:(lra)) as [L U].
    assert (0 <= a ^ 3) by (apply pow_le; lra).
    assert (a ^ 3 <= a) by (simpl; nra).
    assert (a ^ 5 <= a ^ 3) by (simpl in *; nra).
    rewrite Rabs_pos_eq; lra.
  - rewrite (Rabs_left a Hn) in *.
    destruct (sin_cubic (- a) ltac:(lra)) as [L U].
    rewrite sin_neg in L, U.
    assert (0 <= (- a) ^ 3) by (apply pow_le; lra).
    assert ((- a) ^ 3 <= - a) by (simpl; nra).
    assert ((- a) ^ 5 <= (- a) ^ 3) by (simpl in *; nra).
    rewrite Rabs_left1; lra.
Qed.

(** Machin-like series for pi, four terms. *)
Lemma PI_bounds : 3.1415926 < PI < 3.1415927.
Proof.
  pose proof (PI_2_3_7_ineq 3) as H.
  unfold tg_alt, PI_2_3_7_tg, Ratan_seq in H. simpl in H. lra.
Qed.

Lemma asin_le (x y : R) : -1 <= x -> x <= y -> y <= 1 -> asin x <= asin y.
Proof.
  intros Hx Hxy Hy.
  destruct (Rle_or_lt (asin x) (asin y)) as [H|H]; [exact H|exfalso].
  pose proof (asin_bound x) as [X1 X2]. pose proof (asin_bound y) as [Y1 Y2].
  pose proof (sin_increasing_1 _ _ Y1 Y2 X1 X2 H) as S.
  rewrite !sin_asin in S by lra. lra.
Qed.

Lemma asin_cos (d : R) : 0 <= d <= PI -> asin (cos d) = PI / 2 - d.
Proof.
  intros Hd. rewrite <- sin_shift. apply asin_sin. lra.
Qed.

End TrigFacts.

Module NoonFacts.
Import FloatFacts FloatOrder Dyadic Binary64 DyadicFacts RoundingFacts CanonicalFacts OperationFacts ProductFacts Binary64Facts FloatBounds TrigFacts.
Local Open Scope float_scope.

(** The real number of a float constant, everywhere. *)
Ltac real_of c :=
  let s := eval vm_compute in (Prim2SF c) in
  change (F2R c) with (SF2R s) in *;
  unfold SF2R, cond_Zopp, bpow in *; cbn [Z.opp] in *;
  repeat match goal with
  | |- context [Z.pow_pos 2 ?p] =>
      let z := eval vm_compute in (Z.pow_pos 2 p) in
      change (Z.pow_pos 2 p) with z
  | H : context [Z.pow_pos 2 ?p] |- _ =>
      let z := eval vm_compute in (Z.pow_pos 2 p) in
      change (Z.pow_pos 2 p) with z in H
  end.

Lemma approximates_bounds (r : float) (v : R) :
  approximates r v ->
  is_finite r = true /\ (v - / 1048576 <= F2R r <= v + / 1048576)%R.
Proof.
  intros [F H]. split; [exact F|].
  change (bpow (-20)) with (/ IZR (Z.pow_pos 2 20))%R in H.
  change (Z.pow_pos 2 20) with 1048576%Z in H.
  pose proof (Rle_abs (F2R r - v)) as H1.
  pose proof (Rle_abs (- (F2R r - v))) as H2. rewrite Rabs_Ropp in H2.
  lra.
Qed.

Lemma abs_F2R (x : float) : F2R (abs x) = Rabs (F2R x).
Proof.
  unfold F2R. rewrite abs_spec.
  destruct (Prim2SF x) as [s|s| |s m e]; simpl SFabs;
    try (simpl; rewrite Rabs_R0; reflexivity).
  rewrite !SF2R_finite. pose proof (mag_pos m e).
  destruct s; [rewrite Rabs_left|rewrite Rabs_pos_eq]; lra.
Qed.

Lemma abs_finite (x : float) : is_finite (abs x) = is_finite x.
Proof.
  rewrite !is_finite_SF, abs_spec. destruct (Prim2SF x); reflexivity.
Qed.


(** Rounding into a bracket of two constants. *)
Tactic Notation "bracket" hyp(Hr) constr(lo) constr(hi) "as" ident(F) ident(B) :=
  let Hw := fresh "Hw" in
  match type of Hr with
  | Rounds ?v _ => assert (Hw : (F2R lo <= v <= F2R hi)%R)
  end;
  [ | destruct (Rounds_between _ _ lo hi Hr eq_refl eq_refl Hw) as (F & _ & _ & B);
      clear Hw ].

(** The declination from the sine of the day angle. *)
Lemma declination_bracket (s : float) :
  is_finite s = true -> (-0.0175 <= F2R s <= 0.0175)%R ->
  is_finite (23.449999999999999 * s) = true
  /\ (-0.42 <= F2R (23.449999999999999 * s) <= 0.42)%R.
Proof.
  intros Fs Hs.
  pose proof (mul_rounds 23.449999999999999 s eq_refl Fs) as Hr.
  bracket Hr (-0.42) (0.42) as F B.
  { real_of 23.449999999999999. real_of (-0.42). real_of 0.42. lra. }
  real_of (-0.42). real_of 0.42. split; [exact F|lra].
Qed.

(** The hour angle at 12:00:00 UTC on the Greenwich meridian. *)
Lemma hourAngle_bracket (s : float) :
  is_finite s = true -> (-0.0175 <= F2R s <= 0.0175)%R ->
  is_finite (15 * (12 + (7.5 * s + 0) / 60 - 12)) = true
  /\ (-0.041 <= F2R (15 * (12 + (7.5 * s + 0) / 60 - 12)) <= 0.041)%R.
Proof.
  intros Fs Hs.
  pose proof (mul_rounds 7.5 s eq_refl Fs) as H1.
  bracket H1 (-0.14) (0.14) as F1 B1.
  { real_of 7.5. real_of (-0.14). real_of 0.14. lra. }
  pose proof (add_rounds _ 0 F1 eq_refl) as H2. rewrite F2R_0 in H2.
  bracket H2 (-0.14) (0.14) as F2 B2.
  { lra. }
  assert (N60 : is_nonzero 60)
    by (apply positive_nonzero; [reflexivity|real_of 60; lra]).
  pose proof (div_rounds _ 60 F2 N60) as H3.
  bracket H3 (-0.0024) (0.0024) as F3 B3.
  { real_of 60. real_of (-0.14). real_of 0.14. real_of (-0.0024). real_of 0.0024. lra. }
  pose proof (add_rounds 12 _ eq_refl F3) as H4.
  bracket H4 (11.9975) (12.0025) as F4 B4.
  { real_of 12. real_of (-0.0024). real_of 0.0024. real_of 11.9975. real_of 12.0025. lra. }
  pose proof (sub_rounds _ 12 F4 eq_refl) as H5.
  bracket H5 (-0.0026) (0.0026) as F5 B5.
  { real_of 12. real_of 11.9975. real_of 12.0025. real_of (-0.0026). real_of 0.0026. lra. }
  pose proof (mul_rounds 15 _ eq_refl F5) as H6.
  bracket H6 (-0.04) (0.04) as F6 B6.
  { real_of 15. real_of (-0.0026). real_of 0.0026. real_of (-0.04). real_of 0.04. lra. }
  real_of (-0.04). real_of 0.04. split; [exact F6|lra].
Qed.


(** Degrees to radians, for the declination and for the hour angle. *)
Lemma radians_of_declination (d : float) :
  is_finite d = true -> (-0.42 <= F2R d <= 0.42)%R ->
  is_finite (d * F64.PI / 180) = true
  /\ (-0.0074 <= F2R (d * F64.PI / 180) <= 0.0074)%R.
Proof.
  intros Fd Hd.
  pose proof (mul_rounds d F64.PI Fd eq_refl) as H1.
  bracket H1 (-1.32) (1.32) as F1 B1.
  { real_of F64.PI. real_of (-1.32). real_of 1.32. lra. }
  assert (N180 : is_nonzero 180)
    by (apply positive_nonzero; [reflexivity|rewrite F2R_180; lra]).
  pose proof (div_rounds _ 180 F1 N180) as H2. rewrite F2R_180 in H2.
  bracket H2 (-0.00734) (0.00734) as F2 B2.
  { real_of (-1.32). real_of 1.32. real_of (-0.00734). real_of 0.00734. lra. }
  real_of (-0.00734). real_of 0.00734. split; [exact F2|lra].
Qed.

Lemma radians_of_hourAngle (h : float) :
  is_finite h = true -> (-0.041 <= F2R h <= 0.041)%R ->
  is_finite (h * F64.PI / 180) = true
  /\ (-0.00074 <= F2R (h * F64.PI / 180) <= 0.00074)%R.
Proof.
  intros Fh Hh.
  pose proof (mul_rounds h F64.PI Fh eq_refl) as H1.
  bracket H1 (-0.13) (0.13) as F1 B1.
  { real_of F64.PI. real_of (-0.13). real_of 0.13. lra. }
  assert (N180 : is_nonzero 180)
    by (apply positive_nonzero; [reflexivity|rewrite F2R_180; lra]).
  pose proof (div_rounds _ 180 F1 N180) as H2. rewrite F2R_180 in H2.
  bracket H2 (-0.00073) (0.00073) as F2 B2.
  { real_of (-0.13). real_of 0.13. real_of (-0.00073). real_of 0.00073. lra. }
  real_of (-0.00073). real_of 0.00073. split; [exact F2|lra].
Qed.

(** An accurate sine or cosine of a small angle. *)
Lemma sine_of_small (s : float) (x b : R) :
  approximates s (sin x) -> (- b <= x <= b)%R -> (b <= 1)%R ->
  is_finite s = true /\ (- b - / 1048576 <= F2R s <= b + / 1048576)%R.
Proof.
  intros Hs Hx Hb. destruct (approximates_bounds _ _ Hs) as [F B].
  split; [exact F|].
  assert (Ha : (Rabs x <= b)%R) by (apply Rabs_le; lra).
  pose proof (sin_within_arg x ltac:(lra)) as Hsin.
  pose proof (Rle_abs (sin x)) as H1.
  pose proof (Rle_abs (- sin x)) as H2. rewrite Rabs_Ropp in H2.
  lra.
Qed.

Lemma cosine_of_small (c : float) (x b : R) :
  approximates c (cos x) -> (- b <= x <= b)%R -> (b <= 1)%R ->
  is_finite c = true
  /\ (1 - b * b / 2 - / 1048576 <= F2R c <= 1 + / 1048576)%R.
Proof.
  intros Hc Hx Hb. destruct (approximates_bounds _ _ Hc) as [F B].
  split; [exact F|].
  destruct (cos_quartic x ltac:(lra)) as [L _].
  pose proof (COS_bound x) as [_ U].
  assert (x ^ 2 <= b * b)%R by (simpl; nra).
  lra.
Qed.


(** The sine of the altitude near the zenith: the clamp of
    [sl * sd + cl * cd * ch]. *)
Lemma sinAlt_bracket (sl sd cl cd ch : float) :
  is_finite sl = true -> is_finite sd = true -> is_finite cl = true ->
  is_finite cd = true -> is_finite ch = true ->
  (-0.000001 <= F2R sl <= 0.000001)%R ->
  (-0.0075 <= F2R sd <= 0.0075)%R ->
  (0.999999 <= F2R cl <= 1.000001)%R ->
  (0.999971 <= F2R cd <= 1.000001)%R ->
  (0.9999987 <= F2R ch <= 1.000001)%R ->
  let s := F64.max (-1) (F64.min 1 (sl * sd + cl * cd * ch)) in
  is_finite s = true /\ (0.999968 <= F2R s <= 1)%R
  /\ s = F64.min 1 (sl * sd + cl * cd * ch).
Proof.
  intros Fsl Fsd Fcl Fcd Fch Hsl Hsd Hcl Hcd Hch s. subst s.
  pose proof (mul_rounds sl sd Fsl Fsd) as H1.
  bracket H1 (-0.00000001) (0.00000001) as F1 B1.
  { real_of (-0.00000001). real_of 0.00000001. nra. }
  pose proof (mul_rounds cl cd Fcl Fcd) as H2.
  bracket H2 (0.99997) (1.000003) as F2 B2.
  { real_of 0.99997. real_of 1.000003. nra. }
  pose proof (mul_rounds _ ch F2 Fch) as H3.
  bracket H3 (0.9999686) (1.000005) as F3 B3.
  { real_of 0.99997. real_of 1.000003. real_of 0.9999686. real_of 1.000005. nra. }
  pose proof (add_rounds _ _ F1 F3) as H4.
  bracket H4 (0.9999685) (1.00001) as F4 B4.
  { real_of (-0.00000001). real_of 0.00000001.
    real_of 0.9999686. real_of 1.000005. real_of 0.9999685. real_of 1.00001. lra. }
  set (raw := sl * sd + cl * cd * ch) in *.
  assert (Nraw : is_nan raw = false) by (apply is_finite_not_nan; exact F4).
  assert (Hm : is_finite (F64.min 1 raw) = true
               /\ (0.999968 <= F2R (F64.min 1 raw) <= 1)%R).
  { destruct (min_cases 1 raw eq_refl Nraw) as [[E _]|[E Hle]]; rewrite E.
    - split; [reflexivity|rewrite F2R_1; lra].
    - split; [exact F4|].
      apply (leb_F2R raw 1 F4 eq_refl) in Hle. rewrite F2R_1 in Hle.
      real_of 0.9999685. lra. }
  destruct Hm as [Fm Bm].
  assert (Nm : is_nan (F64.min 1 raw) = false) by (apply is_finite_not_nan; exact Fm).
  destruct (max_cases (-1) (F64.min 1 raw) eq_refl Nm) as [[E Hle]|[E _]].
  - exfalso. apply (leb_F2R _ (-1) Fm eq_refl) in Hle. rewrite F2R_m1 in Hle. lra.
  - rewrite E. auto.
Qed.


(** An accurate arcsine of a sine within 0.000032 of 1 is within 0.0082
    of a right angle. *)
Lemma arcsine_near_one (a : float) (s : R) :
  approximates a (asin s) -> (0.999968 <= s <= 1)%R ->
  is_finite a = true /\ (1.56269 <= F2R a <= 1.5708)%R.
Proof.
  intros Ha Hs. destruct (approximates_bounds _ _ Ha) as [F B].
  split; [exact F|].
  pose proof PI_bounds as HPI.
  destruct (cos_quartic 0.0081 ltac:(lra)) as [_ U].
  pose proof (COS_bound 0.0081) as [L _].
  assert (Hc : (cos 0.0081 <= s)%R) by (simpl in U; lra).
  pose proof (asin_le _ _ L Hc (proj2 Hs)) as Hle.
  rewrite asin_cos in Hle by lra.
  pose proof (asin_bound s) as [_ Hub].
  lra.
Qed.

(** The altitude, in degrees, of such an arcsine. *)
Lemma altitude_near_zenith (a : float) :
  is_finite a = true -> (1.56269 <= F2R a <= 1.5708)%R ->
  is_finite (a * 180 / F64.PI) = true
  /\ (89.53 <= F2R (a * 180 / F64.PI) <= 90.001)%R.
Proof.
  intros Fa Ha.
  pose proof (mul_rounds a 180 Fa eq_refl) as H1. rewrite F2R_180 in H1.
  bracket H1 (281.284) (282.745) as F1 B1.
  { real_of 281.284. real_of 282.745. lra. }
  assert (NPI : is_nonzero F64.PI)
    by (apply positive_nonzero; [reflexivity|pose proof F2R_PI; lra]).
  pose proof (div_rounds _ F64.PI F1 NPI) as H2.
  bracket H2 (89.535) (90.0006) as F2 B2.
  { real_of 281.284. real_of 282.745. real_of 89.535. real_of 90.0006.
    real_of F64.PI. lra. }
  real_of 89.535. real_of 90.0006. split; [exact F2|lra].
Qed.

Lemma zenith_near_zero (alt : float) :
  is_finite alt = true -> (89.53 <= F2R alt <= 90.001)%R ->
  (abs (90 - alt) <? 0.5) = true.
Proof.
  intros Fa Ha.
  pose proof (sub_rounds 90 alt eq_refl Fa) as H1. rewrite F2R_90 in H1.
  bracket H1 (-0.002) (0.471) as F1 B1.
  { real_of (-0.002). real_of 0.471. lra. }
  apply ltb_F2R; [rewrite abs_finite; exact F1|reflexivity|].
  rewrite abs_F2R. real_of (-0.002). real_of 0.471. real_of 0.5.
  apply Rabs_def1; lra.
Qed.

Lemma irradiance_near_constant (s : float) :
  is_finite s = true -> (0.999968 <= F2R s <= 1)%R ->
  (1350 <? F64.max 0 (1367 * s)) = true.
Proof.
  intros Fs Hs.
  pose proof (mul_rounds 1367 s eq_refl Fs) as H1. rewrite F2R_1367 in H1.
  bracket H1 (1366.9) (1367) as F1 B1.
  { real_of 1366.9. rewrite F2R_1367. lra. }
  assert (N1 : is_nan (1367 * s) = false) by (apply is_finite_not_nan; exact F1).
  destruct (max_cases 0 (1367 * s) eq_refl N1) as [[E Hle]|[E _]]; rewrite E.
  - exfalso. apply (leb_F2R _ 0 F1 eq_refl) in Hle. rewrite F2R_0 in Hle.
    real_of 1366.9. lra.
  - apply ltb_F2R; [reflexivity|exact F1|]. real_of 1350. real_of 1366.9. lra.
Qed.

Lemma magnitude_below (x b : float) (c : R) :
  is_finite x = true -> is_finite b = true ->
  (- c <= F2R x <= c)%R -> (c < F2R b)%R ->
  (abs x <? b) = true /\ (abs x <=? b) = true.
Proof.
  intros Fx Fb Hx Hc.
  assert (H : (Rabs (F2R x) <= c)%R) by (apply Rabs_le; lra).
  split.
  - apply ltb_F2R; [rewrite abs_finite; exact Fx|exact Fb|]. rewrite abs_F2R. lra.
  - apply leb_F2R; [rewrite abs_finite; exact Fx|exact Fb|]. rewrite abs_F2R. lra.
Qed.

End NoonFacts.

Section EquinoxNoon.
Import FloatFacts FloatOrder Dyadic Binary64 DyadicFacts RoundingFacts CanonicalFacts OperationFacts ProductFacts Binary64Facts FloatBounds TrigFacts NoonFacts.
Variable M : HostMath.
Local Hint Extern 0 (Number float) => exact (Float64 M) : typeclass_instances.
Local Open Scope float_scope.

Ltac constant t :=
  let c := eval vm_compute in t in change t with c in *.

(** C4. At latitude 0, longitude 0 and 2025-03-21T12:00:00Z the call
    returns a position with |declination| < 0.5, |90 - altitude| < 0.5,
    |hourAngle| <= 0.1 and irradiance > 1350, for every host library
    that is accurate at the arguments the call passes to it. *)
Theorem equinox_noon_at_origin :
  accurateForAltitude M 0 0 equinoxNoon ->
  exists pos : SolarPosition float,
    computeSolarPotential 0 0 equinoxNoon = Return pos
    /\ (abs (declination pos) <? 0.5) = true
    /\ (abs (90 - altitude pos) <? 0.5) = true
    /\ (abs (hourAngle pos) <=? 0.1) = true
    /\ (1350 <? irradiance pos) = true.
Proof.
  intros HA. exists (positionOf 0 0 (timeValueOf equinoxNoon)).
  split.
  { rewrite computeSolarPotential_unfold.
    replace (latitudeGuard (N := Float64 M) 0) with false by (vm_compute; reflexivity).
    replace (longitudeGuard (N := Float64 M) 0) with false by (vm_compute; reflexivity).
    replace (dateGuard (N := Float64 M) equinoxNoon) with false by (vm_compute; reflexivity).
    reflexivity. }
  unfold accurateForAltitude in HA. cbv zeta in HA.
  unfold positionOf. cbv zeta. cbn [declination altitude hourAngle irradiance zenith].
  assert (En : getDayOfYear (N := Float64 M) (timeValueOf equinoxNoon) = 80)
    by (vm_compute; reflexivity).
  rewrite En in *. clear En.
  unfold declinationOf, hourAngleOf, sinAltOf, clamp, toRadians, toDegrees in *.
  cbv zeta in *. on_floats.
  constant (360 / 365 * (80 - 81) * F64.PI / 180).
  constant (0 * F64.PI / 180).
  constant (@ofInt _ (Float64 M) (getUTCHours (timeValueOf equinoxNoon)) +
            @ofInt _ (Float64 M) (getUTCMinutes (timeValueOf equinoxNoon)) / 60 +
            @ofInt _ (Float64 M) (getUTCSeconds (timeValueOf equinoxNoon)) / 3600).
  constant (4 * (0 - 15 * @Math_round _ (Float64 M) (0 / 15))).
  set (s0 := host_sin M (-0.017214206321039961)) in *.
  set (decl := 23.449999999999999 * s0) in *.
  set (ha := 15 * (12 + (7.5 * s0 + 0) / 60 - 12)) in *.
  set (declRad := decl * F64.PI / 180) in *.
  set (haRad := ha * F64.PI / 180) in *.
  set (raw := host_sin M 0 * host_sin M declRad
              + host_cos M 0 * host_cos M declRad * host_cos M haRad) in *.
  set (sinAlt := F64.max (-1) (F64.min 1 raw)) in *.
  set (alt := host_asin M sinAlt * 180 / F64.PI) in *.
  destruct HA as (A0 & Asl & Acl & Asd & Acd & Ach & Aasin).
  (* the sine of the day angle *)
  destruct (sine_of_small s0 _ 0.0173 A0) as [Fs0 Bs0].
  { real_of (-0.017214206321039961). lra. }
  { lra. }
  assert (Hs0 : (-0.0175 <= F2R s0 <= 0.0175)%R) by lra.
  destruct (declination_bracket s0 Fs0 Hs0) as [Fd Bd]. fold decl in Fd, Bd.
  destruct (hourAngle_bracket s0 Fs0 Hs0) as [Fh Bh]. fold ha in Fh, Bh.
  destruct (radians_of_declination decl Fd Bd) as [Fdr Bdr]. fold declRad in Fdr, Bdr.
  destruct (radians_of_hourAngle ha Fh Bh) as [Fhr Bhr]. fold haRad in Fhr, Bhr.
  (* the five factors of the sine of the altitude *)
  rewrite F2R_0 in Asl, Acl.
  destruct (sine_of_small _ _ 0 Asl ltac:(lra) ltac:(lra)) as [Fsl Bsl].
  destruct (cosine_of_small _ _ 0 Acl ltac:(lra) ltac:(lra)) as [Fcl Bcl].
  destruct (sine_of_small _ _ 0.0074 Asd ltac:(lra) ltac:(lra)) as [Fsd Bsd].
  destruct (cosine_of_small _ _ 0.0074 Acd ltac:(lra) ltac:(lra)) as [Fcd Bcd].
  destruct (cosine_of_small _ _ 0.00074 Ach ltac:(lra) ltac:(lra)) as [Fch Bch].
  destruct (sinAlt_bracket _ _ _ _ _ Fsl Fsd Fcl Fcd Fch
              ltac:(lra) ltac:(lra) ltac:(lra) ltac:(lra) ltac:(lra))
    as (Fsa & Bsa & _).
  fold raw in Fsa, Bsa. fold sinAlt in Fsa, Bsa.
  destruct (arcsine_near_one _ _ Aasin Bsa) as [Fa Ba].
  destruct (altitude_near_zenith _ Fa Ba) as [Falt Balt]. fold alt in Falt, Balt.
  assert (Hday : (0 <? alt) = true).
  { apply ltb_F2R; [reflexivity|exact Falt|]. rewrite F2R_0. lra. }
  rewrite Hday.
  split; [|split; [|split]].
  - apply (magnitude_below decl 0.5 0.42 Fd eq_refl); [lra|real_of 0.5; lra].
  - exact (zenith_near_zero alt Falt Balt).
  - apply (magnitude_below ha 0.10000000000000001 0.041 Fh eq_refl);
      [lra|real_of 0.10000000000000001; lra].
  - exact (irradiance_near_constant sinAlt Fsa Bsa).
Qed.
End EquinoxNoon.

Module ReferenceFacts.
Import FloatFacts FloatOrder Dyadic Binary64 DyadicFacts RoundingFacts CanonicalFacts OperationFacts ProductFacts Binary64Facts FloatBounds TrigFacts NoonFacts.
Local Open Scope R_scope.

Lemma fourth_power_small (x : R) :
  - / 32 <= x <= / 32 -> 0 <= x * x * (x * x) <= / 1048576.
Proof.
  intros Hx.
  assert (Ha : 0 <= x * x <= / 1024) by nra.
  nra.
Qed.

Lemma fifth_power_small (x : R) :
  0 <= x <= / 32 -> 0 <= x * x * x * x * x <= / 33554432.
Proof.
  intros Hx.
  pose proof (fourth_power_small x ltac:(lra)) as Hb.
  replace (x * x * x * x * x) with (x * x * (x * x) * x) by ring.
  nra.
Qed.

(** A number close to the Taylor polynomial of a small angle is close to
    its sine or cosine. *)
Lemma near_sine (r x : R) :
  - / 32 <= x <= / 32 ->
  - / 2097152 <= r - (x - x * x * x / 6) <= / 2097152 ->
  Rabs (r - sin x) <= / 1048576.
Proof.
  intros Hx Hr. apply Rabs_le.
  destruct (Rle_or_lt 0 x) as [Hp|Hn].
  - destruct (sin_cubic x ltac:(lra)) as [L U]. simpl in L, U.
    pose proof (fifth_power_small x ltac:(lra)).
    lra.
  - destruct (sin_cubic (- x) ltac:(lra)) as [L U]. rewrite sin_neg in L, U.
    simpl in L, U.
    pose proof (fifth_power_small (- x) ltac:(lra)).
    lra.
Qed.

Lemma near_cosine (r x : R) :
  - / 32 <= x <= / 32 ->
  - / 2097152 <= r - (1 - x * x / 2) <= / 2097152 ->
  Rabs (r - cos x) <= / 1048576.
Proof.
  intros Hx Hr. apply Rabs_le.
  destruct (cos_quartic x ltac:(lra)) as [L U]. simpl in L, U.
  pose proof (fourth_power_small x Hx).
  lra.
Qed.

(** A number close to [pi/2 - y] is close to the arcsine of a number
    close to the cosine of [y]. *)
Lemma near_arcsine (r s y d : R) :
  0 <= d -> 0 <= y - d -> y + d <= 1 -> 0 <= s <= 1 ->
  1 - (y + d) * (y + d) / 2 + (y + d) * (y + d) * ((y + d) * (y + d)) / 24 <= s ->
  s <= 1 - (y - d) * (y - d) / 2 ->
  1.57079635 - y - (/ 1048576 - d) <= r <= 1.5707963 - y + (/ 1048576 - d) ->
  Rabs (r - asin s) <= / 1048576.
Proof.
  intros Hd Hy1 Hy2 Hs Hlo Hhi Hr.
  pose proof PI_bounds as HPI.
  destruct (cos_quartic (y + d) ltac:(lra)) as [_ U]. simpl in U.
  destruct (cos_quartic (y - d) ltac:(lra)) as [L _]. simpl in L.
  pose proof (COS_bound (y + d)) as [L1 _].
  assert (H1 : asin (cos (y + d)) <= asin s) by (apply asin_le; lra).
  assert (H2 : asin s <= asin (cos (y - d))).
  { apply asin_le; [lra|lra|]. apply COS_bound. }
  rewrite asin_cos in H1 by lra. rewrite asin_cos in H2 by lra.
  apply Rabs_le. lra.
Qed.


(** The real number of a closed float expression. *)
Ltac float_values :=
  repeat match goal with
  | |- context [F2R ?t] =>
      let s := eval vm_compute in (Prim2SF t) in
      replace (F2R t) with (SF2R s)
        by (unfold F2R; apply f_equal; vm_compute; reflexivity)
  end;
  unfold SF2R, cond_Zopp, bpow; cbn [Z.opp];
  repeat match goal with
  | |- context [Z.pow_pos 2 ?p] =>
      let z := eval vm_compute in (Z.pow_pos 2 p) in
      change (Z.pow_pos 2 p) with z
  end.

(** The reference library is accurate at the seven arguments of the call
    at the equinox noon. *)
Lemma RefMath_accurate_at_equinox_noon :
  accurateForAltitude RefMath 0%float 0%float equinoxNoon.
Proof.
  unfold accurateForAltitude, approximates. cbv zeta.
  cbn [Math_sin Math_cos Math_asin Float64 RefMath host_sin host_cos host_asin].
  repeat split; try (vm_compute; reflexivity); float_values.
  - apply near_sine; lra.
  - apply near_sine; lra.
  - apply near_cosine; lra.
  - apply near_sine; lra.
  - apply near_cosine; lra.
  - apply near_cosine; lra.
  - apply (near_arcsine _ _ 0.00706756 0.0000003); lra.
Qed.

End ReferenceFacts.

Lemma equinox_noon_at_origin_witness :
  exists pos : SolarPosition float,
    computeSolarPotential (N := Float64 RefMath) 0%float 0%float equinoxNoon
      = Return pos
    /\ (abs (declination pos) <? 0.5)%float = true
    /\ (abs (90 - altitude pos) <? 0.5)%float = true
    /\ (abs (hourAngle pos) <=? 0.1)%float = true
    /\ (1350 <? irradiance pos)%float = true.
Proof.
  exact (equinox_noon_at_origin RefMath
           ReferenceFacts.RefMath_accurate_at_equinox_noon).
Defined.

Section RangesOnFloats.
Import FloatFacts FloatOrder Dyadic Binary64 DyadicFacts RoundingFacts CanonicalFacts OperationFacts ProductFacts Binary64Facts FloatBounds.
Variable M : HostMath.
Hypothesis HS : HostSpec M.
Local Hint Extern 0 (Number float) => exact (Float64 M) : typeclass_instances.
Local Open Scope float_scope.

Lemma F2R_2345 : (0 < F2R 23.45)%R /\ F2R (-23.45) = (- F2R 23.45)%R.
Proof.
  unfold F2R.
  let s := eval vm_compute in (Prim2SF 23.45) in change (Prim2SF 23.45) with s.
  let s := eval vm_compute in (Prim2SF (-23.45)) in change (Prim2SF (-23.45)) with s.
  pow_const. split; lra.
Qed.

Lemma declinationOf_range (n : float) :
  is_nan (declinationOf n) = true \/ inRange (-23.45) 23.45 (declinationOf n).
Proof.
  unfold declinationOf. on_floats.
  set (arg := toRadians _).
  destruct (is_finite arg) eqn:Fa.
  - right. pose proof (spec_sin_finite M HS arg Fa) as Hs.
    destruct (inRange_real (-1) 1 _ eq_refl eq_refl Hs) as [Fs [Hs1 Hs2]].
    rewrite F2R_m1 in Hs1. rewrite F2R_1 in Hs2.
    pose proof (mul_rounds 23.45 _ eq_refl Fs) as Hr.
    destruct F2R_2345 as [Hc Hm].
    assert (Hv : (F2R (-23.45) <= F2R 23.45 * F2R (host_sin M arg) <= F2R 23.45)%R)
      by (rewrite Hm; nra).
    destruct (Rounds_between _ _ (-23.45) 23.45 Hr eq_refl eq_refl Hv)
      as (_ & L1 & L2 & _).
    split; assumption.
  - left. rewrite (is_nan_true _ (spec_sin_other M HS arg Fa)), mul_nan_r.
    reflexivity.
Qed.

Lemma altitude_range (s : float) :
  let alt := toDegrees (host_asin M (F64.max (-1) (F64.min 1 s))) in
  is_nan alt = true \/ (inRange (-90) 90 alt /\ inRange 0 180 (90 - alt)).
Proof.
  intros alt. subst alt. destruct (is_nan s) eqn:Ns.
  - left. unfold toDegrees. on_floats.
    assert (Hc : is_nan (F64.max (-1) (F64.min 1 s)) = true).
    { unfold F64.min. rewrite Ns, orb_true_r. reflexivity. }
    rewrite (is_nan_true _ (spec_asin_nan M HS _ Hc)), mul_nan_l, div_nan_l.
    reflexivity.
  - right.
    pose proof (clamp_range s (-1) 1 eq_refl Ns) as Hc.
    pose proof (spec_asin_degrees M HS _ Hc) as Ha.
    split; [exact Ha|]. exact (proj1 (complement_sum _ Ha)).
Qed.

(** On binary64, for a host library within [HostSpec], every field of a
    returned position is NaN or within its range: the declination in
    [-23.45, 23.45], the altitude in [-90, 90] and then the zenith in
    [0, 180], the azimuth in [90, 270]; the irradiance is always between 0
    and the solar constant 1367. *)
Theorem position_fields_are_within_range
  (lat lon : float) (date : DateArg) (pos : SolarPosition float) :
  computeSolarPotential lat lon date = Return pos ->
  (is_nan (declination pos) = true \/ inRange (-23.45) 23.45 (declination pos))
  /\ (is_nan (altitude pos) = true
      \/ (inRange (-90) 90 (altitude pos) /\ inRange 0 180 (zenith pos)))
  /\ (is_nan (azimuth pos) = true \/ inRange 90 270 (azimuth pos))
  /\ inRange 0 1367 (irradiance pos).
Proof.
  intros Hret.
  apply computeSolarPotential_Return in Hret.
  destruct Hret as (_ & _ & _ & ->).
  unfold positionOf. cbv zeta. cbn [declination altitude zenith azimuth irradiance].
  set (n := getDayOfYear (timeValueOf date)).
  set (decl := declinationOf n).
  set (ha := hourAngleOf lon (timeValueOf date) n).
  split; [apply declinationOf_range|].
  split.
  { unfold sinAltOf, clamp. on_floats. apply altitude_range. }
  set (alt := toDegrees (Math_asin (sinAltOf lat decl ha))).
  change (nlt (lit 0) alt) with (0 <? alt).
  destruct (0 <? alt) eqn:Hpos.
  - destruct (day_facts M HS lat decl ha Hpos) as (Hs & Hr & Halt & Fd & Fh).
    split; [right; exact (azimuthOf_range M HS decl ha alt Fd Fh Halt)|].
    on_floats. destruct (irradiance_range _ Hs Hr) as [I1 I2].
    split; [apply ltb_leb; exact I1|exact I2].
  - split; [left; reflexivity|]. split; reflexivity.
Qed.

End RangesOnFloats.

Lemma day_has_irradiance_and_azimuth_witness :
  exists pos : SolarPosition float,
    computeSolarPotential (N := Float64 (withinSpec RefMath)) 0%float 0%float
      equinoxNoon = Return pos
    /\ (0 <? altitude pos)%float = true
    /\ (0 <? irradiance pos)%float = true
    /\ (0 <=? azimuth pos)%float = true /\ (azimuth pos <? 360)%float = true.
Proof.
  eexists. split; [vm_compute; reflexivity|].
  split; [vm_compute; reflexivity|].
  apply (day_has_irradiance_and_azimuth (withinSpec RefMath)
           (HostFacts.withinSpec_meets RefMath) 0%float 0%float equinoxNoon);
    vm_compute; reflexivity.
Defined.

Lemma azimuth_in_southern_half_witness :
  exists pos : SolarPosition float,
    computeSolarPotential (N := Float64 (withinSpec RefMath)) 0%float 0%float
      equinoxNoon = Return pos
    /\ (0 <? altitude pos)%float = true
    /\ inRange 90 270 (azimuth pos)
    /\ (azimuth pos <? 90)%float = false /\ (270 <? azimuth pos)%float = false.
Proof.
  eexists. split; [vm_compute; reflexivity|].
  split; [vm_compute; reflexivity|].
  apply (azimuth_in_southern_half (withinSpec RefMath)
           (HostFacts.withinSpec_meets RefMath) 0%float 0%float equinoxNoon);
    vm_compute; reflexivity.
Defined.

Lemma position_fields_are_within_range_witness :
  exists pos : SolarPosition float,
    computeSolarPotential (N := Float64 (withinSpec RefMath)) 0%float 0%float
      equinoxNoon = Return pos
    /\ (is_nan (declination pos) = true \/ inRange (-23.45) 23.45 (declination pos))
    /\ (is_nan (altitude pos) = true
        \/ (inRange (-90) 90 (altitude pos) /\ inRange 0 180 (zenith pos)))
    /\ (is_nan (azimuth pos) = true \/ inRange 90 270 (azimuth pos))
    /\ inRange 0 1367 (irradiance pos).
Proof.
  eexists. split; [vm_compute; reflexivity|].
  apply (position_fields_are_within_range (withinSpec RefMath)
           (HostFacts.withinSpec_meets RefMath) 0%float 0%float equinoxNoon).
  vm_compute; reflexivity.
Defined.

Section PowerOfPosition.
Import FloatFacts FloatOrder Dyadic Binary64 DyadicFacts RoundingFacts CanonicalFacts OperationFacts ProductFacts Binary64Facts FloatBounds.
Variable M : HostMath.
Hypothesis HS : HostSpec M.
Local Hint Extern 0 (Number float) => exact (Float64 M) : typeclass_instances.
Local Open Scope float_scope.

(** The two functions compose on binary64: the irradiance of a returned
    position is never rejected and never clamped by [computePanelPower];
    the power is the product, it is not negative and not NaN, and it is a
    zero when the sun is not above the horizon. *)
Theorem panel_power_of_a_position
  (lat lon : float) (date : DateArg) (pos : SolarPosition float)
  (area efficiency : float) :
  computeSolarPotential lat lon date = Return pos ->
  validArea area -> inRange 0 1 efficiency ->
  exists p : float,
    computePanelPower area efficiency (irradiance pos) = Return p
    /\ p = area * efficiency * irradiance pos
    /\ (0 <=? p) = true
    /\ ((altitude pos <=? 0) = true -> (p =? 0) = true).
Proof.
  intros Hret Ha He.
  apply computeSolarPotential_Return in Hret.
  destruct Hret as (_ & _ & _ & ->).
  unfold positionOf. cbv zeta. cbn [altitude irradiance].
  set (n := getDayOfYear (timeValueOf date)).
  set (decl := declinationOf n).
  set (ha := hourAngleOf lon (timeValueOf date) n).
  set (alt := toDegrees (Math_asin (sinAltOf lat decl ha))).
  change (nlt (lit 0) alt) with (0 <? alt).
  set (irr := if 0 <? alt then Math_max (lit 0) (lit 1367 * sinAltOf lat decl ha)%num
              else lit 0).
  assert (Hirr : inRange 0 1367 irr /\ ((0 <? alt) = false -> irr = 0)).
  { unfold irr. destruct (0 <? alt) eqn:Hpos.
    - destruct (day_facts M HS lat decl ha Hpos) as (Hs & Hr & _).
      on_floats. destruct (irradiance_range _ Hs Hr) as [I1 I2].
      split; [split; [apply ltb_leb; exact I1|exact I2]|discriminate].
    - split; [split; reflexivity|reflexivity]. }
  destruct Hirr as [[I0 I1] Hnight].
  destruct (inRange_real 0 1367 irr eq_refl eq_refl (conj I0 I1)) as [Fi [Hi0 _]].
  rewrite F2R_0 in Hi0.
  rewrite (computePanelPower_valid M area efficiency irr Ha He).
  rewrite (leb_true_ltb_false _ _ I0).
  eexists. split; [reflexivity|]. split; [reflexivity|].
  destruct (area_efficiency_bounds area efficiency Ha He) as (Fae & Hae0 & _).
  pose proof (mul_rounds (area * efficiency) irr Fae Fi) as Hr.
  split.
  - apply (Rounds_ge _ _ 0 Hr eq_refl). rewrite F2R_0. nra.
  - intros Hle. rewrite (Hnight (leb_true_ltb_false _ _ Hle)) in *.
    rewrite F2R_0, Rmult_0_r in Hr.
    rewrite eqb_leb_leb.
    rewrite (Rounds_le _ _ 0 Hr eq_refl) by (rewrite F2R_0; lra).
    rewrite (Rounds_ge _ _ 0 Hr eq_refl) by (rewrite F2R_0; lra).
    reflexivity.
Qed.

End PowerOfPosition.

Lemma panel_power_of_a_position_witness :
  exists (pos : SolarPosition float) (p : float),
    computeSolarPotential (N := Float64 (withinSpec RefMath)) 0%float 0%float
      equinoxNoon = Return pos
    /\ computePanelPower (N := Float64 (withinSpec RefMath)) 2%float 0.2%float
         (irradiance pos) = Return p
    /\ p = (2 * 0.2 * irradiance pos)%float
    /\ (0 <=? p)%float = true
    /\ ((altitude pos <=? 0)%float = true -> (p =? 0)%float = true).
Proof.
  eexists.
  destruct (panel_power_of_a_position (withinSpec RefMath)
              (HostFacts.withinSpec_meets RefMath) 0%float 0%float equinoxNoon _
              2%float 0.2%float ltac:(vm_compute; reflexivity)
              ltac:(split; vm_compute; reflexivity)
              ltac:(split; vm_compute; reflexivity)) as (p & H).
  exists p. split; [vm_compute; reflexivity|]. exact H.
Defined.

(* ================================================================= *)
(** ** Conversions and the energy formula up to rounding *)

Section Conversions.
Import FloatFacts FloatOrder Dyadic Binary64 DyadicFacts RoundingFacts CanonicalFacts OperationFacts ProductFacts Binary64Facts FloatBounds NoonFacts.
Variable M : HostMath.
Local Hint Extern 0 (Number float) => exact (Float64 M) : typeclass_instances.
Local Open Scope float_scope.

(** The error of a rounded operation whose exact result is below [2^k]. *)
Lemma Rounds_error (v : R) (r : float) (k : Z) :
  Rounds v r -> is_finite r = true -> (Rabs v < bpow k)%R ->
  (- bpow (Z.max (k - 53) (-1074)) <= F2R r - v <= bpow (Z.max (k - 53) (-1074)))%R.
Proof.
  intros (_ & _ & E) F K. apply Rabs_bounds. exact (E F k K).
Qed.

Lemma below (v b : R) : (- b < v < b)%R -> (Rabs v < b)%R.
Proof. intros H. apply Rabs_def1; lra. Qed.

Lemma degrees_of_radians_close (x : float) :
  inRange (-360) 360 x ->
  is_finite (x * F64.PI / 180 * 180 / F64.PI) = true
  /\ (Rabs (F2R (x * F64.PI / 180 * 180 / F64.PI) - F2R x) <= bpow (-41))%R.
Proof.
  intros Hx.
  destruct (inRange_real (-360) 360 x eq_refl eq_refl Hx) as [Fx [Hlo Hhi]].
  rewrite F2R_m360 in Hlo. rewrite F2R_360 in Hhi.
  assert (N180 : is_nonzero 180)
    by (apply positive_nonzero; [reflexivity|rewrite F2R_180; lra]).
  assert (NPI : is_nonzero F64.PI)
    by (apply positive_nonzero; [reflexivity|pose proof F2R_PI; lra]).
  pose proof (mul_rounds x F64.PI Fx eq_refl) as H1.
  bracket H1 (-1200) (1200) as F1 B1.
  { real_of F64.PI. real_of (-1200). real_of 1200. lra. }
  pose proof (Rounds_error _ _ 11 H1 F1) as E1.
  pose proof (div_rounds _ 180 F1 N180) as H2. rewrite F2R_180 in H2.
  bracket H2 (-7) (7) as F2 B2.
  { real_of (-1200). real_of 1200. real_of (-7). real_of 7. lra. }
  pose proof (Rounds_error _ _ 3 H2 F2) as E2.
  pose proof (mul_rounds _ 180 F2 eq_refl) as H3. rewrite F2R_180 in H3.
  bracket H3 (-1300) (1300) as F3 B3.
  { real_of (-7). real_of 7. real_of (-1300). real_of 1300. lra. }
  pose proof (Rounds_error _ _ 11 H3 F3) as E3.
  pose proof (div_rounds _ F64.PI F3 NPI) as H4.
  bracket H4 (-500) (500) as F4 B4.
  { real_of (-1300). real_of 1300. real_of (-500). real_of 500. real_of F64.PI. lra. }
  pose proof (Rounds_error _ _ 9 H4 F4) as E4.
  split; [exact F4|].
  change (Z.max (11 - 53) (-1074)) with (-42)%Z in *.
  change (Z.max (3 - 53) (-1074)) with (-50)%Z in *.
  change (Z.max (9 - 53) (-1074)) with (-44)%Z in *.
  real_of (-1200). real_of 1200. real_of (-7). real_of 7.
  real_of (-1300). real_of 1300. real_of (-500). real_of 500. real_of F64.PI.
  specialize (E1 ltac:(apply below; lra)).
  specialize (E2 ltac:(apply below; lra)).
  specialize (E3 ltac:(apply below; lra)).
  specialize (E4 ltac:(apply below; lra)).
  apply Rabs_le. lra.
Qed.


Lemma radians_of_degrees_close (x : float) :
  inRange (-360) 360 x ->
  is_finite (x * 180 / F64.PI * F64.PI / 180) = true
  /\ (Rabs (F2R (x * 180 / F64.PI * F64.PI / 180) - F2R x) <= bpow (-41))%R.
Proof.
  intros Hx.
  destruct (inRange_real (-360) 360 x eq_refl eq_refl Hx) as [Fx [Hlo Hhi]].
  rewrite F2R_m360 in Hlo. rewrite F2R_360 in Hhi.
  assert (N180 : is_nonzero 180)
    by (apply positive_nonzero; [reflexivity|rewrite F2R_180; lra]).
  assert (NPI : is_nonzero F64.PI)
    by (apply positive_nonzero; [reflexivity|pose proof F2R_PI; lra]).
  pose proof (mul_rounds x 180 Fx eq_refl) as H1. rewrite F2R_180 in H1.
  bracket H1 (-64800) (64800) as F1 B1.
  { real_of (-64800). real_of 64800. lra. }
  pose proof (Rounds_error _ _ 16 H1 F1) as E1.
  pose proof (div_rounds _ F64.PI F1 NPI) as H2.
  bracket H2 (-20700) (20700) as F2 B2.
  { real_of (-64800). real_of 64800. real_of (-20700). real_of 20700.
    real_of F64.PI. lra. }
  pose proof (Rounds_error _ _ 15 H2 F2) as E2.
  pose proof (mul_rounds _ F64.PI F2 eq_refl) as H3.
  bracket H3 (-65100) (65100) as F3 B3.
  { real_of (-20700). real_of 20700. real_of (-65100). real_of 65100.
    real_of F64.PI. lra. }
  pose proof (Rounds_error _ _ 16 H3 F3) as E3.
  pose proof (div_rounds _ 180 F3 N180) as H4. rewrite F2R_180 in H4.
  bracket H4 (-362) (362) as F4 B4.
  { real_of (-65100). real_of 65100. real_of (-362). real_of 362. lra. }
  pose proof (Rounds_error _ _ 9 H4 F4) as E4.
  split; [exact F4|].
  change (Z.max (16 - 53) (-1074)) with (-37)%Z in *.
  change (Z.max (15 - 53) (-1074)) with (-38)%Z in *.
  change (Z.max (9 - 53) (-1074)) with (-44)%Z in *.
  real_of (-64800). real_of 64800. real_of (-20700). real_of 20700.
  real_of (-65100). real_of 65100. real_of (-362). real_of 362. real_of F64.PI.
  specialize (E1 ltac:(apply below; lra)).
  specialize (E2 ltac:(apply below; lra)).
  specialize (E3 ltac:(apply below; lra)).
  specialize (E4 ltac:(apply below; lra)).
  apply Rabs_le. lra.
Qed.

(** On binary64 [toDegrees] and [toRadians] undo each other up to
    rounding, not exactly: for an angle of [-360, 360] the round trip is
    within 2^-41 of the angle, and it turns 30 degrees into
    29.999999999999996. *)
Theorem degrees_radians_round_trip_up_to_rounding :
  (forall x : float, inRange (-360) 360 x ->
     is_finite (toDegrees (toRadians x)) = true
     /\ (Rabs (F2R (toDegrees (toRadians x)) - F2R x) <= bpow (-41))%R
     /\ is_finite (toRadians (toDegrees x)) = true
     /\ (Rabs (F2R (toRadians (toDegrees x)) - F2R x) <= bpow (-41))%R)
  /\ (toDegrees (toRadians 30) =? 30) = false
  /\ (toRadians (toDegrees 180) =? 180) = false.
Proof.
  split; [|split; vm_compute; reflexivity].
  intros x Hx. unfold toDegrees, toRadians. on_floats.
  destruct (degrees_of_radians_close x Hx) as [F1 E1].
  destruct (radians_of_degrees_close x Hx) as [F2 E2].
  repeat split; assumption.
Qed.

End Conversions.

Lemma degrees_radians_round_trip_up_to_rounding_witness :
  (Rabs (Binary64.F2R (toDegrees (N := Float64 RefMath)
                         (toRadians (N := Float64 RefMath) 30%float))
         - Binary64.F2R 30%float) <= Dyadic.bpow (-41))%R.
Proof.
  apply (proj1 (degrees_radians_round_trip_up_to_rounding RefMath) 30%float).
  split; vm_compute; reflexivity.
Defined.

Section EnergyProduct.
Import FloatFacts FloatOrder Dyadic Binary64 DyadicFacts RoundingFacts CanonicalFacts OperationFacts ProductFacts Binary64Facts FloatBounds NoonFacts.
Variable M : HostMath.
Local Hint Extern 0 (Number float) => exact (Float64 M) : typeclass_instances.
Local Open Scope float_scope.

Lemma product_bound (x y a b : R) :
  (- a <= x <= a)%R -> (0 <= y <= b)%R -> (- (a * b) <= x * y <= a * b)%R.
Proof.
  intros Hx Hy.
  assert (0 <= (a - x) * y)%R by (apply Rmult_le_pos; lra).
  assert (0 <= (a + x) * y)%R by (apply Rmult_le_pos; lra).
  assert (0 <= a * (b - y))%R by (apply Rmult_le_pos; lra).
  lra.
Qed.

Lemma energy_product_is_close (a e i h p : float) :
  validArea a -> inRange 0 1 e -> inRange 0 1 p ->
  (a <=? 0x1p20) = true -> inRange 0 0x1p11 i -> inRange 0 0x1p14 h ->
  is_finite (a * e * (i * h / 1000) * p) = true
  /\ (Rabs (F2R (a * e * (i * h / 1000) * p)
            - F2R a * F2R e * (F2R i * F2R h / 1000) * F2R p)
      <= bpow (-13))%R.
Proof.
  intros [Fa Ha] He Hp Hmax Hi Hh.
  destruct (inRange_real 0 1 e eq_refl eq_refl He) as [Fe [He0 He1]].
  destruct (inRange_real 0 1 p eq_refl eq_refl Hp) as [Fp [Hp0 Hp1]].
  destruct (inRange_real 0 0x1p11 i eq_refl eq_refl Hi) as [Fi [Hi0 Hi1]].
  destruct (inRange_real 0 0x1p14 h eq_refl eq_refl Hh) as [Fh [Hh0 Hh1]].
  apply (leb_F2R 0 a eq_refl Fa) in Ha.
  apply (leb_F2R a 0x1p20 Fa eq_refl) in Hmax.
  rewrite F2R_0, ?F2R_1 in *.
  real_of 0x1p11. real_of 0x1p14. real_of 0x1p20.
  assert (N1000 : is_nonzero 1000)
    by (apply positive_nonzero; [reflexivity|real_of 1000; lra]).
  (* area * efficiency *)
  pose proof (mul_rounds a e Fa Fe) as H1.
  bracket H1 (0) (0x1p20) as F1 B1.
  { rewrite F2R_0. real_of 0x1p20. nra. }
  pose proof (Rounds_error _ _ 21 H1 F1) as E1.
  (* irradiance * hours / 1000 *)
  pose proof (mul_rounds i h Fi Fh) as H2.
  bracket H2 (0) (0x1p25) as F2 B2.
  { rewrite F2R_0. real_of 0x1p25. nra. }
  pose proof (Rounds_error _ _ 26 H2 F2) as E2.
  pose proof (div_rounds _ 1000 F2 N1000) as H3.
  bracket H3 (0) (0x1p16) as F3 B3.
  { rewrite F2R_0 in *. real_of 0x1p25. real_of 0x1p16. real_of 1000. lra. }
  pose proof (Rounds_error _ _ 16 H3 F3) as E3.
  (* the two products *)
  pose proof (mul_rounds _ _ F1 F3) as H4.
  bracket H4 (0) (0x1p36) as F4 B4.
  { rewrite F2R_0 in *. real_of 0x1p20. real_of 0x1p16. real_of 0x1p36. nra. }
  pose proof (Rounds_error _ _ 37 H4 F4) as E4.
  pose proof (mul_rounds _ p F4 Fp) as H5.
  bracket H5 (0) (0x1p36) as F5 B5.
  { rewrite F2R_0 in *. real_of 0x1p36. nra. }
  pose proof (Rounds_error _ _ 37 H5 F5) as E5.
  split; [exact F5|].
  change (Z.max (21 - 53) (-1074)) with (-32)%Z in *.
  change (Z.max (26 - 53) (-1074)) with (-27)%Z in *.
  change (Z.max (16 - 53) (-1074)) with (-37)%Z in *.
  change (Z.max (37 - 53) (-1074)) with (-16)%Z in *.
  rewrite F2R_0 in *.
  real_of 0x1p20. real_of 0x1p25. real_of 0x1p16. real_of 0x1p36. real_of 1000.
  specialize (E1 ltac:(apply below; nra)).
  specialize (E2 ltac:(apply below; nra)).
  specialize (E3 ltac:(apply below; lra)).
  specialize (E4 ltac:(apply below; nra)).
  specialize (E5 ltac:(apply below; nra)).
  set (ra := F2R a) in *. set (re := F2R e) in *. set (ri := F2R i) in *.
  set (rh := F2R h) in *. set (rp := F2R p) in *.
  set (u := F2R (a * e)) in *. set (w := F2R (i * h)) in *.
  set (H := F2R (i * h / 1000)) in *.
  set (t := F2R (a * e * (i * h / 1000))) in *.
  set (E := F2R (a * e * (i * h / 1000) * p)) in *.
  assert (D1 : (- / 34359738368 <= H - ri * rh / 1000 <= / 34359738368)%R) by lra.
  pose proof (product_bound (u - ra * re) H (/ 4294967296) 65536
                ltac:(lra) ltac:(lra)) as D2.
  assert (Hae : (0 <= ra * re <= 1048576)%R) by nra.
  pose proof (product_bound (H - ri * rh / 1000) (ra * re) (/ 34359738368) 1048576
                ltac:(lra) Hae) as D3.
  assert (D5 : (- (/ 16384) <= t - ra * re * (ri * rh / 1000) <= / 16384)%R).
  { replace (t - ra * re * (ri * rh / 1000))%R
      with ((t - u * H) + (u - ra * re) * H + (H - ri * rh / 1000) * (ra * re))%R
      by ring.
    lra. }
  pose proof (product_bound (t - ra * re * (ri * rh / 1000)) rp (/ 16384) 1
                ltac:(lra) ltac:(lra)) as D6.
  apply Rabs_le.
  replace (E - ra * re * (ri * rh / 1000) * rp)%R
    with ((E - t * rp) + (t - ra * re * (ri * rh / 1000)) * rp)%R by ring.
  lra.
Qed.


(** On binary64 the energy is the formula of the source up to rounding:
    for an area up to 2^20, an irradiance up to 2^11 and a period up to
    2^14 hours it is within 2^-13 of the formula on the real numbers.  It
    is not exactly linear: three times the area does not give three times
    the energy. *)
Theorem energy_is_close_to_the_formula :
  (forall a e i h p : float,
     validArea a -> inRange 0 1 e -> inRange 0 1 p ->
     (a <=? 0x1p20) = true -> inRange 0 0x1p11 i ->
     (0 <? h) = true -> (h <=? 0x1p14) = true ->
     exists E : float,
       estimateEnergyProduced a e i h (Some p) = Return E
       /\ is_finite E = true
       /\ (Rabs (F2R E - F2R a * F2R e * (F2R i * F2R h / 1000) * F2R p)
           <= bpow (-13))%R)
  /\ (exists E1 E3 : float,
        estimateEnergyProduced 1.1 0.2 100 24 (Some 0.8) = Return E1
        /\ estimateEnergyProduced (3 * 1.1) 0.2 100 24 (Some 0.8) = Return E3
        /\ (E3 =? 3 * E1) = false).
Proof.
  split.
  - intros a e i h p Ha He Hp Hmax Hi Hh0 Hh1.
    unfold estimateEnergyProduced.
    change ((a <? lit 0)%num || negb (Number_isFinite a))
      with ((a <? 0) || negb (is_finite a)).
    change ((e <? lit 0)%num || (e >? lit 1)%num)
      with ((e <? 0) || (1 <? e)).
    change ((p <? lit 0)%num || (p >? lit 1)%num)
      with ((p <? 0) || (1 <? p)).
    change (i <? lit 0)%num with (i <? 0).
    change (h <=? lit 0)%num with (h <=? 0).
    rewrite (area_guard_false _ Ha), (unit_guard_false _ He),
      (unit_guard_false _ Hp), (leb_true_ltb_false _ _ (proj1 Hi)),
      (ltb_true_leb_false _ _ Hh0).
    eexists. split; [reflexivity|]. on_floats.
    apply energy_product_is_close; try assumption.
    split; [apply ltb_leb; exact Hh0|exact Hh1].
  - do 2 eexists. repeat split; vm_compute; reflexivity.
Qed.

End EnergyProduct.

Lemma energy_is_close_to_the_formula_witness :
  exists E : float,
    estimateEnergyProduced (N := Float64 RefMath)
      2%float 0.2%float 100%float 24%float (Some 0.8%float) = Return E
    /\ is_finite E = true
    /\ (Rabs (Binary64.F2R E
              - Binary64.F2R 2%float * Binary64.F2R 0.2%float
                * (Binary64.F2R 100%float * Binary64.F2R 24%float / 1000)
                * Binary64.F2R 0.8%float)
        <= Dyadic.bpow (-13))%R.
Proof.
  apply (proj1 (energy_is_close_to_the_formula RefMath)
           2%float 0.2%float 100%float 24%float 0.8%float);
    repeat split; vm_compute; reflexivity.
Defined.
